(** * yuv_rgb.c: fixed-point RGB24 <-> planar YUV 4:2:0 conversion

    A shallow embedding of [src/yuv_rgb.c] and the properties of its
    coefficient tables, of its two scalar block transforms and of the two
    vector kernels it keeps compiled out.

    Conventions of the embedding:
    - a C integer is a [Z]; every conversion to a narrower C type is written
      out ([to_uint8], [to_uint16], [to_uint32], [to_int8], [to_int16]);
      [int] arithmetic is left unbounded, the operands being 8-bit values
      multiplied pairwise (no product leaves the 32-bit range);
    - [>>] on [int] is [Z.shiftr] (the arithmetic, flooring shift of gcc and
      clang on two's complement);
    - a [double] is a primitive binary64 float, so that the constant folding
      of the parameter macros is replayed bit for bit;
    - a buffer is a map from byte offsets (relative to the base pointer the
      caller passes) to cell contents, and a pointer into it is an offset;
      the aligned vector variants take the addresses of the four base
      pointers as well, their loads and stores faulting on an address that
      is not a multiple of 16;
    - a [for] loop is a fuel-bounded iteration whose outcome records whether
      the loop ran to completion. *)

From Stdlib Require Import ZArith Floats QArith Qround Lia List Bool.
Import ListNotations.
Set Warnings "-inexact-float".
Local Open Scope Z_scope.

(** ** C integer conversions *)

Definition to_uint8 (x : Z) : Z := x mod 2 ^ 8.
Definition to_uint16 (x : Z) : Z := x mod 2 ^ 16.
Definition to_uint32 (x : Z) : Z := x mod 2 ^ 32.
Definition to_int8 (x : Z) : Z := (x + 2 ^ 7) mod 2 ^ 8 - 2 ^ 7.
Definition to_int16 (x : Z) : Z := (x + 2 ^ 15) mod 2 ^ 16 - 2 ^ 15.

(** [(int)d] for a double [d]: truncation toward zero. *)
Definition int_of_double (d : float) : Z :=
  match Prim2SF d with
  | S754_finite s m e =>
      let a := match e with
               | Z0 => Zpos m
               | Zpos k => Z.shiftl (Zpos m) (Zpos k)
               | Zneg k => Z.shiftr (Zpos m) (Zpos k)
               end in
      if s then - a else a
  | _ => 0
  end.

(** The usual arithmetic conversion of a (small, non-negative) [int]
    operand to [double]. *)
Definition double_of_int (z : Z) : float := PrimFloat.of_uint63 (Uint63.of_Z z).

(** ** The clamp of the inverse path (yuv_rgb.c:10-13)

    [uint8_t clamp(int16_t value)]: the argument is converted to [int16_t]
    at the call, the result to [uint8_t] at the return. *)
Definition clamp (value : Z) : Z :=
  let value := to_int16 value in
  to_uint8 (if value <? 0 then 0 else if value >? 255 then 255 else value).

(** ** Parameter tables (yuv_rgb.c:73-130) *)

(** [#define FIXED_POINT_VALUE(value, precision)
       ((int)(((value)*(1<<precision))+0.5))] *)
Definition FIXED_POINT_VALUE (value : float) (precision : Z) : Z :=
  int_of_double (value * double_of_int (Z.shiftl 1 precision) + 0.5)%float.

Module RGB2YUVParam.
Record t : Set := mk {
    r_factor : Z;
    g_factor : Z;
    b_factor : Z;
    cb_factor : Z;
    cr_factor : Z;
    y_factor : Z;
    y_offset : Z
  }.
End RGB2YUVParam.

Module YUV2RGBParam.
Record t : Set := mk {
    cb_factor : Z;
    cr_factor : Z;
    g_cb_factor : Z;
    g_cr_factor : Z;
    y_factor : Z;
    y_offset : Z
  }.
End YUV2RGBParam.

(** Every field is a [uint8_t]: the initialiser converts to it. *)
Definition RGB2YUV_PARAM (Rf Bf YMin YMax CbCrRange : float) : RGB2YUVParam.t :=
  {| RGB2YUVParam.r_factor := to_uint8 (FIXED_POINT_VALUE Rf 8);
     RGB2YUVParam.g_factor :=
       to_uint8 (256 - FIXED_POINT_VALUE Rf 8 - FIXED_POINT_VALUE Bf 8);
     RGB2YUVParam.b_factor := to_uint8 (FIXED_POINT_VALUE Bf 8);
     RGB2YUVParam.cb_factor :=
       to_uint8 (FIXED_POINT_VALUE
                   ((CbCrRange / 255.0) / (2.0 * (double_of_int 1 - Bf)))%float 8);
     RGB2YUVParam.cr_factor :=
       to_uint8 (FIXED_POINT_VALUE
                   ((CbCrRange / 255.0) / (2.0 * (double_of_int 1 - Rf)))%float 8);
     RGB2YUVParam.y_factor :=
       to_uint8 (FIXED_POINT_VALUE ((YMax - YMin) / 255.0)%float 7);
     RGB2YUVParam.y_offset := to_uint8 (int_of_double YMin) |}.

Definition YUV2RGB_PARAM (Rf Bf YMin YMax CbCrRange : float) : YUV2RGBParam.t :=
  {| YUV2RGBParam.cb_factor :=
       to_uint8 (FIXED_POINT_VALUE
                   (255.0 * (2.0 * (double_of_int 1 - Bf)) / CbCrRange)%float 6);
     YUV2RGBParam.cr_factor :=
       to_uint8 (FIXED_POINT_VALUE
                   (255.0 * (2.0 * (double_of_int 1 - Rf)) / CbCrRange)%float 6);
     YUV2RGBParam.g_cb_factor :=
       to_uint8 (FIXED_POINT_VALUE
                   (Bf / (1.0 - Bf - Rf) * 255.0 * (2.0 * (double_of_int 1 - Bf))
                    / CbCrRange)%float 7);
     YUV2RGBParam.g_cr_factor :=
       to_uint8 (FIXED_POINT_VALUE
                   (Rf / (1.0 - Bf - Rf) * 255.0 * (2.0 * (double_of_int 1 - Rf))
                    / CbCrRange)%float 7);
     YUV2RGBParam.y_factor :=
       to_uint8 (FIXED_POINT_VALUE (255.0 / (YMax - YMin))%float 7);
     YUV2RGBParam.y_offset := to_uint8 (int_of_double YMin) |}.

(** Modelled from the spec: the enumeration [YCbCrType] is declared in
    [yuv_rgb.h], which is not part of the sources; section 6 of the
    specification numbers the standards 0 = FullRangeJPEG, 1 = BT601,
    2 = BT709, the order of the two tables below. *)
Inductive YCbCrType : Set := YCBCR_JPEG | YCBCR_601 | YCBCR_709.

(** [static const RGB2YUVParam RGB2YUV[3]] *)
Definition RGB2YUV (yuv_type : YCbCrType) : RGB2YUVParam.t :=
  match yuv_type with
  | YCBCR_JPEG => RGB2YUV_PARAM 0.299 0.114 0.0 255.0 255.0
  | YCBCR_601 => RGB2YUV_PARAM 0.299 0.114 16.0 235.0 224.0
  | YCBCR_709 => RGB2YUV_PARAM 0.2126 0.0722 16.0 235.0 224.0
  end.

(** [static const YUV2RGBParam YUV2RGB[3]] *)
Definition YUV2RGB (yuv_type : YCbCrType) : YUV2RGBParam.t :=
  match yuv_type with
  | YCBCR_JPEG => YUV2RGB_PARAM 0.299 0.114 0.0 255.0 255.0
  | YCBCR_601 => YUV2RGB_PARAM 0.299 0.114 16.0 235.0 224.0
  | YCBCR_709 => YUV2RGB_PARAM 0.2126 0.0722 16.0 235.0 224.0
  end.

(** *** The derivation as section 4.1 of the specification words it

    The same formulas over exact rationals, with round-half-up
    [round x = floor (x + 1/2)]; these definitions follow the text of the
    specification and are what the tables are compared with. *)
Module Derivation.

Record constants : Set := mk {
    Rf : Q;
    Bf : Q;
    YMin : Q;
    YMax : Q;
    CbCrRange : Q
  }.

Definition standard (yuv_type : YCbCrType) : constants :=
    match yuv_type with
    | YCBCR_JPEG => mk (299 # 1000) (114 # 1000) 0 255 255
    | YCBCR_601 => mk (299 # 1000) (114 # 1000) 16 235 224
    | YCBCR_709 => mk (2126 # 10000) (722 # 10000) 16 235 224
    end.

Definition round_half_up (x : Q) : Z := Qfloor (x + (1 # 2)).

Local Open Scope Q_scope.

Definition forward (c : constants) : RGB2YUVParam.t :=
    let r := round_half_up (Rf c * 256) in
    let b := round_half_up (Bf c * 256) in
    {| RGB2YUVParam.r_factor := r;
       RGB2YUVParam.g_factor := (256 - r - b)%Z;
       RGB2YUVParam.b_factor := b;
       RGB2YUVParam.cb_factor :=
         round_half_up (256 * (CbCrRange c / 255) / (2 * (1 - Bf c)));
       RGB2YUVParam.cr_factor :=
         round_half_up (256 * (CbCrRange c / 255) / (2 * (1 - Rf c)));
       RGB2YUVParam.y_factor := round_half_up (128 * (YMax c - YMin c) / 255);
       RGB2YUVParam.y_offset := Qfloor (YMin c) |}.

Definition inverse (c : constants) : YUV2RGBParam.t :=
    {| YUV2RGBParam.cb_factor :=
         round_half_up (64 * 255 * (2 * (1 - Bf c)) / CbCrRange c);
       YUV2RGBParam.cr_factor :=
         round_half_up (64 * 255 * (2 * (1 - Rf c)) / CbCrRange c);
       YUV2RGBParam.g_cb_factor :=
         round_half_up (128 * Bf c / (1 - Bf c - Rf c) * 255 * (2 * (1 - Bf c))
                        / CbCrRange c);
       YUV2RGBParam.g_cr_factor :=
         round_half_up (128 * Rf c / (1 - Bf c - Rf c) * 255 * (2 * (1 - Rf c))
                        / CbCrRange c);
       YUV2RGBParam.y_factor := round_half_up (128 * 255 / (YMax c - YMin c));
       YUV2RGBParam.y_offset := Qfloor (YMin c) |}.

End Derivation.

(** ** Buffers and loops *)

(** A buffer seen from its base pointer; [uint8_t] loads and stores. *)
Definition plane : Type := Z -> Z.

Definition load8 (p : plane) (i : Z) : Z := to_uint8 (p i).

Definition store8 (p : plane) (i v : Z) : plane :=
  fun j => if j =? i then to_uint8 v else p j.

(** What a loop run on bounded fuel leaves: the state at normal exit, or
    the state reached when the fuel ran out. *)
Inductive outcome (A : Type) : Type :=
| Done (a : A)
| OutOfFuel (a : A).
Arguments Done {A} a.
Arguments OutOfFuel {A} a.

Definition state_of {A : Type} (o : outcome A) : A :=
  match o with Done a | OutOfFuel a => a end.

(** [for (x = x0; x < bound; x += step) body] with [x] a [uint32_t]:
    the counter wraps modulo 2^32.  [bound] is the value of the (loop
    invariant) right-hand side of the test. *)
Fixpoint for_u32 {A : Type} (fuel : nat) (bound step : Z)
    (body : Z -> A -> outcome A) (x : Z) (a : A) : outcome A :=
  match fuel with
  | O => OutOfFuel a
  | S fuel' =>
      if x <? bound then
        match body x a with
        | Done a' => for_u32 fuel' bound step body (to_uint32 (x + step)) a'
        | OutOfFuel a' => OutOfFuel a'
        end
      else Done a
  end.

(** ** Forward conversion: [rgb24_yuv420_std] (yuv_rgb.c:133-189) *)

Record yuv_planes : Type := mk_yuv {
  Y_plane : plane;
  U_plane : plane;
  V_plane : plane
}.

(** The pointers the inner loop advances. *)
Record fwd_cursor : Set := mk_fwd_cursor {
  f_rgb_ptr1 : Z;
  f_rgb_ptr2 : Z;
  f_y_ptr1 : Z;
  f_y_ptr2 : Z;
  f_u_ptr : Z;
  f_v_ptr : Z
}.

(** The six pointers at the head of the row pair starting at row [y]
    (lines 144-150): [uint32_t] products added to the base pointers. *)
Definition fwd_row_start (RGB_stride Y_stride UV_stride y : Z) : fwd_cursor :=
  mk_fwd_cursor
    (to_uint32 (y * RGB_stride))
    (to_uint32 (to_uint32 (y + 1) * RGB_stride))
    (to_uint32 (y * Y_stride))
    (to_uint32 (to_uint32 (y + 1) * Y_stride))
    (to_uint32 (y / 2 * UV_stride))
    (to_uint32 (y / 2 * UV_stride)).

Section Forward.
Import RGB2YUVParam.
Variable param : RGB2YUVParam.t.

(** [y_tmp = (r_factor*R + g_factor*G + b_factor*B)>>8], a [uint8_t]. *)
Definition fwd_y_tmp (R G B : Z) : Z :=
  to_uint8 (Z.shiftr (r_factor param * R + g_factor param * G
                      + b_factor param * B) 8).

(** [(((B-y_tmp)*cb_factor)>>8) + 128], an [int]. *)
Definition fwd_u_term (B y_tmp : Z) : Z :=
  Z.shiftr ((B - y_tmp) * cb_factor param) 8 + 128.

(** [(((R-y_tmp)*cr_factor)>>8) + 128], an [int]. *)
Definition fwd_v_term (R y_tmp : Z) : Z :=
  Z.shiftr ((R - y_tmp) * cr_factor param) 8 + 128.

(** [((y_tmp*y_factor)>>7) + y_offset], an [int] (stored as a byte). *)
Definition fwd_y_out (y_tmp : Z) : Z :=
  Z.shiftr (y_tmp * y_factor param) 7 + y_offset param.

(** The body of the inner loop (lines 155-186): four pixels read, four
    luma bytes and one U and one V byte written, six pointers advanced. *)
Definition rgb24_yuv420_block (RGB : plane) (s : fwd_cursor * yuv_planes)
    : fwd_cursor * yuv_planes :=
  let '(c, m) := s in
  let rgb_ptr1 := f_rgb_ptr1 c in
  let rgb_ptr2 := f_rgb_ptr2 c in
  let y_ptr1 := f_y_ptr1 c in
  let y_ptr2 := f_y_ptr2 c in
  let u_ptr := f_u_ptr c in
  let v_ptr := f_v_ptr c in
  let Y := Y_plane m in
  (* first pixel of the upper row *)
  let y_tmp := fwd_y_tmp (load8 RGB rgb_ptr1) (load8 RGB (rgb_ptr1 + 1))
                         (load8 RGB (rgb_ptr1 + 2)) in
  let u_tmp := to_uint16 (fwd_u_term (load8 RGB (rgb_ptr1 + 2)) y_tmp) in
  let v_tmp := to_uint16 (fwd_v_term (load8 RGB rgb_ptr1) y_tmp) in
  let Y := store8 Y y_ptr1 (fwd_y_out y_tmp) in
  (* second pixel of the upper row *)
  let y_tmp := fwd_y_tmp (load8 RGB (rgb_ptr1 + 3)) (load8 RGB (rgb_ptr1 + 4))
                         (load8 RGB (rgb_ptr1 + 5)) in
  let u_tmp := to_uint16 (u_tmp + fwd_u_term (load8 RGB (rgb_ptr1 + 5)) y_tmp) in
  let v_tmp := to_uint16 (v_tmp + fwd_v_term (load8 RGB (rgb_ptr1 + 3)) y_tmp) in
  let Y := store8 Y (y_ptr1 + 1) (fwd_y_out y_tmp) in
  (* first pixel of the lower row *)
  let y_tmp := fwd_y_tmp (load8 RGB rgb_ptr2) (load8 RGB (rgb_ptr2 + 1))
                         (load8 RGB (rgb_ptr2 + 2)) in
  let u_tmp := to_uint16 (u_tmp + fwd_u_term (load8 RGB (rgb_ptr2 + 2)) y_tmp) in
  let v_tmp := to_uint16 (v_tmp + fwd_v_term (load8 RGB rgb_ptr2) y_tmp) in
  let Y := store8 Y y_ptr2 (fwd_y_out y_tmp) in
  (* second pixel of the lower row *)
  let y_tmp := fwd_y_tmp (load8 RGB (rgb_ptr2 + 3)) (load8 RGB (rgb_ptr2 + 4))
                         (load8 RGB (rgb_ptr2 + 5)) in
  let u_tmp := to_uint16 (u_tmp + fwd_u_term (load8 RGB (rgb_ptr2 + 5)) y_tmp) in
  let v_tmp := to_uint16 (v_tmp + fwd_v_term (load8 RGB (rgb_ptr2 + 3)) y_tmp) in
  let Y := store8 Y (y_ptr2 + 1) (fwd_y_out y_tmp) in
  let U := store8 (U_plane m) u_ptr (Z.shiftr u_tmp 2) in
  let V := store8 (V_plane m) v_ptr (Z.shiftr v_tmp 2) in
  (mk_fwd_cursor (rgb_ptr1 + 6) (rgb_ptr2 + 6) (y_ptr1 + 2) (y_ptr2 + 2)
                 (u_ptr + 1) (v_ptr + 1),
   mk_yuv Y U V).

(** The body of the outer loop (lines 143-188): the row pointers are set
    and the inner loop runs over the row pair. *)
Definition rgb24_yuv420_rows (fuel : nat) (width : Z) (RGB : plane)
    (RGB_stride Y_stride UV_stride : Z) (y : Z) (m : yuv_planes)
    : outcome yuv_planes :=
  let c := fwd_row_start RGB_stride Y_stride UV_stride y in
  match for_u32 fuel (to_uint32 (width - 1)) 2
                (fun _ s => Done (rgb24_yuv420_block RGB s)) 0 (c, m) with
  | Done s => Done (snd s)
  | OutOfFuel s => OutOfFuel (snd s)
  end.

End Forward.

(** [fuel] bounds the number of iterations of each loop. *)
Definition rgb24_yuv420_std (fuel : nat) (width height : Z)
    (RGB : plane) (RGB_stride : Z) (Y U V : plane) (Y_stride UV_stride : Z)
    (yuv_type : YCbCrType) : outcome yuv_planes :=
  let param := RGB2YUV yuv_type in
  for_u32 fuel (to_uint32 (height - 1)) 2
          (rgb24_yuv420_rows param fuel width RGB RGB_stride Y_stride UV_stride)
          0 (mk_yuv Y U V).

(** ** Inverse conversion: [yuv420_rgb24_std] (yuv_rgb.c:192-251) *)

Record inv_cursor : Set := mk_inv_cursor {
  i_y_ptr1 : Z;
  i_y_ptr2 : Z;
  i_u_ptr : Z;
  i_v_ptr : Z;
  i_rgb_ptr1 : Z;
  i_rgb_ptr2 : Z
}.

(** The six pointers at the head of the row pair starting at row [y]
    (lines 202-208). *)
Definition inv_row_start (Y_stride UV_stride RGB_stride y : Z) : inv_cursor :=
  mk_inv_cursor
    (to_uint32 (y * Y_stride))
    (to_uint32 (to_uint32 (y + 1) * Y_stride))
    (to_uint32 (y / 2 * UV_stride))
    (to_uint32 (y / 2 * UV_stride))
    (to_uint32 (y * RGB_stride))
    (to_uint32 (to_uint32 (y + 1) * RGB_stride)).

Section Inverse.
Import YUV2RGBParam.
Variable param : YUV2RGBParam.t.

(** [u_tmp = u_ptr[0]-128], an [int8_t] (and the same for [v_tmp]). *)
Definition inv_uv_tmp (c : Z) : Z := to_int8 (c - 128).

(** The three block-shared offsets, each an [int16_t]. *)
Definition inv_b_cb_offset (u_tmp : Z) : Z :=
  to_int16 (Z.shiftr (cb_factor param * u_tmp) 6).
Definition inv_r_cr_offset (v_tmp : Z) : Z :=
  to_int16 (Z.shiftr (cr_factor param * v_tmp) 6).
Definition inv_g_cbcr_offset (u_tmp v_tmp : Z) : Z :=
  to_int16 (Z.shiftr (g_cb_factor param * u_tmp + g_cr_factor param * v_tmp) 7).

(** [y_tmp = (y_factor*(Y-y_offset))>>7], an [int16_t]. *)
Definition inv_y_tmp (Yv : Z) : Z :=
  to_int16 (Z.shiftr (y_factor param * (Yv - y_offset param)) 7).

(** The three stores of one pixel at [ptr]. *)
Definition inv_store_pixel (RGB : plane) (ptr y_tmp r_cr_offset g_cbcr_offset
    b_cb_offset : Z) : plane :=
  let RGB := store8 RGB ptr (clamp (y_tmp + r_cr_offset)) in
  let RGB := store8 RGB (ptr + 1) (clamp (y_tmp - g_cbcr_offset)) in
  store8 RGB (ptr + 2) (clamp (y_tmp + b_cb_offset)).

(** The body of the inner loop (lines 211-248). *)
Definition yuv420_rgb24_block (Y U V : plane) (s : inv_cursor * plane)
    : inv_cursor * plane :=
  let '(c, RGB) := s in
  let y_ptr1 := i_y_ptr1 c in
  let y_ptr2 := i_y_ptr2 c in
  let u_ptr := i_u_ptr c in
  let v_ptr := i_v_ptr c in
  let rgb_ptr1 := i_rgb_ptr1 c in
  let rgb_ptr2 := i_rgb_ptr2 c in
  let u_tmp := inv_uv_tmp (load8 U u_ptr) in
  let v_tmp := inv_uv_tmp (load8 V v_ptr) in
  let b_cb_offset := inv_b_cb_offset u_tmp in
  let r_cr_offset := inv_r_cr_offset v_tmp in
  let g_cbcr_offset := inv_g_cbcr_offset u_tmp v_tmp in
  let y_tmp := inv_y_tmp (load8 Y y_ptr1) in
  let RGB := inv_store_pixel RGB rgb_ptr1 y_tmp r_cr_offset g_cbcr_offset
                             b_cb_offset in
  let y_tmp := inv_y_tmp (load8 Y (y_ptr1 + 1)) in
  let RGB := inv_store_pixel RGB (rgb_ptr1 + 3) y_tmp r_cr_offset g_cbcr_offset
                             b_cb_offset in
  let y_tmp := inv_y_tmp (load8 Y y_ptr2) in
  let RGB := inv_store_pixel RGB rgb_ptr2 y_tmp r_cr_offset g_cbcr_offset
                             b_cb_offset in
  let y_tmp := inv_y_tmp (load8 Y (y_ptr2 + 1)) in
  let RGB := inv_store_pixel RGB (rgb_ptr2 + 3) y_tmp r_cr_offset g_cbcr_offset
                             b_cb_offset in
  (mk_inv_cursor (y_ptr1 + 2) (y_ptr2 + 2) (u_ptr + 1) (v_ptr + 1)
                 (rgb_ptr1 + 6) (rgb_ptr2 + 6),
   RGB).

(** The body of the outer loop (lines 201-250). *)
Definition yuv420_rgb24_rows (fuel : nat) (width : Z) (Y U V : plane)
    (Y_stride UV_stride RGB_stride : Z) (y : Z) (RGB : plane)
    : outcome plane :=
  let c := inv_row_start Y_stride UV_stride RGB_stride y in
  match for_u32 fuel (to_uint32 (width - 1)) 2
                (fun _ s => Done (yuv420_rgb24_block Y U V s)) 0 (c, RGB) with
  | Done s => Done (snd s)
  | OutOfFuel s => OutOfFuel (snd s)
  end.

End Inverse.

Definition yuv420_rgb24_std (fuel : nat) (width height : Z)
    (Y U V : plane) (Y_stride UV_stride : Z) (RGB : plane) (RGB_stride : Z)
    (yuv_type : YCbCrType) : outcome plane :=
  let param := YUV2RGB yuv_type in
  for_u32 fuel (to_uint32 (height - 1)) 2
          (yuv420_rgb24_rows param fuel width Y U V Y_stride UV_stride RGB_stride)
          0 RGB.

Definition const_plane (v : Z) : plane := fun _ => v.

(** ** Vocabulary of the statements *)

Definition is_byte (x : Z) : Prop := 0 <= x <= 255.

(** The mathematical saturation to a byte. *)
Definition saturate (x : Z) : Z := Z.max 0 (Z.min 255 x).

(** [n] successive runs of a loop body, the counter starting at [x] and
    advancing by [step] without wrapping. *)
Fixpoint iter_from {A : Type} (step : Z) (f : Z -> A -> A) (n : nat) (x : Z)
    (a : A) : A :=
  match n with
  | O => a
  | S k => iter_from step f k (x + step) (f x a)
  end.

(** The value of a wrapping [uint32_t] counter after [k] increments. *)
Definition counter_u32 (step : Z) (k : nat) (x : Z) : Z :=
  Nat.iter k (fun x => to_uint32 (x + step)) x.

(** The same with the counter wrapping as a [uint32_t]. *)
Fixpoint iter_u32 {A : Type} (step : Z) (f : Z -> A -> A) (n : nat) (x : Z)
    (a : A) : A :=
  match n with
  | O => a
  | S k => iter_u32 step f k (to_uint32 (x + step)) (f x a)
  end.

(** ** What the forward block computes, as functions of the source bytes

    [i] is the offset in [RGB] of the first byte of a pixel; [i1] and [i2]
    are the offsets of the upper-left and lower-left pixels of a block. *)
Section ForwardValues.
Variable param : RGB2YUVParam.t.
Variable RGB : plane.

Definition fwd_y_tmp_at (i : Z) : Z :=
  fwd_y_tmp param (load8 RGB i) (load8 RGB (i + 1)) (load8 RGB (i + 2)).

(** The luma byte stored for the pixel at [i]. *)
Definition fwd_luma_at (i : Z) : Z :=
  to_uint8 (fwd_y_out param (fwd_y_tmp_at i)).

(** The per-pixel chroma terms, as [int] values. *)
Definition fwd_u_at (i : Z) : Z :=
  fwd_u_term param (load8 RGB (i + 2)) (fwd_y_tmp_at i).
Definition fwd_v_at (i : Z) : Z :=
  fwd_v_term param (load8 RGB i) (fwd_y_tmp_at i).

(** The accumulation in a [uint16_t] of four terms, shifted and stored as
    a byte, in the order of the code. *)
Definition fwd_accumulate (t1 t2 t3 t4 : Z) : Z :=
  to_uint8
    (Z.shiftr (to_uint16 (to_uint16 (to_uint16 (to_uint16 t1 + t2) + t3) + t4)) 2).

Definition fwd_block_u (i1 i2 : Z) : Z :=
  fwd_accumulate (fwd_u_at i1) (fwd_u_at (i1 + 3)) (fwd_u_at i2)
                 (fwd_u_at (i2 + 3)).
Definition fwd_block_v (i1 i2 : Z) : Z :=
  fwd_accumulate (fwd_v_at i1) (fwd_v_at (i1 + 3)) (fwd_v_at i2)
                 (fwd_v_at (i2 + 3)).

End ForwardValues.

(** The cursor after [n] blocks. *)
Definition fwd_advance (c : fwd_cursor) (n : Z) : fwd_cursor :=
  mk_fwd_cursor (f_rgb_ptr1 c + 6 * n) (f_rgb_ptr2 c + 6 * n)
                (f_y_ptr1 c + 2 * n) (f_y_ptr2 c + 2 * n)
                (f_u_ptr c + n) (f_v_ptr c + n).

(** [n] blocks of a row pair, from cursor [c]. *)
Definition fwd_row (param : RGB2YUVParam.t) (RGB : plane) (n : nat)
    (c : fwd_cursor) (m : yuv_planes) : fwd_cursor * yuv_planes :=
  iter_from 2 (fun _ s => rgb24_yuv420_block param RGB s) n 0 (c, m).

(** [lo <= o < hi] as a boolean. *)
Definition in_range (lo hi o : Z) : bool := (lo <=? o) && (o <? hi).

(** ** Geometry of a call

    The preconditions of section 6 of the specification on the buffers
    (row pitches at least the tight packing), for an image of at least one
    pixel whose planes are addressable with the 32-bit offsets the code
    computes. *)
Record geometry (width height RGB_stride Y_stride UV_stride : Z) : Prop := {
  g_width : 1 <= width < 2 ^ 32;
  g_height : 1 <= height < 2 ^ 32;
  g_rgb_stride : 3 * width <= RGB_stride;
  g_y_stride : width <= Y_stride;
  g_uv_stride : (width + 1) / 2 <= UV_stride;
  g_rgb_size : height * RGB_stride < 2 ^ 32;
  g_y_size : height * Y_stride < 2 ^ 32;
  g_uv_size : (height + 1) / 2 * UV_stride < 2 ^ 32
}.

(** The cells of a plane of row pitch [stride] lying in its first [rows]
    rows and first [cols] columns. *)
Definition in_region (stride rows cols o : Z) : Prop :=
  exists r c, 0 <= r < rows /\ 0 <= c < cols /\ o = r * stride + c.

(** What a completed forward conversion leaves in the three planes. *)
Record fwd_post (param : RGB2YUVParam.t) (width height : Z) (RGB : plane)
    (RGB_stride : Z) (Y U V : plane) (Y_stride UV_stride : Z)
    (m : yuv_planes) : Prop := {
  fwd_post_Y : forall r c,
    0 <= r < 2 * (height / 2) -> 0 <= c < 2 * (width / 2) ->
    Y_plane m (r * Y_stride + c) = fwd_luma_at param RGB (r * RGB_stride + 3 * c);
  fwd_post_U : forall i j,
    0 <= i < height / 2 -> 0 <= j < width / 2 ->
    U_plane m (i * UV_stride + j)
    = fwd_block_u param RGB (2 * i * RGB_stride + 6 * j)
                            ((2 * i + 1) * RGB_stride + 6 * j);
  fwd_post_V : forall i j,
    0 <= i < height / 2 -> 0 <= j < width / 2 ->
    V_plane m (i * UV_stride + j)
    = fwd_block_v param RGB (2 * i * RGB_stride + 6 * j)
                            ((2 * i + 1) * RGB_stride + 6 * j);
  fwd_frame_Y : forall o,
    ~ in_region Y_stride (2 * (height / 2)) (2 * (width / 2)) o ->
    Y_plane m o = Y o;
  fwd_frame_U : forall o,
    ~ in_region UV_stride (height / 2) (width / 2) o -> U_plane m o = U o;
  fwd_frame_V : forall o,
    ~ in_region UV_stride (height / 2) (width / 2) o -> V_plane m o = V o
}.

(** One row pair of the forward conversion, as a function. *)
Definition fwd_pair (param : RGB2YUVParam.t) (width : Z) (RGB : plane)
    (RGB_stride Y_stride UV_stride : Z) (y : Z) (m : yuv_planes) : yuv_planes :=
  snd (fwd_row param RGB (Z.to_nat (width / 2))
               (fwd_row_start RGB_stride Y_stride UV_stride y) m).

(** The planes after the first [n] row pairs. *)
Definition fwd_pairs (param : RGB2YUVParam.t) (width : Z) (RGB : plane)
    (RGB_stride : Z) (Y U V : plane) (Y_stride UV_stride : Z) (n : nat)
    : yuv_planes :=
  iter_from 2 (fwd_pair param width RGB RGB_stride Y_stride UV_stride) n 0
            (mk_yuv Y U V).

(** ** The formulas of sections 4.2 and 4.3 over the integers

    The per-pixel quantities as the specification words them, with no
    conversion to a C type in between. *)
Section Formulas.
Import RGB2YUVParam.
Variable p : RGB2YUVParam.t.

(** Y' = (r_factor*R + g_factor*G + b_factor*B) >> 8 *)
Definition pseudo_luma (R G B : Z) : Z :=
  Z.shiftr (r_factor p * R + g_factor p * G + b_factor p * B) 8.

(** ((B - Y') * cb_factor >> 8) + 128 *)
Definition chroma_u (R G B : Z) : Z :=
  Z.shiftr ((B - pseudo_luma R G B) * cb_factor p) 8 + 128.

(** ((R - Y') * cr_factor >> 8) + 128 *)
Definition chroma_v (R G B : Z) : Z :=
  Z.shiftr ((R - pseudo_luma R G B) * cr_factor p) 8 + 128.

(** Y = (Y' * y_factor >> 7) + y_offset *)
Definition digital_luma (R G B : Z) : Z :=
  Z.shiftr (pseudo_luma R G B * y_factor p) 7 + y_offset p.

End Formulas.

Section InverseFormulas.
Import YUV2RGBParam.
Variable q : YUV2RGBParam.t.

(** Y' = (y_factor * (Y - y_offset)) >> 7 *)
Definition full_range_luma (Yv : Z) : Z :=
  Z.shiftr (y_factor q * (Yv - y_offset q)) 7.

(** B-offset = (cb_factor * (U - 128)) >> 6 *)
Definition b_offset (Uv : Z) : Z := Z.shiftr (cb_factor q * (Uv - 128)) 6.

(** R-offset = (cr_factor * (V - 128)) >> 6 *)
Definition r_offset (Vv : Z) : Z := Z.shiftr (cr_factor q * (Vv - 128)) 6.

(** G-offset = (g_cb_factor * (U - 128) + g_cr_factor * (V - 128)) >> 7 *)
Definition g_offset (Uv Vv : Z) : Z :=
  Z.shiftr (g_cb_factor q * (Uv - 128) + g_cr_factor q * (Vv - 128)) 7.

(** The value handed to the clamp for channel [ch] (0 = R, 1 = G, 2 = B). *)
Definition unclamped (Yv Uv Vv ch : Z) : Z :=
  if ch =? 0 then full_range_luma Yv + r_offset Vv
  else if ch =? 1 then full_range_luma Yv - g_offset Uv Vv
  else full_range_luma Yv + b_offset Uv.

End InverseFormulas.

(** The three bytes of the pixel in row [r], column [c] of an RGB24
    buffer of row pitch [RGB_stride]. *)
Definition red (RGB : plane) (RGB_stride r c : Z) : Z :=
  load8 RGB (r * RGB_stride + 3 * c).
Definition green (RGB : plane) (RGB_stride r c : Z) : Z :=
  load8 RGB (r * RGB_stride + 3 * c + 1).
Definition blue (RGB : plane) (RGB_stride r c : Z) : Z :=
  load8 RGB (r * RGB_stride + 3 * c + 2).

(** A formula of three channels at the pixel in row [r], column [c]. *)
Definition at_pixel (g : Z -> Z -> Z -> Z) (RGB : plane) (RGB_stride r c : Z)
    : Z :=
  g (red RGB RGB_stride r c) (green RGB RGB_stride r c)
    (blue RGB RGB_stride r c).

(** The 2x2 block in block row [i], block column [j] holds one colour. *)
Definition uniform_block (RGB : plane) (RGB_stride i j R G B : Z) : Prop :=
  forall dr dc, 0 <= dr <= 1 -> 0 <= dc <= 1 ->
    red RGB RGB_stride (2 * i + dr) (2 * j + dc) = R /\
    green RGB RGB_stride (2 * i + dr) (2 * j + dc) = G /\
    blue RGB RGB_stride (2 * i + dr) (2 * j + dc) = B.

(** A pixel as a triple, and a formula of three channels applied to it. *)
Definition byte_pixel (px : Z * Z * Z) : Prop :=
  let '(R, G, B) := px in is_byte R /\ is_byte G /\ is_byte B.

Definition on_pixel (g : Z -> Z -> Z -> Z) (px : Z * Z * Z) : Z :=
  let '(R, G, B) := px in g R G B.

(** The sum of a formula over the four pixels of block ([i], [j]). *)
Definition block_sum (g : Z -> Z -> Z -> Z) (RGB : plane)
    (RGB_stride i j : Z) : Z :=
  at_pixel g RGB RGB_stride (2 * i) (2 * j)
  + at_pixel g RGB RGB_stride (2 * i) (2 * j + 1)
  + at_pixel g RGB RGB_stride (2 * i + 1) (2 * j)
  + at_pixel g RGB RGB_stride (2 * i + 1) (2 * j + 1).

(** ** What the inverse block computes, as functions of the source bytes *)

(** The byte stored for channel [ch] (0 = R, 1 = G, 2 = B) of the pixel
    whose luma is at offset [yo] of [Y] and whose block's chroma samples
    are at offsets [uo] of [U] and [vo] of [V]. *)
Definition inv_channel (param : YUV2RGBParam.t) (Y U V : plane)
    (yo uo vo ch : Z) : Z :=
  let u_tmp := inv_uv_tmp (load8 U uo) in
  let v_tmp := inv_uv_tmp (load8 V vo) in
  let y_tmp := inv_y_tmp param (load8 Y yo) in
  to_uint8
    (clamp (if ch =? 0 then y_tmp + inv_r_cr_offset param v_tmp
            else if ch =? 1 then y_tmp - inv_g_cbcr_offset param u_tmp v_tmp
            else y_tmp + inv_b_cb_offset param u_tmp)).

(** The cursor after [n] blocks. *)
Definition inv_advance (c : inv_cursor) (n : Z) : inv_cursor :=
  mk_inv_cursor (i_y_ptr1 c + 2 * n) (i_y_ptr2 c + 2 * n)
                (i_u_ptr c + n) (i_v_ptr c + n)
                (i_rgb_ptr1 c + 6 * n) (i_rgb_ptr2 c + 6 * n).

(** [n] blocks of a row pair, from cursor [c]. *)
Definition inv_row (param : YUV2RGBParam.t) (Y U V : plane) (n : nat)
    (c : inv_cursor) (RGB : plane) : inv_cursor * plane :=
  iter_from 2 (fun _ s => yuv420_rgb24_block param Y U V s) n 0 (c, RGB).

(** One row pair of the inverse conversion, as a function. *)
Definition inv_pair (param : YUV2RGBParam.t) (width : Z) (Y U V : plane)
    (Y_stride UV_stride RGB_stride : Z) (y : Z) (RGB : plane) : plane :=
  snd (inv_row param Y U V (Z.to_nat (width / 2))
               (inv_row_start Y_stride UV_stride RGB_stride y) RGB).

(** The buffer after the first [n] row pairs. *)
Definition inv_pairs (param : YUV2RGBParam.t) (width : Z) (Y U V : plane)
    (Y_stride UV_stride : Z) (RGB : plane) (RGB_stride : Z) (n : nat) : plane :=
  iter_from 2 (inv_pair param width Y U V Y_stride UV_stride RGB_stride) n 0 RGB.

(** What a completed inverse conversion leaves in the RGB buffer. *)
Record inv_post (param : YUV2RGBParam.t) (width height : Z) (Y U V : plane)
    (Y_stride UV_stride : Z) (RGB : plane) (RGB_stride : Z) (out : plane)
    : Prop := {
  inv_post_RGB : forall r c ch,
    0 <= r < 2 * (height / 2) -> 0 <= c < 2 * (width / 2) -> 0 <= ch < 3 ->
    out (r * RGB_stride + 3 * c + ch)
    = inv_channel param Y U V (r * Y_stride + c)
                  (r / 2 * UV_stride + c / 2) (r / 2 * UV_stride + c / 2) ch;
  inv_frame_RGB : forall o,
    ~ in_region RGB_stride (2 * (height / 2)) (3 * (2 * (width / 2))) o ->
    out o = RGB o
}.

(** A buffer holding the bytes of a list from offset 0 on, and zero
    elsewhere. *)
Definition plane_of_list (l : list Z) : plane :=
  fun i => if i <? 0 then 0 else nth (Z.to_nat i) l 0.

(** ** The vectorised forward path (yuv_rgb.c:253-676, compiled out)

    A 128-bit register is kept with the view its last writer gave it:
    sixteen bytes or eight 16-bit words (both unsigned, lowest lane first);
    an instruction reading the other view converts, little-endian. *)
Inductive m128i : Type :=
| epi8 (bytes : list Z)
| epi16 (words : list Z).

Fixpoint words_of_bytes (l : list Z) : list Z :=
  match l with
  | lo :: hi :: t => (lo + 256 * hi) :: words_of_bytes t
  | _ => []
  end.

Definition bytes_of_words (l : list Z) : list Z :=
  flat_map (fun w => [w mod 256; (w / 256) mod 256]) l.

Definition as_bytes (v : m128i) : list Z :=
  match v with epi8 b => b | epi16 w => bytes_of_words w end.

Definition as_words (v : m128i) : list Z :=
  match v with epi8 b => words_of_bytes b | epi16 w => w end.

Fixpoint interleave (a b : list Z) : list Z :=
  match a, b with
  | x :: a', y :: b' => x :: y :: interleave a' b'
  | _, _ => []
  end.

Fixpoint map2 (f : Z -> Z -> Z) (a b : list Z) : list Z :=
  match a, b with
  | x :: a', y :: b' => f x y :: map2 f a' b'
  | _, _ => []
  end.

Definition _mm_setzero_si128 : m128i := epi8 (repeat 0 16).

(** The argument is converted to [short]. *)
Definition _mm_set1_epi16 (x : Z) : m128i := epi16 (repeat (to_uint16 x) 8).

Definition _mm_cvtsi32_si128 (x : Z) : m128i :=
  let x := to_uint32 x in
  epi8 ([x mod 256; (x / 2 ^ 8) mod 256; (x / 2 ^ 16) mod 256;
         (x / 2 ^ 24) mod 256] ++ repeat 0 12).

Definition _mm_unpacklo_epi8 (a b : m128i) : m128i :=
  epi8 (interleave (firstn 8 (as_bytes a)) (firstn 8 (as_bytes b))).

Definition _mm_unpackhi_epi8 (a b : m128i) : m128i :=
  epi8 (interleave (skipn 8 (as_bytes a)) (skipn 8 (as_bytes b))).

Definition _mm_add_epi16 (a b : m128i) : m128i :=
  epi16 (map2 (fun x y => to_uint16 (x + y)) (as_words a) (as_words b)).

(** The low 16 bits of the products. *)
Definition _mm_mullo_epi16 (a b : m128i) : m128i :=
  epi16 (map2 (fun x y => to_uint16 (x * y)) (as_words a) (as_words b)).

(** Arithmetic shift of the signed words by the count, an [int]: every
    count outside 0..15 fills each word with its sign, as a count of 15
    does. *)
Definition _mm_srai_epi16 (a : m128i) (imm8 : Z) : m128i :=
  let count := if (0 <=? imm8) && (imm8 <=? 15) then imm8 else 15 in
  epi16 (map (fun x => to_uint16 (Z.shiftr (to_int16 x) count)) (as_words a)).

(** Logical shift of the words by the low 64 bits of [count]; a count
    above 15 gives zero. *)
Definition _mm_srl_epi16 (a count : m128i) : m128i :=
  let c := fold_right (fun b acc => b + 256 * acc) 0 (firstn 8 (as_bytes count)) in
  epi16 (map (fun x => if 15 <? c then 0 else Z.shiftr x c) (as_words a)).

Definition _mm_and_si128 (a b : m128i) : m128i :=
  epi8 (map2 Z.land (as_bytes a) (as_bytes b)).

(** Signed words saturated to unsigned bytes, [a]'s first. *)
Definition _mm_packus_epi16 (a b : m128i) : m128i :=
  epi8 (map (fun x => saturate (to_int16 x)) (as_words a ++ as_words b)).

(** Rounding average of unsigned bytes. *)
Definition _mm_avg_epu8 (a b : m128i) : m128i :=
  epi8 (map2 (fun x y => Z.shiftr (x + y + 1) 1) (as_bytes a) (as_bytes b)).

Definition lanes16 : list Z := [0; 1; 2; 3; 4; 5; 6; 7; 8; 9; 10; 11; 12; 13; 14; 15].

(** [LOAD_SI128] as [_mm_loadu_si128] (line 647): the sixteen bytes at
    [ptr], whatever its alignment. *)
Definition LOAD_SI128 (p : plane) (ptr : Z) : m128i :=
  epi8 (map (fun k => load8 p (ptr + k)) lanes16).

(** [SAVE_SI128] as [_mm_storeu_si128] (line 648). *)
Definition SAVE_SI128 (p : plane) (ptr : Z) (v : m128i) : plane :=
  fun o => if in_range ptr (ptr + 16) o
           then nth (Z.to_nat (o - ptr)) (as_bytes v) 0
           else p o.

(** The vector kernels read [param->matrix[i][j]], [param->y_shift] and
    the macro [PRECISION]. The sources declare none of them ([RGB2YUVParam]
    has no such field), so they are parameters of the model: a
    [vector_param] is what [&(RGB2YUV[yuv_type])] would give for them.
    The biases [x << PRECISION] are [Z.shiftl]; C defines them only while
    the shifted value fits an [int] (a [PRECISION] from 0 to 23 for 128). *)
Record vector_param : Set := mk_vector_param {
  matrix : Z -> Z -> Z;
  y_shift : Z;
  PRECISION : Z
}.

(** Six registers. *)
Definition six : Type := m128i * m128i * m128i * m128i * m128i * m128i.

(** [UNPACK_RGB24_32_STEP1]: from (RGB1..RGB6) to (R1, R2, G1, G2, B1, B2). *)
Definition UNPACK_RGB24_32_STEP1 (v : six) : six :=
  let '(RGB1, RGB2, RGB3, RGB4, RGB5, RGB6) := v in
  (_mm_unpacklo_epi8 RGB1 RGB4, _mm_unpackhi_epi8 RGB1 RGB4,
   _mm_unpacklo_epi8 RGB2 RGB5, _mm_unpackhi_epi8 RGB2 RGB5,
   _mm_unpacklo_epi8 RGB3 RGB6, _mm_unpackhi_epi8 RGB3 RGB6).

(** [UNPACK_RGB24_32_STEP2]: from (R1, R2, G1, G2, B1, B2) to (RGB1..RGB6). *)
Definition UNPACK_RGB24_32_STEP2 (v : six) : six :=
  let '(R1, R2, G1, G2, B1, B2) := v in
  (_mm_unpacklo_epi8 R1 G2, _mm_unpackhi_epi8 R1 G2,
   _mm_unpacklo_epi8 R2 B1, _mm_unpackhi_epi8 R2 B1,
   _mm_unpacklo_epi8 G1 B2, _mm_unpackhi_epi8 G1 B2).

Definition UNPACK_RGB24_32 (v : six) : six :=
  UNPACK_RGB24_32_STEP1
    (UNPACK_RGB24_32_STEP2
       (UNPACK_RGB24_32_STEP1
          (UNPACK_RGB24_32_STEP2 (UNPACK_RGB24_32_STEP1 v)))).

Section Vector.
Variable param : vector_param.

(** One row of the matrix applied to eight pixels, biased and shifted. *)
Definition RGB2YUV_16_row (i : Z) (bias : Z) (R G B : m128i) : m128i :=
  let X := _mm_add_epi16 (_mm_mullo_epi16 R (_mm_set1_epi16 (matrix param i 0)))
                         (_mm_mullo_epi16 G (_mm_set1_epi16 (matrix param i 1))) in
  let X := _mm_add_epi16 X (_mm_mullo_epi16 B (_mm_set1_epi16 (matrix param i 2))) in
  let X := _mm_add_epi16 X (_mm_set1_epi16 bias) in
  _mm_srai_epi16 X (PRECISION param).

(** [RGB2YUV_16(R, G, B, Y, U, V)] *)
Definition RGB2YUV_16 (R G B : m128i) : m128i * m128i * m128i :=
  (RGB2YUV_16_row 0 (Z.shiftl (y_shift param) (PRECISION param)) R G B,
   RGB2YUV_16_row 1 (Z.shiftl 128 (PRECISION param)) R G B,
   RGB2YUV_16_row 2 (Z.shiftl 128 (PRECISION param)) R G B).

(** Sixteen pixels of each of the two rows: loads, unpacking, the two
    halves of each row, packing; gives the packed Y of both rows and the
    vertical averages of U and V. *)
Definition RGB2YUV_32_half (RGB : plane) (rgb_ptr1 rgb_ptr2 : Z)
    : m128i * m128i * m128i * m128i :=
  let '(r1, r2, g1, g2, b1, b2) :=
    UNPACK_RGB24_32 (LOAD_SI128 RGB rgb_ptr1, LOAD_SI128 RGB (rgb_ptr1 + 16),
                     LOAD_SI128 RGB (rgb_ptr1 + 32), LOAD_SI128 RGB rgb_ptr2,
                     LOAD_SI128 RGB (rgb_ptr2 + 16),
                     LOAD_SI128 RGB (rgb_ptr2 + 32)) in
  let zero := _mm_setzero_si128 in
  (* first line *)
  let '(y1_16, u1_16, v1_16) :=
    RGB2YUV_16 (_mm_unpacklo_epi8 r1 zero) (_mm_unpacklo_epi8 g1 zero)
               (_mm_unpacklo_epi8 b1 zero) in
  let '(y2_16, u2_16, v2_16) :=
    RGB2YUV_16 (_mm_unpackhi_epi8 r1 zero) (_mm_unpackhi_epi8 g1 zero)
               (_mm_unpackhi_epi8 b1 zero) in
  let y_line1 := _mm_packus_epi16 y1_16 y2_16 in
  let u1 := _mm_packus_epi16 u1_16 u2_16 in
  let v1 := _mm_packus_epi16 v1_16 v2_16 in
  (* second line *)
  let '(y1_16, u1_16, v1_16) :=
    RGB2YUV_16 (_mm_unpacklo_epi8 r2 zero) (_mm_unpacklo_epi8 g2 zero)
               (_mm_unpacklo_epi8 b2 zero) in
  let '(y2_16, u2_16, v2_16) :=
    RGB2YUV_16 (_mm_unpackhi_epi8 r2 zero) (_mm_unpackhi_epi8 g2 zero)
               (_mm_unpackhi_epi8 b2 zero) in
  let y_line2 := _mm_packus_epi16 y1_16 y2_16 in
  let u2 := _mm_packus_epi16 u1_16 u2_16 in
  let v2 := _mm_packus_epi16 v1_16 v2_16 in
  (* vertical subsampling *)
  (y_line1, y_line2, _mm_avg_epu8 u1 u2, _mm_avg_epu8 v1 v2).

(** Horizontal subsampling: the odd bytes of the two registers averaged
    with the even ones. *)
Definition horizontal_subsample (t1 t2 : m128i) : m128i :=
  let odd := _mm_packus_epi16 (_mm_srl_epi16 t1 (_mm_cvtsi32_si128 8))
                              (_mm_srl_epi16 t2 (_mm_cvtsi32_si128 8)) in
  let even := _mm_packus_epi16 (_mm_and_si128 t1 (_mm_set1_epi16 255))
                               (_mm_and_si128 t2 (_mm_set1_epi16 255)) in
  _mm_avg_epu8 odd even.

(** [RGB2YUV_32], followed by the pointer increments of the loop body. *)
Definition RGB2YUV_32 (RGB : plane) (s : fwd_cursor * yuv_planes)
    : fwd_cursor * yuv_planes :=
  let '(c, m) := s in
  let rgb_ptr1 := f_rgb_ptr1 c in
  let rgb_ptr2 := f_rgb_ptr2 c in
  let y_ptr1 := f_y_ptr1 c in
  let y_ptr2 := f_y_ptr2 c in
  let u_ptr := f_u_ptr c in
  let v_ptr := f_v_ptr c in
  let '(ya1, ya2, u1_tmp, v1_tmp) := RGB2YUV_32_half RGB rgb_ptr1 rgb_ptr2 in
  let Y := SAVE_SI128 (Y_plane m) y_ptr1 ya1 in
  let Y := SAVE_SI128 Y y_ptr2 ya2 in
  let '(yb1, yb2, u2_tmp, v2_tmp) :=
    RGB2YUV_32_half RGB (rgb_ptr1 + 48) (rgb_ptr2 + 48) in
  let Y := SAVE_SI128 Y (y_ptr1 + 16) yb1 in
  let Y := SAVE_SI128 Y (y_ptr2 + 16) yb2 in
  let U := SAVE_SI128 (U_plane m) u_ptr (horizontal_subsample u1_tmp u2_tmp) in
  let V := SAVE_SI128 (V_plane m) v_ptr (horizontal_subsample v1_tmp v2_tmp) in
  (mk_fwd_cursor (rgb_ptr1 + 96) (rgb_ptr2 + 96) (y_ptr1 + 32) (y_ptr2 + 32)
                 (u_ptr + 16) (v_ptr + 16),
   mk_yuv Y U V).

Definition rgb24_yuv420_sse_rows (fuel : nat) (width : Z) (RGB : plane)
    (RGB_stride Y_stride UV_stride : Z) (y : Z) (m : yuv_planes)
    : outcome yuv_planes :=
  let c := fwd_row_start RGB_stride Y_stride UV_stride y in
  match for_u32 fuel (to_uint32 (width - 31)) 32
                (fun _ s => Done (RGB2YUV_32 RGB s)) 0 (c, m) with
  | Done s => Done (snd s)
  | OutOfFuel s => OutOfFuel (snd s)
  end.

End Vector.

(** [rgb24_yuv420_sseu] (lines 642-676): [LOAD_SI128] and [SAVE_SI128] are
    the unaligned load and store, which take any address. *)
Definition rgb24_yuv420_sseu (RGB2YUV_vector : YCbCrType -> vector_param)
    (fuel : nat) (width height : Z) (RGB : plane) (RGB_stride : Z)
    (Y U V : plane) (Y_stride UV_stride : Z) (yuv_type : YCbCrType)
    : outcome yuv_planes :=
  let param := RGB2YUV_vector yuv_type in
  for_u32 fuel (to_uint32 (height - 1)) 2
          (rgb24_yuv420_sse_rows param fuel width RGB RGB_stride Y_stride
                                 UV_stride)
          0 (mk_yuv Y U V).

(** *** What the vector kernel computes, lane by lane *)

(** The 16-bit lane of [RGB2YUV_16] for one pixel: row [i] of the matrix,
    the bias, the arithmetic shift. *)
Definition vector_lane (prm : vector_param) (i bias r g b : Z) : Z :=
  let count := if (0 <=? PRECISION prm) && (PRECISION prm <=? 15)
               then PRECISION prm else 15 in
  to_uint16
    (Z.shiftr
       (to_int16
          (to_uint16
             (to_uint16
                (to_uint16 (to_uint16 (r * to_uint16 (matrix prm i 0))
                            + to_uint16 (g * to_uint16 (matrix prm i 1)))
                 + to_uint16 (b * to_uint16 (matrix prm i 2)))
              + to_uint16 bias)))
       count).

(** The lane packed to a byte, for the pixel at offset [o] of [RGB]. *)
Definition vector_byte (prm : vector_param) (i bias : Z) (RGB : plane) (o : Z)
    : Z :=
  saturate (to_int16 (vector_lane prm i bias (load8 RGB o) (load8 RGB (o + 1))
                                  (load8 RGB (o + 2)))).

Definition vector_y (prm : vector_param) (RGB : plane) (o : Z) : Z :=
  vector_byte prm 0 (Z.shiftl (y_shift prm) (PRECISION prm)) RGB o.
Definition vector_u (prm : vector_param) (RGB : plane) (o : Z) : Z :=
  vector_byte prm 1 (Z.shiftl 128 (PRECISION prm)) RGB o.
Definition vector_v (prm : vector_param) (RGB : plane) (o : Z) : Z :=
  vector_byte prm 2 (Z.shiftl 128 (PRECISION prm)) RGB o.

(** The rounding average of two bytes ([pavgb]). *)
Definition avg (x y : Z) : Z := Z.shiftr (x + y + 1) 1.

Fixpoint pair_averages (l : list Z) : list Z :=
  match l with
  | a :: b :: t => avg b a :: pair_averages t
  | _ => []
  end.

(** The average of averages over block [j] of a row pair whose rows start
    at offsets [p1] and [p2]: columns first, then the two columns. *)
Definition block_average (f : Z -> Z) (p1 p2 j : Z) : Z :=
  avg (avg (f (p1 + 3 * (2 * j + 1))) (f (p2 + 3 * (2 * j + 1))))
      (avg (f (p1 + 3 * (2 * j))) (f (p2 + 3 * (2 * j)))).

(** [n] batches of a row pair, from cursor [c]. *)
Definition vec_row (prm : vector_param) (RGB : plane) (n : nat)
    (c : fwd_cursor) (m : yuv_planes) : fwd_cursor * yuv_planes :=
  iter_from 32 (fun _ s => RGB2YUV_32 prm RGB s) n 0 (c, m).

(** One row pair of the vectorised conversion, as a function. *)
Definition vec_pair (prm : vector_param) (width : Z) (RGB : plane)
    (RGB_stride Y_stride UV_stride : Z) (y : Z) (m : yuv_planes) : yuv_planes :=
  snd (vec_row prm RGB (Z.to_nat (width / 32))
               (fwd_row_start RGB_stride Y_stride UV_stride y) m).

(** The planes after the first [n] row pairs. *)
Definition vec_pairs (prm : vector_param) (width : Z) (RGB : plane)
    (RGB_stride : Z) (Y U V : plane) (Y_stride UV_stride : Z) (n : nat)
    : yuv_planes :=
  iter_from 2 (vec_pair prm width RGB RGB_stride Y_stride UV_stride) n 0
            (mk_yuv Y U V).

(** What a completed vectorised conversion leaves in the chroma planes. *)
Record vec_post (prm : vector_param) (width height : Z) (RGB : plane)
    (RGB_stride : Z) (U V : plane) (UV_stride : Z) (m : yuv_planes) : Prop := {
  vec_post_U : forall i j,
    0 <= i < height / 2 -> 0 <= j < width / 2 ->
    U_plane m (i * UV_stride + j)
    = block_average (vector_u prm RGB) (2 * i * RGB_stride)
                    ((2 * i + 1) * RGB_stride) j;
  vec_post_V : forall i j,
    0 <= i < height / 2 -> 0 <= j < width / 2 ->
    V_plane m (i * UV_stride + j)
    = block_average (vector_v prm RGB) (2 * i * RGB_stride)
                    ((2 * i + 1) * RGB_stride) j;
  vec_frame_U : forall o,
    ~ in_region UV_stride (height / 2) (width / 2) o -> U_plane m o = U o;
  vec_frame_V : forall o,
    ~ in_region UV_stride (height / 2) (width / 2) o -> V_plane m o = V o
}.

Definition image_blue3 : plane := fun o => if o mod 3 =? 2 then 3 else 0.
Definition image_one_blue3 : plane := fun o => if o =? 2 then 3 else 0.

(** ** Further vocabulary: grey pixels, slices, the vector paths *)

(** The pixel in row [r], column [c] is grey: its three channels are equal. *)
Definition grey_pixel (RGB : plane) (RGB_stride r c : Z) : Prop :=
  red RGB RGB_stride r c = green RGB RGB_stride r c /\
  green RGB RGB_stride r c = blue RGB RGB_stride r c.

(** The four pixels of block ([i], [j]) are grey (not necessarily the same
    grey). *)
Definition grey_block (RGB : plane) (RGB_stride i j : Z) : Prop :=
  forall dr dc, 0 <= dr <= 1 -> 0 <= dc <= 1 ->
    grey_pixel RGB RGB_stride (2 * i + dr) (2 * j + dc).

(** The number of levels a grey pixel may lose in a round trip. *)
Definition grey_loss (yuv_type : YCbCrType) : Z :=
  match yuv_type with YCBCR_JPEG => 0 | _ => 2 end.

(** The buffer seen from the pointer [p + d]. *)
Definition shift_plane (p : plane) (d : Z) : plane := fun o => p (o + d).

(** What a completed vectorised forward conversion leaves in the three
    planes, for any width: whole batches of 32 columns are converted. *)
Record vec_image (prm : vector_param) (width height : Z) (RGB : plane)
    (RGB_stride : Z) (Y U V : plane) (Y_stride UV_stride : Z)
    (m : yuv_planes) : Prop := {
  vec_image_Y : forall r c,
    0 <= r < 2 * (height / 2) -> 0 <= c < 32 * (width / 32) ->
    Y_plane m (r * Y_stride + c) = vector_y prm RGB (r * RGB_stride + 3 * c);
  vec_image_U : forall i j,
    0 <= i < height / 2 -> 0 <= j < 16 * (width / 32) ->
    U_plane m (i * UV_stride + j)
    = block_average (vector_u prm RGB) (2 * i * RGB_stride)
                    ((2 * i + 1) * RGB_stride) j;
  vec_image_V : forall i j,
    0 <= i < height / 2 -> 0 <= j < 16 * (width / 32) ->
    V_plane m (i * UV_stride + j)
    = block_average (vector_v prm RGB) (2 * i * RGB_stride)
                    ((2 * i + 1) * RGB_stride) j;
  vec_frame_image_Y : forall o,
    ~ in_region Y_stride (2 * (height / 2)) (32 * (width / 32)) o ->
    Y_plane m o = Y o;
  vec_frame_image_U : forall o,
    ~ in_region UV_stride (height / 2) (16 * (width / 32)) o -> U_plane m o = U o;
  vec_frame_image_V : forall o,
    ~ in_region UV_stride (height / 2) (16 * (width / 32)) o -> V_plane m o = V o
}.

(** The shift count [_mm_srai_epi16] applies for [PRECISION]. *)
Definition vector_count (prm : vector_param) : Z :=
  if (0 <=? PRECISION prm) && (PRECISION prm <=? 15) then PRECISION prm
  else 15.

(** Row [i] of the matrix applied to a pixel in 16-bit wrap-around
    arithmetic, shifted arithmetically and saturated to a byte. *)
Definition vector_dot (prm : vector_param) (i bias r g b : Z) : Z :=
  saturate
    (Z.shiftr
       (to_int16 (matrix prm i 0 * r + matrix prm i 1 * g + matrix prm i 2 * b
                  + bias))
       (vector_count prm)).

(** ** The vectorised inverse path (yuv_rgb.c:256-397, 532-604, compiled out) *)

Definition _mm_sub_epi16 (a b : m128i) : m128i :=
  epi16 (map2 (fun x y => to_uint16 (x - y)) (as_words a) (as_words b)).

Definition _mm_unpacklo_epi16 (a b : m128i) : m128i :=
  epi16 (interleave (firstn 4 (as_words a)) (firstn 4 (as_words b))).

Definition _mm_unpackhi_epi16 (a b : m128i) : m128i :=
  epi16 (interleave (skipn 4 (as_words a)) (skipn 4 (as_words b))).

(** Logical shift of the words by the count, an [int]: every count
    outside 0..15 gives zero. *)
Definition _mm_srli_epi16 (a : m128i) (imm8 : Z) : m128i :=
  epi16 (map (fun x => if (0 <=? imm8) && (imm8 <=? 15) then Z.shiftr x imm8
                       else 0)
             (as_words a)).

(** The inverse kernels read [param->v_r_factor], [param->u_g_factor],
    [param->v_g_factor], [param->u_b_factor], [param->y_shift],
    [param->y_factor] and the macro [PRECISION].  [YUV2RGBParam] declares
    [y_factor] only, at a precision of its own, so as for the forward
    kernels the seven values are parameters of the model. *)
Module YUV2RGBVector.
Record t : Set := mk {
    v_r_factor : Z;
    u_g_factor : Z;
    v_g_factor : Z;
    u_b_factor : Z;
    y_shift : Z;
    y_factor : Z;
    PRECISION : Z
  }.
End YUV2RGBVector.

(** [PACK_RGB24_32_STEP1]: from (R1, R2, G1, G2, B1, B2) to (RGB1..RGB6). *)
Definition PACK_RGB24_32_STEP1 (v : six) : six :=
  let '(R1, R2, G1, G2, B1, B2) := v in
  let mask := _mm_set1_epi16 255 in
  (_mm_packus_epi16 (_mm_and_si128 R1 mask) (_mm_and_si128 R2 mask),
   _mm_packus_epi16 (_mm_and_si128 G1 mask) (_mm_and_si128 G2 mask),
   _mm_packus_epi16 (_mm_and_si128 B1 mask) (_mm_and_si128 B2 mask),
   _mm_packus_epi16 (_mm_srli_epi16 R1 8) (_mm_srli_epi16 R2 8),
   _mm_packus_epi16 (_mm_srli_epi16 G1 8) (_mm_srli_epi16 G2 8),
   _mm_packus_epi16 (_mm_srli_epi16 B1 8) (_mm_srli_epi16 B2 8)).

(** [PACK_RGB24_32_STEP2]: from (RGB1..RGB6) to (R1, R2, G1, G2, B1, B2). *)
Definition PACK_RGB24_32_STEP2 (v : six) : six :=
  let '(RGB1, RGB2, RGB3, RGB4, RGB5, RGB6) := v in
  let mask := _mm_set1_epi16 255 in
  (_mm_packus_epi16 (_mm_and_si128 RGB1 mask) (_mm_and_si128 RGB2 mask),
   _mm_packus_epi16 (_mm_and_si128 RGB3 mask) (_mm_and_si128 RGB4 mask),
   _mm_packus_epi16 (_mm_and_si128 RGB5 mask) (_mm_and_si128 RGB6 mask),
   _mm_packus_epi16 (_mm_srli_epi16 RGB1 8) (_mm_srli_epi16 RGB2 8),
   _mm_packus_epi16 (_mm_srli_epi16 RGB3 8) (_mm_srli_epi16 RGB4 8),
   _mm_packus_epi16 (_mm_srli_epi16 RGB5 8) (_mm_srli_epi16 RGB6 8)).

Definition PACK_RGB24_32 (v : six) : six :=
  PACK_RGB24_32_STEP1
    (PACK_RGB24_32_STEP2
       (PACK_RGB24_32_STEP1
          (PACK_RGB24_32_STEP2 (PACK_RGB24_32_STEP1 v)))).

Section InverseVector.
Import YUV2RGBVector.
Variable param : YUV2RGBVector.t.

(** [UV2RGB_16(U, V, R1, G1, B1, R2, G2, B2)]: the chroma terms of eight
    samples, each doubled for the two pixels it covers. *)
Definition UV2RGB_16 (U V : m128i) : six :=
  let r_tmp := _mm_mullo_epi16 V (_mm_set1_epi16 (v_r_factor param)) in
  let g_tmp :=
    _mm_add_epi16 (_mm_mullo_epi16 U (_mm_set1_epi16 (u_g_factor param)))
                  (_mm_mullo_epi16 V (_mm_set1_epi16 (v_g_factor param))) in
  let b_tmp := _mm_mullo_epi16 U (_mm_set1_epi16 (u_b_factor param)) in
  (_mm_unpacklo_epi16 r_tmp r_tmp, _mm_unpacklo_epi16 g_tmp g_tmp,
   _mm_unpacklo_epi16 b_tmp b_tmp,
   _mm_unpackhi_epi16 r_tmp r_tmp, _mm_unpackhi_epi16 g_tmp g_tmp,
   _mm_unpackhi_epi16 b_tmp b_tmp).

(** [ADD_Y2RGB_16(Y1, Y2, R1, G1, B1, R2, G2, B2)] *)
Definition ADD_Y2RGB_16 (Y1 Y2 : m128i) (v : six) : six :=
  let '(R1, G1, B1, R2, G2, B2) := v in
  let Y1 := _mm_mullo_epi16 (_mm_sub_epi16 Y1 (_mm_set1_epi16 (y_shift param)))
                            (_mm_set1_epi16 (y_factor param)) in
  let Y2 := _mm_mullo_epi16 (_mm_sub_epi16 Y2 (_mm_set1_epi16 (y_shift param)))
                            (_mm_set1_epi16 (y_factor param)) in
  (_mm_srai_epi16 (_mm_add_epi16 R1 Y1) (PRECISION param),
   _mm_srai_epi16 (_mm_add_epi16 G1 Y1) (PRECISION param),
   _mm_srai_epi16 (_mm_add_epi16 B1 Y1) (PRECISION param),
   _mm_srai_epi16 (_mm_add_epi16 R2 Y2) (PRECISION param),
   _mm_srai_epi16 (_mm_add_epi16 G2 Y2) (PRECISION param),
   _mm_srai_epi16 (_mm_add_epi16 B2 Y2) (PRECISION param)).

(** The chroma terms of the eight samples unpacked from one half of the
    [u] and [v] registers. *)
Definition YUV2RGB_32_chroma (u_16 v_16 : m128i) : six :=
  UV2RGB_16 (_mm_add_epi16 u_16 (_mm_set1_epi16 (-128)))
            (_mm_add_epi16 v_16 (_mm_set1_epi16 (-128))).

(** Sixteen pixels of one line: the luma bytes at [y_ptr] are loaded,
    widened, added to the chroma terms and the three channels packed. *)
Definition YUV2RGB_32_line (Y : plane) (y_ptr : Z) (uv : six)
    : m128i * m128i * m128i :=
  let y := LOAD_SI128 Y y_ptr in
  let y_16_1 := _mm_unpacklo_epi8 y _mm_setzero_si128 in
  let y_16_2 := _mm_unpackhi_epi8 y _mm_setzero_si128 in
  let '(r_16_1, g_16_1, b_16_1, r_16_2, g_16_2, b_16_2) :=
    ADD_Y2RGB_16 y_16_1 y_16_2 uv in
  (_mm_packus_epi16 r_16_1 r_16_2, _mm_packus_epi16 g_16_1 g_16_2,
   _mm_packus_epi16 b_16_1 b_16_2).

(** Six registers stored at [ptr], [ptr + 16], ..., [ptr + 80]. *)
Definition SAVE_six (RGB : plane) (ptr : Z) (v : six) : plane :=
  let '(rgb_1, rgb_2, rgb_3, rgb_4, rgb_5, rgb_6) := v in
  let RGB := SAVE_SI128 RGB ptr rgb_1 in
  let RGB := SAVE_SI128 RGB (ptr + 16) rgb_2 in
  let RGB := SAVE_SI128 RGB (ptr + 32) rgb_3 in
  let RGB := SAVE_SI128 RGB (ptr + 48) rgb_4 in
  let RGB := SAVE_SI128 RGB (ptr + 64) rgb_5 in
  SAVE_SI128 RGB (ptr + 80) rgb_6.

(** [YUV2RGB_32], followed by the pointer increments of the loop body. *)
Definition YUV2RGB_32 (Y U V : plane) (s : inv_cursor * plane)
    : inv_cursor * plane :=
  let '(c, RGB) := s in
  let y_ptr1 := i_y_ptr1 c in
  let y_ptr2 := i_y_ptr2 c in
  let u_ptr := i_u_ptr c in
  let v_ptr := i_v_ptr c in
  let rgb_ptr1 := i_rgb_ptr1 c in
  let rgb_ptr2 := i_rgb_ptr2 c in
  let zero := _mm_setzero_si128 in
  let u := LOAD_SI128 U u_ptr in
  let v := LOAD_SI128 V v_ptr in
  (* first 16 pixels of both lines *)
  let uv := YUV2RGB_32_chroma (_mm_unpacklo_epi8 u zero)
                              (_mm_unpacklo_epi8 v zero) in
  let '(r_8_11, g_8_11, b_8_11) := YUV2RGB_32_line Y y_ptr1 uv in
  let '(r_8_21, g_8_21, b_8_21) := YUV2RGB_32_line Y y_ptr2 uv in
  (* last 16 pixels of both lines *)
  let uv := YUV2RGB_32_chroma (_mm_unpackhi_epi8 u zero)
                              (_mm_unpackhi_epi8 v zero) in
  let '(r_8_12, g_8_12, b_8_12) := YUV2RGB_32_line Y (y_ptr1 + 16) uv in
  let '(r_8_22, g_8_22, b_8_22) := YUV2RGB_32_line Y (y_ptr2 + 16) uv in
  let RGB :=
    SAVE_six RGB rgb_ptr1
             (PACK_RGB24_32 (r_8_11, r_8_12, g_8_11, g_8_12, b_8_11, b_8_12)) in
  let RGB :=
    SAVE_six RGB rgb_ptr2
             (PACK_RGB24_32 (r_8_21, r_8_22, g_8_21, g_8_22, b_8_21, b_8_22)) in
  (mk_inv_cursor (y_ptr1 + 32) (y_ptr2 + 32) (u_ptr + 16) (v_ptr + 16)
                 (rgb_ptr1 + 96) (rgb_ptr2 + 96),
   RGB).

Definition yuv420_rgb24_sse_rows (fuel : nat) (width : Z) (Y U V : plane)
    (Y_stride UV_stride RGB_stride : Z) (y : Z) (RGB : plane)
    : outcome plane :=
  let c := inv_row_start Y_stride UV_stride RGB_stride y in
  match for_u32 fuel (to_uint32 (width - 31)) 32
                (fun _ s => Done (YUV2RGB_32 Y U V s)) 0 (c, RGB) with
  | Done s => Done (snd s)
  | OutOfFuel s => OutOfFuel (snd s)
  end.

End InverseVector.

(** [yuv420_rgb24_sseu] (lines 569-604), with the unaligned load and
    store. *)
Definition yuv420_rgb24_sseu (YUV2RGB_vector : YCbCrType -> YUV2RGBVector.t)
    (fuel : nat) (width height : Z) (Y U V : plane) (Y_stride UV_stride : Z)
    (RGB : plane) (RGB_stride : Z) (yuv_type : YCbCrType) : outcome plane :=
  let param := YUV2RGB_vector yuv_type in
  for_u32 fuel (to_uint32 (height - 1)) 2
          (yuv420_rgb24_sse_rows param fuel width Y U V Y_stride UV_stride
                                 RGB_stride)
          0 RGB.

(** The bytes of even and of odd rank of a list. *)
Fixpoint evens (l : list Z) : list Z :=
  match l with a :: _ :: t => a :: evens t | _ => [] end.

Fixpoint odds (l : list Z) : list Z :=
  match l with _ :: b :: t => b :: odds t | _ => [] end.

(** Three planar channels as interleaved triples. *)
Fixpoint interleave3 (r g b : list Z) : list Z :=
  match r, g, b with
  | x :: r', y :: g', z :: b' => x :: y :: z :: interleave3 r' g' b'
  | _, _, _ => []
  end.

(** Ninety-six bytes as six registers, and back. *)
Definition six_of_bytes (l : list Z) : six :=
  (epi8 (firstn 16 l), epi8 (firstn 16 (skipn 16 l)),
   epi8 (firstn 16 (skipn 32 l)), epi8 (firstn 16 (skipn 48 l)),
   epi8 (firstn 16 (skipn 64 l)), epi8 (firstn 16 (skipn 80 l))).

Definition bytes_of_six (v : six) : list Z :=
  let '(a, b, c, d, e, f) := v in
  as_bytes a ++ as_bytes b ++ as_bytes c ++ as_bytes d ++ as_bytes e
  ++ as_bytes f.

(** A register holding sixteen bytes. *)
Definition byte_register (l : list Z) : Prop :=
  length l = 16%nat /\ Forall is_byte l.

(** *** What the inverse vector kernel computes, lane by lane *)

(** The 16-bit lane of channel [ch] (0 = R, 1 = G, 2 = B) for a pixel of
    luma byte [y] whose block has the chroma bytes [u] and [v]. *)
Definition inverse_vector_lane (prm : YUV2RGBVector.t) (ch y u v : Z) : Z :=
  let count := if (0 <=? YUV2RGBVector.PRECISION prm)
                  && (YUV2RGBVector.PRECISION prm <=? 15)
               then YUV2RGBVector.PRECISION prm else 15 in
  let u_16 := to_uint16 (u + to_uint16 (-128)) in
  let v_16 := to_uint16 (v + to_uint16 (-128)) in
  let term :=
    if ch =? 0 then
      to_uint16 (v_16 * to_uint16 (YUV2RGBVector.v_r_factor prm))
    else if ch =? 1 then
      to_uint16 (to_uint16 (u_16 * to_uint16 (YUV2RGBVector.u_g_factor prm))
                 + to_uint16 (v_16 * to_uint16 (YUV2RGBVector.v_g_factor prm)))
    else to_uint16 (u_16 * to_uint16 (YUV2RGBVector.u_b_factor prm)) in
  let y_16 :=
    to_uint16 (to_uint16 (y - to_uint16 (YUV2RGBVector.y_shift prm))
               * to_uint16 (YUV2RGBVector.y_factor prm)) in
  to_uint16 (Z.shiftr (to_int16 (to_uint16 (term + y_16))) count).

(** The lane packed to a byte, for the samples at offsets [yo], [uo] and
    [vo] of the three planes. *)
Definition inverse_vector_byte (prm : YUV2RGBVector.t) (Y U V : plane)
    (yo uo vo ch : Z) : Z :=
  saturate (to_int16 (inverse_vector_lane prm ch (load8 Y yo) (load8 U uo)
                                          (load8 V vo))).

Definition lanes32 : list Z := lanes16 ++ map (Z.add 16) lanes16.

(** The cursor after [n] batches of 32 pixels. *)
Definition inverse_vec_row (prm : YUV2RGBVector.t) (Y U V : plane) (n : nat)
    (c : inv_cursor) (RGB : plane) : inv_cursor * plane :=
  iter_from 32 (fun _ s => YUV2RGB_32 prm Y U V s) n 0 (c, RGB).

(** One row pair of the vectorised inverse conversion, as a function. *)
Definition inverse_vec_pair (prm : YUV2RGBVector.t) (width : Z) (Y U V : plane)
    (Y_stride UV_stride RGB_stride : Z) (y : Z) (RGB : plane) : plane :=
  snd (inverse_vec_row prm Y U V (Z.to_nat (width / 32))
         (inv_row_start Y_stride UV_stride RGB_stride y) RGB).

(** The buffer after the first [n] row pairs. *)
Definition inverse_vec_pairs (prm : YUV2RGBVector.t) (width : Z)
    (Y U V : plane) (Y_stride UV_stride : Z) (RGB : plane) (RGB_stride : Z)
    (n : nat) : plane :=
  iter_from 2 (inverse_vec_pair prm width Y U V Y_stride UV_stride RGB_stride)
            n 0 RGB.

(** What a completed vectorised inverse conversion leaves in the RGB
    buffer. *)
Record inverse_vec_image (prm : YUV2RGBVector.t) (width height : Z)
    (Y U V : plane) (Y_stride UV_stride : Z) (RGB : plane) (RGB_stride : Z)
    (out : plane) : Prop := {
  inverse_vec_image_RGB : forall r c ch,
    0 <= r < 2 * (height / 2) -> 0 <= c < 32 * (width / 32) -> 0 <= ch < 3 ->
    out (r * RGB_stride + 3 * c + ch)
    = inverse_vector_byte prm Y U V (r * Y_stride + c)
                          (r / 2 * UV_stride + c / 2)
                          (r / 2 * UV_stride + c / 2) ch;
  inverse_vec_image_frame : forall o,
    ~ in_region RGB_stride (2 * (height / 2)) (3 * (32 * (width / 32))) o ->
    out o = RGB o
}.

(** The shift count [_mm_srai_epi16] applies for [PRECISION]. *)
Definition inverse_vector_count (prm : YUV2RGBVector.t) : Z :=
  if (0 <=? YUV2RGBVector.PRECISION prm) && (YUV2RGBVector.PRECISION prm <=? 15)
  then YUV2RGBVector.PRECISION prm else 15.

(** The chroma term of channel [ch] and the luma term, added in 16-bit
    wrap-around arithmetic, shifted arithmetically and saturated. *)
Definition inverse_vector_sum (prm : YUV2RGBVector.t) (ch y u v : Z) : Z :=
  let chroma :=
    if ch =? 0 then YUV2RGBVector.v_r_factor prm * (v - 128)
    else if ch =? 1 then
      YUV2RGBVector.u_g_factor prm * (u - 128)
      + YUV2RGBVector.v_g_factor prm * (v - 128)
    else YUV2RGBVector.u_b_factor prm * (u - 128) in
  saturate
    (Z.shiftr
       (to_int16 (chroma
                  + (y - YUV2RGBVector.y_shift prm) * YUV2RGBVector.y_factor prm))
       (inverse_vector_count prm)).

(** ** The aligned variants (yuv_rgb.c:532-567 and 606-640, compiled out)

    [rgb24_yuv420_sse] and [yuv420_rgb24_sse] are the text of the unaligned
    variants with [LOAD_SI128] as [_mm_load_si128] and [SAVE_SI128] as
    [_mm_stream_si128].  Both move the same sixteen bytes as their
    unaligned counterparts and fault (general protection) when their
    address is not a multiple of 16.  The address of a byte is the address
    its pointer argument holds plus its offset, so the addresses of the
    four pointer arguments are inputs of the model. *)
Record addresses : Set := mk_addresses {
  RGB_address : Z;
  Y_address : Z;
  U_address : Z;
  V_address : Z
}.

Definition aligned (address : Z) : bool := address mod 16 =? 0.

(** [for_u32] for a body that may fault: [None] is the fault, which ends
    the run. *)
Fixpoint for_u32_faulting {A : Type} (fuel : nat) (bound step : Z)
    (body : Z -> A -> option (outcome A)) (x : Z) (a : A)
    : option (outcome A) :=
  match fuel with
  | O => Some (OutOfFuel a)
  | S fuel' =>
      if x <? bound then
        match body x a with
        | Some (Done a') =>
            for_u32_faulting fuel' bound step body (to_uint32 (x + step)) a'
        | Some (OutOfFuel a') => Some (OutOfFuel a')
        | None => None
        end
      else Some (Done a)
  end.

(** The addresses [RGB2YUV_32] loads from and stores to, in program order
    (lines 443-530). *)
Definition RGB2YUV_32_accesses (a : addresses) (c : fwd_cursor) : list Z :=
  [RGB_address a + f_rgb_ptr1 c; RGB_address a + (f_rgb_ptr1 c + 16);
   RGB_address a + (f_rgb_ptr1 c + 32);
   RGB_address a + f_rgb_ptr2 c; RGB_address a + (f_rgb_ptr2 c + 16);
   RGB_address a + (f_rgb_ptr2 c + 32);
   Y_address a + f_y_ptr1 c; Y_address a + f_y_ptr2 c;
   RGB_address a + (f_rgb_ptr1 c + 48); RGB_address a + (f_rgb_ptr1 c + 64);
   RGB_address a + (f_rgb_ptr1 c + 80);
   RGB_address a + (f_rgb_ptr2 c + 48); RGB_address a + (f_rgb_ptr2 c + 64);
   RGB_address a + (f_rgb_ptr2 c + 80);
   Y_address a + (f_y_ptr1 c + 16); Y_address a + (f_y_ptr2 c + 16);
   U_address a + f_u_ptr c; V_address a + f_v_ptr c].

(** [RGB2YUV_32] with the aligned load and the streaming store. *)
Definition RGB2YUV_32_aligned (param : vector_param) (a : addresses)
    (RGB : plane) (s : fwd_cursor * yuv_planes)
    : option (outcome (fwd_cursor * yuv_planes)) :=
  if forallb aligned (RGB2YUV_32_accesses a (fst s))
  then Some (Done (RGB2YUV_32 param RGB s))
  else None.

Definition rgb24_yuv420_sse_rows_aligned (param : vector_param)
    (a : addresses) (fuel : nat) (width : Z) (RGB : plane)
    (RGB_stride Y_stride UV_stride : Z) (y : Z) (m : yuv_planes)
    : option (outcome yuv_planes) :=
  let c := fwd_row_start RGB_stride Y_stride UV_stride y in
  match for_u32_faulting fuel (to_uint32 (width - 31)) 32
                         (fun _ s => RGB2YUV_32_aligned param a RGB s)
                         0 (c, m) with
  | Some (Done s) => Some (Done (snd s))
  | Some (OutOfFuel s) => Some (OutOfFuel (snd s))
  | None => None
  end.

(** [rgb24_yuv420_sse] (lines 606-640). *)
Definition rgb24_yuv420_sse (RGB2YUV_vector : YCbCrType -> vector_param)
    (a : addresses) (fuel : nat) (width height : Z) (RGB : plane)
    (RGB_stride : Z) (Y U V : plane) (Y_stride UV_stride : Z)
    (yuv_type : YCbCrType) : option (outcome yuv_planes) :=
  let param := RGB2YUV_vector yuv_type in
  for_u32_faulting fuel (to_uint32 (height - 1)) 2
                   (rgb24_yuv420_sse_rows_aligned param a fuel width RGB
                      RGB_stride Y_stride UV_stride)
                   0 (mk_yuv Y U V).

(** The addresses [YUV2RGB_32] loads from and stores to, in program order
    (lines 309-396). *)
Definition YUV2RGB_32_accesses (a : addresses) (c : inv_cursor) : list Z :=
  [U_address a + i_u_ptr c; V_address a + i_v_ptr c;
   Y_address a + i_y_ptr1 c; Y_address a + i_y_ptr2 c;
   Y_address a + (i_y_ptr1 c + 16); Y_address a + (i_y_ptr2 c + 16);
   RGB_address a + i_rgb_ptr1 c; RGB_address a + (i_rgb_ptr1 c + 16);
   RGB_address a + (i_rgb_ptr1 c + 32); RGB_address a + (i_rgb_ptr1 c + 48);
   RGB_address a + (i_rgb_ptr1 c + 64); RGB_address a + (i_rgb_ptr1 c + 80);
   RGB_address a + i_rgb_ptr2 c; RGB_address a + (i_rgb_ptr2 c + 16);
   RGB_address a + (i_rgb_ptr2 c + 32); RGB_address a + (i_rgb_ptr2 c + 48);
   RGB_address a + (i_rgb_ptr2 c + 64); RGB_address a + (i_rgb_ptr2 c + 80)].

(** [YUV2RGB_32] with the aligned load and the streaming store. *)
Definition YUV2RGB_32_aligned (param : YUV2RGBVector.t) (a : addresses)
    (Y U V : plane) (s : inv_cursor * plane)
    : option (outcome (inv_cursor * plane)) :=
  if forallb aligned (YUV2RGB_32_accesses a (fst s))
  then Some (Done (YUV2RGB_32 param Y U V s))
  else None.

Definition yuv420_rgb24_sse_rows_aligned (param : YUV2RGBVector.t)
    (a : addresses) (fuel : nat) (width : Z) (Y U V : plane)
    (Y_stride UV_stride RGB_stride : Z) (y : Z) (RGB : plane)
    : option (outcome plane) :=
  let c := inv_row_start Y_stride UV_stride RGB_stride y in
  match for_u32_faulting fuel (to_uint32 (width - 31)) 32
                         (fun _ s => YUV2RGB_32_aligned param a Y U V s)
                         0 (c, RGB) with
  | Some (Done s) => Some (Done (snd s))
  | Some (OutOfFuel s) => Some (OutOfFuel (snd s))
  | None => None
  end.

(** [yuv420_rgb24_sse] (lines 532-567). *)
Definition yuv420_rgb24_sse (YUV2RGB_vector : YCbCrType -> YUV2RGBVector.t)
    (a : addresses) (fuel : nat) (width height : Z) (Y U V : plane)
    (Y_stride UV_stride : Z) (RGB : plane) (RGB_stride : Z)
    (yuv_type : YCbCrType) : option (outcome plane) :=
  let param := YUV2RGB_vector yuv_type in
  for_u32_faulting fuel (to_uint32 (height - 1)) 2
                   (yuv420_rgb24_sse_rows_aligned param a fuel width Y U V
                      Y_stride UV_stride RGB_stride)
                   0 RGB.

(** The six pointers of a cursor hold aligned addresses. *)
Definition fwd_cursor_aligned (a : addresses) (c : fwd_cursor) : bool :=
  forallb aligned
    [RGB_address a + f_rgb_ptr1 c; RGB_address a + f_rgb_ptr2 c;
     Y_address a + f_y_ptr1 c; Y_address a + f_y_ptr2 c;
     U_address a + f_u_ptr c; V_address a + f_v_ptr c].

Definition inv_cursor_aligned (a : addresses) (c : inv_cursor) : bool :=
  forallb aligned
    [Y_address a + i_y_ptr1 c; Y_address a + i_y_ptr2 c;
     U_address a + i_u_ptr c; V_address a + i_v_ptr c;
     RGB_address a + i_rgb_ptr1 c; RGB_address a + i_rgb_ptr2 c].

(** Aligned buffers and row pitches: every pointer of every batch is
    aligned. *)
Definition aligned_buffers (a : addresses) (RGB_stride Y_stride UV_stride : Z)
    : Prop :=
  forallb aligned [RGB_address a; Y_address a; U_address a; V_address a;
                   RGB_stride; Y_stride; UV_stride] = true.

(** * Properties *)

(** ** The parameter tables *)

(** The tables, evaluated. *)
Lemma RGB2YUV_values :
  RGB2YUV YCBCR_JPEG = RGB2YUVParam.mk 77 150 29 144 183 128 0 /\
  RGB2YUV YCBCR_601 = RGB2YUVParam.mk 77 150 29 127 160 110 16 /\
  RGB2YUV YCBCR_709 = RGB2YUVParam.mk 54 184 18 121 143 110 16.
Proof. repeat split; vm_compute; reflexivity. Qed.

Lemma YUV2RGB_values :
  YUV2RGB YCBCR_JPEG = YUV2RGBParam.mk 113 90 44 91 128 0 /\
  YUV2RGB YCBCR_601 = YUV2RGBParam.mk 129 102 50 104 149 16 /\
  YUV2RGB YCBCR_709 = YUV2RGBParam.mk 135 115 27 68 149 16.
Proof. repeat split; vm_compute; reflexivity. Qed.

(** ** Sample runs *)

Example forward_white_601 :
  let m := state_of (rgb24_yuv420_std 4 2 2 (const_plane 255) 6
                       (const_plane 0) (const_plane 0) (const_plane 0) 2 1
                       YCBCR_601) in
  map (Y_plane m) [0; 1; 2; 3; 4] = [235; 235; 235; 235; 0] /\
  map (U_plane m) [0; 1] = [128; 0] /\ map (V_plane m) [0; 1] = [128; 0].
Proof. vm_compute. repeat split. Qed.

Example inverse_gray_601 :
  let m := state_of (yuv420_rgb24_std 4 2 2 (const_plane 128) (const_plane 128)
                       (const_plane 128) 2 1 (const_plane 0) 6 YCBCR_601) in
  map m [0; 1; 2; 3; 4; 5; 6; 11; 12] = [130; 130; 130; 130; 130; 130; 130; 130; 0].
Proof. vm_compute. repeat split. Qed.

(** C1: for each of the three standards the forward table entry has
    r_factor + g_factor + b_factor = 256 exactly; r_factor and b_factor are
    the independently rounded weights and g_factor is 256 minus the two, so
    the rounding residual lands in g_factor alone. *)
Theorem C1_forward_weights_sum_to_256 :
  forall yuv_type : YCbCrType,
    let p := RGB2YUV yuv_type in
    let c := Derivation.standard yuv_type in
    RGB2YUVParam.r_factor p + RGB2YUVParam.g_factor p + RGB2YUVParam.b_factor p
      = 256 /\
    RGB2YUVParam.r_factor p
      = Derivation.round_half_up (Derivation.Rf c * 256)%Q /\
    RGB2YUVParam.b_factor p
      = Derivation.round_half_up (Derivation.Bf c * 256)%Q /\
    RGB2YUVParam.g_factor p
      = 256 - RGB2YUVParam.r_factor p - RGB2YUVParam.b_factor p.
Proof. intros []; vm_compute; repeat split; reflexivity. Qed.

(** C9: for each of the three standards both precomputed tables (the
    macros folded over binary64 doubles, fields converted to uint8_t) equal
    the derivation of section 4.1 carried out over exact rationals with
    round-half-up rounding, field by field. *)
Theorem C9_tables_equal_derivation :
  forall yuv_type : YCbCrType,
    RGB2YUV yuv_type = Derivation.forward (Derivation.standard yuv_type) /\
    YUV2RGB yuv_type = Derivation.inverse (Derivation.standard yuv_type).
Proof. intros []; split; vm_compute; reflexivity. Qed.

(** ** Integer conversions *)

Lemma to_uint8_range (x : Z) : 0 <= to_uint8 x <= 255.
Proof. unfold to_uint8. pose proof (Z.mod_pos_bound x (2 ^ 8)). lia. Qed.

Lemma to_uint8_small (x : Z) : 0 <= x <= 255 -> to_uint8 x = x.
Proof. intros H. unfold to_uint8. apply Z.mod_small. lia. Qed.

Lemma to_uint16_small (x : Z) : 0 <= x < 65536 -> to_uint16 x = x.
Proof. intros H. unfold to_uint16. apply Z.mod_small. lia. Qed.

Lemma to_uint32_small (x : Z) : 0 <= x < 2 ^ 32 -> to_uint32 x = x.
Proof. intros H. unfold to_uint32. apply Z.mod_small. lia. Qed.

Lemma to_int8_small (x : Z) : -128 <= x <= 127 -> to_int8 x = x.
Proof. intros H. unfold to_int8. rewrite Z.mod_small; lia. Qed.

Lemma to_int16_small (x : Z) : -32768 <= x <= 32767 -> to_int16 x = x.
Proof. intros H. unfold to_int16. rewrite Z.mod_small; lia. Qed.

Lemma load8_range (p : plane) (i : Z) : 0 <= load8 p i <= 255.
Proof. apply to_uint8_range. Qed.

Lemma shiftr_div (x n : Z) : 0 <= n -> Z.shiftr x n = x / 2 ^ n.
Proof. intros H. apply Z.shiftr_div_pow2, H. Qed.

Ltac div_lia := Z.div_mod_to_equations; lia.

Lemma clamp_saturate (v : Z) : -32768 <= v <= 32767 -> clamp v = saturate v.
Proof.
  intros H. unfold clamp, saturate. rewrite (to_int16_small v H).
  destruct (Z.ltb_spec v 0); [|destruct (Z.gtb_spec v 255)];
    rewrite to_uint8_small; lia.
Qed.

Lemma clamp_range (v : Z) : 0 <= clamp v <= 255.
Proof. apply to_uint8_range. Qed.

(** ** Forward arithmetic, one pixel *)

Ltac forward_table yuv_type :=
  destruct yuv_type;
  [ rewrite (proj1 RGB2YUV_values)
  | rewrite (proj1 (proj2 RGB2YUV_values))
  | rewrite (proj2 (proj2 RGB2YUV_values)) ];
  cbn [RGB2YUVParam.r_factor RGB2YUVParam.g_factor RGB2YUVParam.b_factor
       RGB2YUVParam.cb_factor RGB2YUVParam.cr_factor RGB2YUVParam.y_factor
       RGB2YUVParam.y_offset].

Lemma fwd_pixel_bounds (yuv_type : YCbCrType) (R G B : Z) :
  is_byte R -> is_byte G -> is_byte B ->
  let p := RGB2YUV yuv_type in
  let luma := Z.shiftr (RGB2YUVParam.r_factor p * R + RGB2YUVParam.g_factor p * G
                        + RGB2YUVParam.b_factor p * B) 8 in
  is_byte luma /\ fwd_y_tmp p R G B = luma /\
  is_byte (fwd_y_out p luma) /\
  is_byte (fwd_u_term p B luma) /\
  is_byte (fwd_v_term p R luma).
Proof.
  intros HR HG HB p luma. subst p luma. unfold is_byte in *.
  unfold fwd_y_tmp, fwd_y_out, fwd_u_term, fwd_v_term.
  forward_table yuv_type; rewrite !shiftr_div by lia;
    change (2 ^ 8) with 256; change (2 ^ 7) with 128;
    (split; [div_lia|]); (split; [apply to_uint8_small; div_lia|]);
    repeat split; div_lia.
Qed.

(** ** Loops *)

Section Loops.
Context {A : Type}.
Variables (bound step : Z) (body : Z -> A -> outcome A) (f : Z -> A -> A).
Hypothesis body_done : forall x a, body x a = Done (f x a).

(** A loop whose counter reaches the bound after [n] rounds, without
    wrapping, completes on any larger fuel and leaves [n] runs of the body. *)
Lemma for_u32_done (n : nat) :
  forall (fuel : nat) (x : Z) (a : A),
    0 < step -> 0 <= x ->
    x + step * (Z.of_nat n - 1) < bound ->
    bound <= x + step * Z.of_nat n < 2 ^ 32 ->
    (n < fuel)%nat ->
    for_u32 fuel bound step body x a = Done (iter_from step f n x a).
Proof.
  induction n as [|n IH]; intros fuel x a Hs Hx Hlt Hge Hf;
    (destruct fuel as [|fuel]; [lia|]); cbn [for_u32 iter_from].
  - destruct (Z.ltb_spec x bound); [lia | reflexivity].
  - destruct (Z.ltb_spec x bound); [|nia].
    rewrite body_done, to_uint32_small by nia.
    apply IH; lia.
Qed.

(** A loop whose guard holds at each of its first [n] (wrapping) counter
    values has not completed when a fuel of [n] is spent. *)
Lemma for_u32_out_of_fuel (n : nat) :
  forall (x : Z) (a : A),
    (forall k, (k < n)%nat -> counter_u32 step k x < bound) ->
    for_u32 n bound step body x a = OutOfFuel (iter_u32 step f n x a).
Proof.
  induction n as [|n IH]; intros x a Hg; cbn [for_u32 iter_u32]; [reflexivity|].
  pose proof (Hg O ltac:(lia)) as H0. cbn in H0.
  destruct (Z.ltb_spec x bound); [|lia].
  rewrite body_done. apply IH. intros k Hk.
  specialize (Hg (S k) ltac:(lia)). unfold counter_u32 in *.
  rewrite Nat.iter_succ_r in Hg. exact Hg.
Qed.

(** Peeling the last round. *)
Lemma iter_from_succ_r (n : nat) :
  forall (x : Z) (a : A),
    iter_from step f (S n) x a
    = f (x + step * Z.of_nat n) (iter_from step f n x a).
Proof.
  induction n as [|n IH]; intros x a.
  - cbn. f_equal. lia.
  - cbn [iter_from] in *. rewrite IH. f_equal. lia.
Qed.

End Loops.

(** ** Forward conversion: one row pair *)

Ltac zbool :=
  repeat match goal with
         | |- context [Z.eqb ?a ?b] => destruct (Z.eqb_spec a b)
         | |- context [Z.leb ?a ?b] => destruct (Z.leb_spec a b)
         | |- context [Z.ltb ?a ?b] => destruct (Z.ltb_spec a b)
         end; cbn [andb orb negb].

Section ForwardRow.
Variable param : RGB2YUVParam.t.
Variable RGB : plane.

Lemma rgb24_yuv420_block_cursor (c : fwd_cursor) (m : yuv_planes) :
  fst (rgb24_yuv420_block param RGB (c, m)) = fwd_advance c 1.
Proof.
  unfold rgb24_yuv420_block, fwd_advance. cbn [fst]. f_equal; lia.
Qed.

Lemma rgb24_yuv420_block_Y (c : fwd_cursor) (m : yuv_planes) (o : Z) :
  Y_plane (snd (rgb24_yuv420_block param RGB (c, m))) o
  = if o =? f_y_ptr2 c + 1 then fwd_luma_at param RGB (f_rgb_ptr2 c + 3)
    else if o =? f_y_ptr2 c then fwd_luma_at param RGB (f_rgb_ptr2 c)
    else if o =? f_y_ptr1 c + 1 then fwd_luma_at param RGB (f_rgb_ptr1 c + 3)
    else if o =? f_y_ptr1 c then fwd_luma_at param RGB (f_rgb_ptr1 c)
    else Y_plane m o.
Proof.
  unfold rgb24_yuv420_block, fwd_luma_at, fwd_y_tmp_at, store8.
  cbn [snd Y_plane].
  replace (f_rgb_ptr1 c + 3 + 1) with (f_rgb_ptr1 c + 4) by lia.
  replace (f_rgb_ptr1 c + 3 + 2) with (f_rgb_ptr1 c + 5) by lia.
  replace (f_rgb_ptr2 c + 3 + 1) with (f_rgb_ptr2 c + 4) by lia.
  replace (f_rgb_ptr2 c + 3 + 2) with (f_rgb_ptr2 c + 5) by lia.
  reflexivity.
Qed.

Lemma rgb24_yuv420_block_U (c : fwd_cursor) (m : yuv_planes) (o : Z) :
  U_plane (snd (rgb24_yuv420_block param RGB (c, m))) o
  = if o =? f_u_ptr c
    then fwd_block_u param RGB (f_rgb_ptr1 c) (f_rgb_ptr2 c)
    else U_plane m o.
Proof.
  unfold rgb24_yuv420_block, fwd_block_u, fwd_accumulate, fwd_u_at,
    fwd_y_tmp_at, store8.
  cbn [snd U_plane].
  replace (f_rgb_ptr1 c + 3 + 1) with (f_rgb_ptr1 c + 4) by lia.
  replace (f_rgb_ptr1 c + 3 + 2) with (f_rgb_ptr1 c + 5) by lia.
  replace (f_rgb_ptr2 c + 3 + 1) with (f_rgb_ptr2 c + 4) by lia.
  replace (f_rgb_ptr2 c + 3 + 2) with (f_rgb_ptr2 c + 5) by lia.
  reflexivity.
Qed.

Lemma rgb24_yuv420_block_V (c : fwd_cursor) (m : yuv_planes) (o : Z) :
  V_plane (snd (rgb24_yuv420_block param RGB (c, m))) o
  = if o =? f_v_ptr c
    then fwd_block_v param RGB (f_rgb_ptr1 c) (f_rgb_ptr2 c)
    else V_plane m o.
Proof.
  unfold rgb24_yuv420_block, fwd_block_v, fwd_accumulate, fwd_v_at,
    fwd_y_tmp_at, store8.
  cbn [snd V_plane].
  replace (f_rgb_ptr1 c + 3 + 1) with (f_rgb_ptr1 c + 4) by lia.
  replace (f_rgb_ptr1 c + 3 + 2) with (f_rgb_ptr1 c + 5) by lia.
  replace (f_rgb_ptr2 c + 3 + 1) with (f_rgb_ptr2 c + 4) by lia.
  replace (f_rgb_ptr2 c + 3 + 2) with (f_rgb_ptr2 c + 5) by lia.
  reflexivity.
Qed.

Lemma fwd_row_cursor (n : nat) (c : fwd_cursor) (m : yuv_planes) :
  fst (fwd_row param RGB n c m) = fwd_advance c (Z.of_nat n).
Proof.
  unfold fwd_row. induction n as [|n IH].
  - cbn [iter_from fst]. unfold fwd_advance. destruct c.
    cbn [f_rgb_ptr1 f_rgb_ptr2 f_y_ptr1 f_y_ptr2 f_u_ptr f_v_ptr]. f_equal; lia.
  - rewrite iter_from_succ_r.
    destruct (iter_from _ _ n 0 (c, m)) as [c' m'] eqn:E. cbn [fst] in IH.
    rewrite rgb24_yuv420_block_cursor. subst c'.
    unfold fwd_advance.
    cbn [f_rgb_ptr1 f_rgb_ptr2 f_y_ptr1 f_y_ptr2 f_u_ptr f_v_ptr]. f_equal; lia.
Qed.

Lemma fwd_row_Y (n : nat) (c : fwd_cursor) (m : yuv_planes) (o : Z) :
  f_y_ptr1 c + 2 * Z.of_nat n <= f_y_ptr2 c
  \/ f_y_ptr2 c + 2 * Z.of_nat n <= f_y_ptr1 c ->
  Y_plane (snd (fwd_row param RGB n c m)) o
  = if in_range (f_y_ptr1 c) (f_y_ptr1 c + 2 * Z.of_nat n) o
    then fwd_luma_at param RGB (f_rgb_ptr1 c + 3 * (o - f_y_ptr1 c))
    else if in_range (f_y_ptr2 c) (f_y_ptr2 c + 2 * Z.of_nat n) o
    then fwd_luma_at param RGB (f_rgb_ptr2 c + 3 * (o - f_y_ptr2 c))
    else Y_plane m o.
Proof.
  induction n as [|n IH]; intros Hd.
  - cbn. unfold in_range. zbool; try lia; reflexivity.
  - pose proof (fwd_row_cursor n c m) as Hc. unfold fwd_row in *.
    rewrite iter_from_succ_r.
    destruct (iter_from _ _ n 0 (c, m)) as [c' m'] eqn:E.
    cbn [fst snd] in *. subst c'.
    rewrite rgb24_yuv420_block_Y, IH by lia.
    unfold fwd_advance, in_range. cbn [f_y_ptr1 f_y_ptr2 f_rgb_ptr1 f_rgb_ptr2].
    zbool; try lia; try reflexivity; f_equal; lia.
Qed.

Lemma fwd_row_U (n : nat) (c : fwd_cursor) (m : yuv_planes) (o : Z) :
  U_plane (snd (fwd_row param RGB n c m)) o
  = if in_range (f_u_ptr c) (f_u_ptr c + Z.of_nat n) o
    then fwd_block_u param RGB (f_rgb_ptr1 c + 6 * (o - f_u_ptr c))
                               (f_rgb_ptr2 c + 6 * (o - f_u_ptr c))
    else U_plane m o.
Proof.
  induction n as [|n IH].
  - cbn. unfold in_range. zbool; try lia; reflexivity.
  - pose proof (fwd_row_cursor n c m) as Hc. unfold fwd_row in *.
    rewrite iter_from_succ_r.
    destruct (iter_from _ _ n 0 (c, m)) as [c' m'] eqn:E.
    cbn [fst snd] in *. subst c'.
    rewrite rgb24_yuv420_block_U, IH.
    unfold fwd_advance, in_range. cbn [f_u_ptr f_rgb_ptr1 f_rgb_ptr2].
    zbool; try lia; try reflexivity; f_equal; lia.
Qed.

Lemma fwd_row_V (n : nat) (c : fwd_cursor) (m : yuv_planes) (o : Z) :
  V_plane (snd (fwd_row param RGB n c m)) o
  = if in_range (f_v_ptr c) (f_v_ptr c + Z.of_nat n) o
    then fwd_block_v param RGB (f_rgb_ptr1 c + 6 * (o - f_v_ptr c))
                               (f_rgb_ptr2 c + 6 * (o - f_v_ptr c))
    else V_plane m o.
Proof.
  induction n as [|n IH].
  - cbn. unfold in_range. zbool; try lia; reflexivity.
  - pose proof (fwd_row_cursor n c m) as Hc. unfold fwd_row in *.
    rewrite iter_from_succ_r.
    destruct (iter_from _ _ n 0 (c, m)) as [c' m'] eqn:E.
    cbn [fst snd] in *. subst c'.
    rewrite rgb24_yuv420_block_V, IH.
    unfold fwd_advance, in_range. cbn [f_v_ptr f_rgb_ptr1 f_rgb_ptr2].
    zbool; try lia; try reflexivity; f_equal; lia.
Qed.

End ForwardRow.

(** ** Forward conversion: the whole image *)

Lemma in_region_intro (stride rows cols r c : Z) :
  0 <= r < rows -> 0 <= c < cols -> in_region stride rows cols (r * stride + c).
Proof. intros Hr Hc. exists r, c. auto. Qed.

(** Cells of distinct rows are distinct when the rows fit in the pitch. *)
Lemma row_cell_lt (stride cols r r' c : Z) :
  0 <= cols <= stride -> 0 <= c < cols -> r < r' ->
  r * stride + c < r' * stride.
Proof. intros Hs Hc Hr. nia. Qed.

(** On a width of at least one pixel the inner loop completes. *)
Lemma rgb24_yuv420_rows_complete (param : RGB2YUVParam.t) (fuel : nat)
    (width : Z) (RGB : plane) (RGB_stride Y_stride UV_stride y : Z)
    (m : yuv_planes) :
  1 <= width < 2 ^ 32 -> width < Z.of_nat fuel ->
  rgb24_yuv420_rows param fuel width RGB RGB_stride Y_stride UV_stride y m
  = Done (fwd_pair param width RGB RGB_stride Y_stride UV_stride y m).
Proof.
  intros Hw Hf. unfold rgb24_yuv420_rows, fwd_pair, fwd_row.
  rewrite (for_u32_done (to_uint32 (width - 1)) 2 _
             (fun _ s => rgb24_yuv420_block param RGB s)
             (fun _ _ => eq_refl) (Z.to_nat (width / 2)));
    rewrite ?to_uint32_small by lia; try reflexivity; try lia.
  - rewrite Z2Nat.id by (Z.div_mod_to_equations; lia). Z.div_mod_to_equations; lia.
  - rewrite Z2Nat.id by (Z.div_mod_to_equations; lia). Z.div_mod_to_equations; lia.
  - assert (width / 2 <= width) by (Z.div_mod_to_equations; lia). lia.
Qed.

Section ForwardImage.
Variable param : RGB2YUVParam.t.
Variables (width height : Z) (RGB : plane) (RGB_stride : Z) (Y U V : plane).
Variables (Y_stride UV_stride : Z).
Hypothesis G : geometry width height RGB_stride Y_stride UV_stride.

Lemma strides_nonneg : 0 <= RGB_stride /\ 0 <= Y_stride /\ 0 <= UV_stride.
Proof.
  destruct G. repeat split; try lia.
  assert (0 <= (width + 1) / 2) by (Z.div_mod_to_equations; lia). lia.
Qed.

Lemma rgb24_yuv420_rows_done (fuel : nat) (y : Z) (m : yuv_planes) :
  width < Z.of_nat fuel ->
  rgb24_yuv420_rows param fuel width RGB RGB_stride Y_stride UV_stride y m
  = Done (fwd_pair param width RGB RGB_stride Y_stride UV_stride y m).
Proof. intros Hf. apply rgb24_yuv420_rows_complete; [apply G | exact Hf]. Qed.

Lemma fwd_row_start_even (k : Z) :
  0 <= k -> 2 * k + 1 < height ->
  fwd_row_start RGB_stride Y_stride UV_stride (2 * k)
  = mk_fwd_cursor (2 * k * RGB_stride) ((2 * k + 1) * RGB_stride)
                  (2 * k * Y_stride) ((2 * k + 1) * Y_stride)
                  (k * UV_stride) (k * UV_stride).
Proof.
  intros Hk Hh. destruct G. destruct strides_nonneg as (HR & HY & HUV).
  unfold fwd_row_start.
  replace (2 * k / 2) with k by (Z.div_mod_to_equations; lia).
  assert ((2 * k + 1) * RGB_stride <= height * RGB_stride)
    by (apply Z.mul_le_mono_nonneg_r; lia).
  assert ((2 * k + 1) * Y_stride <= height * Y_stride)
    by (apply Z.mul_le_mono_nonneg_r; lia).
  assert (k * UV_stride <= (height + 1) / 2 * UV_stride)
    by (apply Z.mul_le_mono_nonneg_r; Z.div_mod_to_equations; lia).
  rewrite (to_uint32_small (2 * k + 1)) by lia.
  rewrite !to_uint32_small by nia.
  reflexivity.
Qed.

Lemma fwd_pairs_post (n : nat) :
  Z.of_nat n <= height / 2 ->
  fwd_post param width (2 * Z.of_nat n) RGB RGB_stride Y U V Y_stride UV_stride
           (fwd_pairs param width RGB RGB_stride Y U V Y_stride UV_stride n).
Proof.
  pose proof G as [Gw Gh Grs Gys Guvs Grz Gyz Guvz].
  assert (Hw2 : 0 <= width / 2 /\ 2 * (width / 2) <= width)
    by (Z.div_mod_to_equations; lia).
  assert (Hh2 : 2 * (height / 2) <= height) by (Z.div_mod_to_equations; lia).
  pose proof strides_nonneg as (HR & HY & HUV).
  assert (HwUV : width / 2 <= UV_stride) by (Z.div_mod_to_equations; lia).
  induction n as [|n IH]; intros Hn.
  - unfold fwd_pairs. cbn [iter_from]. change (Z.of_nat 0) with 0.
    split; cbn [Y_plane U_plane V_plane]; intros;
      try reflexivity; exfalso; Z.div_mod_to_equations; lia.
  - specialize (IH ltac:(lia)). destruct IH as [IY IU IV FY FU FV].
    replace (2 * Z.of_nat n / 2) with (Z.of_nat n) in *
      by (Z.div_mod_to_equations; lia).
    unfold fwd_pairs in *. rewrite iter_from_succ_r.
    set (m := iter_from 2 _ n 0 _) in *.
    replace (0 + 2 * Z.of_nat n) with (2 * Z.of_nat n) by lia.
    unfold fwd_pair. rewrite fwd_row_start_even by lia.
    set (k := Z.of_nat n) in *.
    assert (Hdiv : 2 * Z.of_nat (S n) / 2 = k + 1)
      by (subst k; Z.div_mod_to_equations; lia).
    split; rewrite Hdiv.
    + (* Y, written cells *)
      intros r c Hr Hc.
      rewrite fwd_row_Y
        by (cbn [f_y_ptr1 f_y_ptr2]; rewrite Z2Nat.id by lia; lia).
      cbn [f_y_ptr1 f_y_ptr2 f_rgb_ptr1 f_rgb_ptr2]. rewrite Z2Nat.id by lia.
      unfold in_range.
      assert (r < 2 * k \/ r = 2 * k \/ r = 2 * k + 1) as [Hlt | [-> | ->]] by lia.
      * pose proof (row_cell_lt Y_stride (2 * (width / 2)) r (2 * k) c
                      ltac:(lia) ltac:(lia) Hlt).
        zbool; try lia. apply IY; lia.
      * zbool; try lia. f_equal. lia.
      * zbool; try lia. f_equal. lia.
    + (* U, written cells *)
      intros i j Hi Hj. rewrite fwd_row_U.
      cbn [f_u_ptr f_rgb_ptr1 f_rgb_ptr2]. rewrite Z2Nat.id by lia.
      unfold in_range.
      assert (i < k \/ i = k) as [Hlt | ->] by lia.
      * pose proof (row_cell_lt UV_stride (width / 2) i k j
                      ltac:(lia) ltac:(lia) Hlt).
        zbool; try lia. apply IU; lia.
      * zbool; try lia. f_equal; lia.
    + (* V, written cells *)
      intros i j Hi Hj. rewrite fwd_row_V.
      cbn [f_v_ptr f_rgb_ptr1 f_rgb_ptr2]. rewrite Z2Nat.id by lia.
      unfold in_range.
      assert (i < k \/ i = k) as [Hlt | ->] by lia.
      * pose proof (row_cell_lt UV_stride (width / 2) i k j
                      ltac:(lia) ltac:(lia) Hlt).
        zbool; try lia. apply IV; lia.
      * zbool; try lia. f_equal; lia.
    + (* Y, frame *)
      intros o Ho.
      rewrite fwd_row_Y
        by (cbn [f_y_ptr1 f_y_ptr2]; rewrite Z2Nat.id by lia; lia).
      cbn [f_y_ptr1 f_y_ptr2 f_rgb_ptr1 f_rgb_ptr2]. rewrite Z2Nat.id by lia.
      unfold in_range.
      zbool;
        try (exfalso; apply Ho;
             first [ exists (2 * k), (o - 2 * k * Y_stride); lia
                   | exists (2 * k + 1), (o - (2 * k + 1) * Y_stride); lia ]).
      all: apply FY; intros (r & c & Hr & Hc & ->); apply Ho; exists r, c; lia.
    + (* U, frame *)
      intros o Ho. rewrite fwd_row_U.
      cbn [f_u_ptr f_rgb_ptr1 f_rgb_ptr2]. rewrite Z2Nat.id by lia.
      unfold in_range.
      zbool; try (exfalso; apply Ho; exists k, (o - k * UV_stride); lia).
      all: apply FU; intros (i & j & Hi & Hj & ->); apply Ho; exists i, j; lia.
    + (* V, frame *)
      intros o Ho. rewrite fwd_row_V.
      cbn [f_v_ptr f_rgb_ptr1 f_rgb_ptr2]. rewrite Z2Nat.id by lia.
      unfold in_range.
      zbool; try (exfalso; apply Ho; exists k, (o - k * UV_stride); lia).
      all: apply FV; intros (i & j & Hi & Hj & ->); apply Ho; exists i, j; lia.
Qed.

(** With enough fuel the conversion completes, and leaves [fwd_post]. *)
Lemma rgb24_yuv420_std_post (fuel : nat) :
  width < Z.of_nat fuel -> height < Z.of_nat fuel ->
  exists m,
    for_u32 fuel (to_uint32 (height - 1)) 2
      (rgb24_yuv420_rows param fuel width RGB RGB_stride Y_stride UV_stride)
      0 (mk_yuv Y U V) = Done m /\
    fwd_post param width height RGB RGB_stride Y U V Y_stride UV_stride m.
Proof.
  intros Hfw Hfh. pose proof G as [Gw Gh Grs Gys Guvs Grz Gyz Guvz].
  assert (Hh2 : 0 <= height / 2 /\ 2 * (height / 2) <= height)
    by (Z.div_mod_to_equations; lia).
  exists (fwd_pairs param width RGB RGB_stride Y U V Y_stride UV_stride
            (Z.to_nat (height / 2))). split.
  - unfold fwd_pairs.
    apply for_u32_done;
      rewrite ?to_uint32_small, ?Z2Nat.id by lia;
      try (intros; apply rgb24_yuv420_rows_done); try lia;
      try (Z.div_mod_to_equations; lia).
  - pose proof (fwd_pairs_post (Z.to_nat (height / 2))) as P.
    rewrite Z2Nat.id in P by lia. specialize (P ltac:(lia)).
    destruct P as [IY IU IV FY FU FV].
    replace (2 * (height / 2) / 2) with (height / 2) in *
      by (Z.div_mod_to_equations; lia).
    split; assumption.
Qed.

End ForwardImage.

(** ** Forward conversion: the values stored *)

(** On the three tables no conversion of the forward block changes a
    value: the code's bytes are the integer formulas. *)
Lemma fwd_values_exact (yuv_type : YCbCrType) (RGB : plane) (i : Z) :
  let p := RGB2YUV yuv_type in
  let R := load8 RGB i in
  let G := load8 RGB (i + 1) in
  let B := load8 RGB (i + 2) in
  fwd_luma_at p RGB i = digital_luma p R G B /\
  fwd_u_at p RGB i = chroma_u p R G B /\
  fwd_v_at p RGB i = chroma_v p R G B /\
  is_byte (digital_luma p R G B) /\
  is_byte (chroma_u p R G B) /\
  is_byte (chroma_v p R G B).
Proof.
  intros p R G B.
  destruct (fwd_pixel_bounds yuv_type R G B (load8_range _ _) (load8_range _ _)
              (load8_range _ _)) as (Hl & Ht & Hy & Hu & Hv).
  fold p in Ht, Hy, Hu, Hv.
  unfold fwd_luma_at, fwd_u_at, fwd_v_at, fwd_y_tmp_at, digital_luma, chroma_u,
    chroma_v, pseudo_luma.
  fold R G B. rewrite Ht.
  unfold fwd_y_out, fwd_u_term, fwd_v_term, is_byte in *.
  repeat split; try lia. apply to_uint8_small. lia.
Qed.

Lemma fwd_accumulate_exact (t1 t2 t3 t4 : Z) :
  is_byte t1 -> is_byte t2 -> is_byte t3 -> is_byte t4 ->
  fwd_accumulate t1 t2 t3 t4 = Z.shiftr (t1 + t2 + t3 + t4) 2 /\
  is_byte (Z.shiftr (t1 + t2 + t3 + t4) 2).
Proof.
  unfold is_byte, fwd_accumulate. intros H1 H2 H3 H4.
  rewrite (to_uint16_small t1) by lia.
  rewrite (to_uint16_small (t1 + t2)) by lia.
  rewrite (to_uint16_small (t1 + t2 + t3)) by lia.
  rewrite (to_uint16_small (t1 + t2 + t3 + t4)) by lia.
  rewrite shiftr_div by lia. change (2 ^ 2) with 4.
  split; [apply to_uint8_small|]; Z.div_mod_to_equations; lia.
Qed.

Lemma fwd_block_exact (yuv_type : YCbCrType) (RGB : plane) (RGB_stride i j : Z) :
  let p := RGB2YUV yuv_type in
  fwd_block_u p RGB (2 * i * RGB_stride + 6 * j)
                    ((2 * i + 1) * RGB_stride + 6 * j)
  = Z.shiftr (block_sum (chroma_u p) RGB RGB_stride i j) 2 /\
  fwd_block_v p RGB (2 * i * RGB_stride + 6 * j)
                    ((2 * i + 1) * RGB_stride + 6 * j)
  = Z.shiftr (block_sum (chroma_v p) RGB RGB_stride i j) 2.
Proof.
  intros p. unfold fwd_block_u, fwd_block_v, block_sum, at_pixel, red, green, blue.
  set (a := 2 * i * RGB_stride + 6 * j).
  set (b := (2 * i + 1) * RGB_stride + 6 * j).
  replace (2 * i * RGB_stride + 3 * (2 * j)) with a by (subst a; lia).
  replace (2 * i * RGB_stride + 3 * (2 * j + 1)) with (a + 3) by (subst a; lia).
  replace ((2 * i + 1) * RGB_stride + 3 * (2 * j)) with b by (subst b; lia).
  replace ((2 * i + 1) * RGB_stride + 3 * (2 * j + 1)) with (b + 3)
    by (subst b; lia).
  destruct (fwd_values_exact yuv_type RGB a) as (_ & Hu1 & Hv1 & _ & Bu1 & Bv1).
  destruct (fwd_values_exact yuv_type RGB (a + 3)) as (_ & Hu2 & Hv2 & _ & Bu2 & Bv2).
  destruct (fwd_values_exact yuv_type RGB b) as (_ & Hu3 & Hv3 & _ & Bu3 & Bv3).
  destruct (fwd_values_exact yuv_type RGB (b + 3)) as (_ & Hu4 & Hv4 & _ & Bu4 & Bv4).
  fold p in Hu1, Hu2, Hu3, Hu4, Hv1, Hv2, Hv3, Hv4.
  rewrite Hu1, Hu2, Hu3, Hu4, Hv1, Hv2, Hv3, Hv4.
  split; apply fwd_accumulate_exact; assumption.
Qed.

(** C5: the forward path has no clamp, and needs none: for each of the
    three tables and all 8-bit R, G, B, the pseudo-luma Y', the rescaled
    luma Y and the two per-pixel chroma terms lie in [0,255], the byte the
    code keeps for Y' and the byte it stores for Y are these values
    unchanged, and for any four such pixels the uint16 accumulation of the
    chroma terms never wraps and its quarter, the stored U or V, is in
    [0,255]. *)
Theorem C5_forward_values_fit_a_byte :
  forall (yuv_type : YCbCrType) (px1 px2 px3 px4 : Z * Z * Z),
    byte_pixel px1 -> byte_pixel px2 -> byte_pixel px3 -> byte_pixel px4 ->
    let p := RGB2YUV yuv_type in
    (forall px, In px [px1; px2; px3; px4] ->
       is_byte (on_pixel (pseudo_luma p) px) /\
       on_pixel (fwd_y_tmp p) px = on_pixel (pseudo_luma p) px /\
       is_byte (on_pixel (digital_luma p) px) /\
       to_uint8 (fwd_y_out p (on_pixel (fwd_y_tmp p) px))
         = on_pixel (digital_luma p) px /\
       is_byte (on_pixel (chroma_u p) px) /\
       is_byte (on_pixel (chroma_v p) px)) /\
    (let u := on_pixel (chroma_u p) in
     fwd_accumulate (u px1) (u px2) (u px3) (u px4)
       = Z.shiftr (u px1 + u px2 + u px3 + u px4) 2 /\
     is_byte (Z.shiftr (u px1 + u px2 + u px3 + u px4) 2)) /\
    (let v := on_pixel (chroma_v p) in
     fwd_accumulate (v px1) (v px2) (v px3) (v px4)
       = Z.shiftr (v px1 + v px2 + v px3 + v px4) 2 /\
     is_byte (Z.shiftr (v px1 + v px2 + v px3 + v px4) 2)).
Proof.
  intros yuv_type px1 px2 px3 px4 H1 H2 H3 H4 p.
  assert (Hpx : forall px, byte_pixel px ->
            is_byte (on_pixel (pseudo_luma p) px) /\
            on_pixel (fwd_y_tmp p) px = on_pixel (pseudo_luma p) px /\
            is_byte (on_pixel (digital_luma p) px) /\
            to_uint8 (fwd_y_out p (on_pixel (fwd_y_tmp p) px))
              = on_pixel (digital_luma p) px /\
            is_byte (on_pixel (chroma_u p) px) /\
            is_byte (on_pixel (chroma_v p) px)).
  { intros [[R G] B] (HR & HG & HB). cbn [on_pixel].
    destruct (fwd_pixel_bounds yuv_type R G B HR HG HB) as (Hl & Ht & Hy & Hu & Hv).
    fold p in Hl, Ht, Hy, Hu, Hv.
    unfold digital_luma, chroma_u, chroma_v, pseudo_luma. rewrite Ht.
    unfold fwd_y_out, fwd_u_term, fwd_v_term, is_byte in *.
    repeat split; try lia. apply to_uint8_small. lia. }
  split; [|split].
  - intros px [<- | [<- | [<- | [<- | []]]]]; apply Hpx; assumption.
  - cbv zeta. apply fwd_accumulate_exact; apply Hpx; assumption.
  - cbv zeta. apply fwd_accumulate_exact; apply Hpx; assumption.
Qed.

Lemma C5_forward_values_fit_a_byte_witness :
  let p := RGB2YUV YCBCR_709 in
  let u := on_pixel (chroma_u p) in
  fwd_accumulate (u (255, 0, 0)) (u (0, 255, 0)) (u (0, 0, 255)) (u (255, 255, 255))
  = Z.shiftr (u (255, 0, 0) + u (0, 255, 0) + u (0, 0, 255) + u (255, 255, 255)) 2.
Proof.
  refine (proj1 (proj1 (proj2
    (C5_forward_values_fit_a_byte YCBCR_709 (255, 0, 0) (0, 255, 0) (0, 0, 255)
       (255, 255, 255) _ _ _ _)))); vm_compute; intuition discriminate.
Defined.

(** C3: in a completed forward conversion the U (resp. V) byte of every
    2x2 block is the sum of the four per-pixel chroma values
    ((B-Y')*cb_factor>>8)+128 (resp. ((R-Y')*cr_factor>>8)+128) of the
    block, shifted right by 2: a truncating division by 4 in which the
    four pixels weigh the same. *)
Theorem C3_chroma_is_truncated_box_average :
  forall (yuv_type : YCbCrType) (width height : Z) (RGB : plane)
         (RGB_stride : Z) (Y U V : plane) (Y_stride UV_stride : Z) (fuel : nat),
    geometry width height RGB_stride Y_stride UV_stride ->
    width < Z.of_nat fuel -> height < Z.of_nat fuel ->
    let p := RGB2YUV yuv_type in
    exists m,
      rgb24_yuv420_std fuel width height RGB RGB_stride Y U V Y_stride UV_stride
                       yuv_type = Done m /\
      forall i j, 0 <= i < height / 2 -> 0 <= j < width / 2 ->
        U_plane m (i * UV_stride + j)
          = Z.shiftr (block_sum (chroma_u p) RGB RGB_stride i j) 2 /\
        V_plane m (i * UV_stride + j)
          = Z.shiftr (block_sum (chroma_v p) RGB RGB_stride i j) 2.
Proof.
  intros yuv_type width height RGB RGB_stride Y U V Y_stride UV_stride fuel
    G Hw Hh p.
  destruct (rgb24_yuv420_std_post p width height RGB RGB_stride Y U V
              Y_stride UV_stride G fuel Hw Hh) as (m & Hm & P).
  exists m. split; [exact Hm|]. intros i j Hi Hj.
  rewrite (fwd_post_U _ _ _ _ _ _ _ _ _ _ _ P i j Hi Hj).
  rewrite (fwd_post_V _ _ _ _ _ _ _ _ _ _ _ P i j Hi Hj).
  apply fwd_block_exact.
Qed.

Lemma C3_chroma_is_truncated_box_average_witness :
  let RGB := plane_of_list [10; 20; 30; 40; 50; 60; 70; 80; 90; 100; 110; 120] in
  let p := RGB2YUV YCBCR_601 in
  exists m,
    rgb24_yuv420_std 3 2 2 RGB 6 (const_plane 0) (const_plane 0) (const_plane 0)
                     2 1 YCBCR_601 = Done m /\
    forall i j, 0 <= i < 2 / 2 -> 0 <= j < 2 / 2 ->
      U_plane m (i * 1 + j) = Z.shiftr (block_sum (chroma_u p) RGB 6 i j) 2 /\
      V_plane m (i * 1 + j) = Z.shiftr (block_sum (chroma_v p) RGB 6 i j) 2.
Proof.
  intros RGB p.
  apply (C3_chroma_is_truncated_box_average YCBCR_601 2 2 RGB 6
           (const_plane 0) (const_plane 0) (const_plane 0) 2 1 3%nat).
  - constructor; vm_compute; intuition discriminate.
  - vm_compute. reflexivity.
  - vm_compute. reflexivity.
Defined.

Lemma uniform_block_pixels (RGB : plane) (RGB_stride i j R G B : Z) :
  uniform_block RGB RGB_stride i j R G B ->
  forall (g : Z -> Z -> Z -> Z) (dr dc : Z), 0 <= dr <= 1 -> 0 <= dc <= 1 ->
    at_pixel g RGB RGB_stride (2 * i + dr) (2 * j + dc) = g R G B.
Proof.
  intros Hu g dr dc Hdr Hdc. unfold at_pixel.
  destruct (Hu dr dc Hdr Hdc) as (-> & -> & ->). reflexivity.
Qed.

(** C2: under BT601, in a completed forward conversion, a 2x2 block
    filled with (255,255,255) gives Y = 235 at its four pixels and
    U = V = 128; filled with (0,0,0) it gives Y = 16, U = V = 128; filled
    with (128,128,128) it gives Y = (128*y_factor >> 7) + 16 (which is 126)
    and U = V = 128. *)
Theorem C2_bt601_known_vectors :
  forall (width height : Z) (RGB : plane) (RGB_stride : Z) (Y U V : plane)
         (Y_stride UV_stride : Z) (fuel : nat) (i j v : Z),
    geometry width height RGB_stride Y_stride UV_stride ->
    width < Z.of_nat fuel -> height < Z.of_nat fuel ->
    0 <= i < height / 2 -> 0 <= j < width / 2 ->
    uniform_block RGB RGB_stride i j v v v ->
    exists m,
      rgb24_yuv420_std fuel width height RGB RGB_stride Y U V Y_stride UV_stride
                       YCBCR_601 = Done m /\
      (v = 255 \/ v = 0 \/ v = 128 ->
       U_plane m (i * UV_stride + j) = 128 /\
       V_plane m (i * UV_stride + j) = 128) /\
      forall dr dc, 0 <= dr <= 1 -> 0 <= dc <= 1 ->
        let y := Y_plane m ((2 * i + dr) * Y_stride + (2 * j + dc)) in
        (v = 255 -> y = 235) /\
        (v = 0 -> y = 16) /\
        (v = 128 ->
         y = Z.shiftr (128 * RGB2YUVParam.y_factor (RGB2YUV YCBCR_601)) 7 + 16
         /\ y = 126).
Proof.
  intros width height RGB RGB_stride Y U V Y_stride UV_stride fuel i j v
    G Hw Hh Hi Hj Hu.
  destruct (rgb24_yuv420_std_post (RGB2YUV YCBCR_601) width height RGB
              RGB_stride Y U V Y_stride UV_stride G fuel Hw Hh) as (m & Hm & P).
  exists m. split; [exact Hm|]. split.
  - intros Hv.
    rewrite (fwd_post_U _ _ _ _ _ _ _ _ _ _ _ P i j Hi Hj).
    rewrite (fwd_post_V _ _ _ _ _ _ _ _ _ _ _ P i j Hi Hj).
    destruct (fwd_block_exact YCBCR_601 RGB RGB_stride i j) as (-> & ->).
    unfold block_sum.
    pose proof (uniform_block_pixels _ _ _ _ _ _ _ Hu) as Hp.
    assert (H00 : forall g, at_pixel g RGB RGB_stride (2 * i) (2 * j) = g v v v)
      by (intro g; rewrite <- (Hp g 0 0) by lia; f_equal; lia).
    assert (H01 : forall g, at_pixel g RGB RGB_stride (2 * i) (2 * j + 1) = g v v v)
      by (intro g; rewrite <- (Hp g 0 1) by lia; f_equal; lia).
    assert (H10 : forall g, at_pixel g RGB RGB_stride (2 * i + 1) (2 * j) = g v v v)
      by (intro g; rewrite <- (Hp g 1 0) by lia; f_equal; lia).
    assert (H11 : forall g,
               at_pixel g RGB RGB_stride (2 * i + 1) (2 * j + 1) = g v v v)
      by (intro g; apply Hp; lia).
    rewrite !H00, !H01, !H10, !H11.
    destruct Hv as [-> | [-> | ->]]; vm_compute; split; reflexivity.
  - intros dr dc Hdr Hdc y. subst y.
    assert (Hh2 : 2 * (height / 2) <= height) by (Z.div_mod_to_equations; lia).
    rewrite (fwd_post_Y _ _ _ _ _ _ _ _ _ _ _ P (2 * i + dr) (2 * j + dc))
      by lia.
    destruct (fwd_values_exact YCBCR_601 RGB
                ((2 * i + dr) * RGB_stride + 3 * (2 * j + dc))) as (-> & _).
    destruct (Hu dr dc Hdr Hdc) as (Hr & Hg & Hb).
    unfold red, green, blue in Hr, Hg, Hb. rewrite Hr, Hg, Hb.
    split; [|split]; intros ->; vm_compute; try split; reflexivity.
Qed.

Lemma C2_bt601_known_vectors_witness :
  exists m,
    rgb24_yuv420_std 3 2 2 (const_plane 255) 6 (const_plane 0) (const_plane 0)
                     (const_plane 0) 2 1 YCBCR_601 = Done m /\
    (255 = 255 \/ 255 = 0 \/ 255 = 128 ->
     U_plane m (0 * 1 + 0) = 128 /\ V_plane m (0 * 1 + 0) = 128) /\
    forall dr dc, 0 <= dr <= 1 -> 0 <= dc <= 1 ->
      let y := Y_plane m ((2 * 0 + dr) * 2 + (2 * 0 + dc)) in
      (255 = 255 -> y = 235) /\
      (255 = 0 -> y = 16) /\
      (255 = 128 ->
       y = Z.shiftr (128 * RGB2YUVParam.y_factor (RGB2YUV YCBCR_601)) 7 + 16
       /\ y = 126).
Proof.
  apply (C2_bt601_known_vectors 2 2 (const_plane 255) 6 (const_plane 0)
           (const_plane 0) (const_plane 0) 2 1 3%nat 0 0 255).
  - constructor; vm_compute; intuition discriminate.
  - vm_compute. reflexivity.
  - vm_compute. reflexivity.
  - vm_compute. intuition discriminate.
  - vm_compute. intuition discriminate.
  - intros dr dc _ _. vm_compute. auto.
Defined.

(** ** Inverse conversion: one row pair *)

Section InverseRow.
Variable param : YUV2RGBParam.t.
Variables Y U V : plane.

Lemma yuv420_rgb24_block_cursor (c : inv_cursor) (RGB : plane) :
  fst (yuv420_rgb24_block param Y U V (c, RGB)) = inv_advance c 1.
Proof.
  unfold yuv420_rgb24_block, inv_advance. cbn [fst]. f_equal; lia.
Qed.

Lemma yuv420_rgb24_block_RGB (c : inv_cursor) (RGB : plane) (o : Z) :
  snd (yuv420_rgb24_block param Y U V (c, RGB)) o
  = let px (yo : Z) (ch : Z) :=
      inv_channel param Y U V yo (i_u_ptr c) (i_v_ptr c) ch in
    if o =? i_rgb_ptr2 c + 3 + 2 then px (i_y_ptr2 c + 1) 2
    else if o =? i_rgb_ptr2 c + 3 + 1 then px (i_y_ptr2 c + 1) 1
    else if o =? i_rgb_ptr2 c + 3 then px (i_y_ptr2 c + 1) 0
    else if o =? i_rgb_ptr2 c + 2 then px (i_y_ptr2 c) 2
    else if o =? i_rgb_ptr2 c + 1 then px (i_y_ptr2 c) 1
    else if o =? i_rgb_ptr2 c then px (i_y_ptr2 c) 0
    else if o =? i_rgb_ptr1 c + 3 + 2 then px (i_y_ptr1 c + 1) 2
    else if o =? i_rgb_ptr1 c + 3 + 1 then px (i_y_ptr1 c + 1) 1
    else if o =? i_rgb_ptr1 c + 3 then px (i_y_ptr1 c + 1) 0
    else if o =? i_rgb_ptr1 c + 2 then px (i_y_ptr1 c) 2
    else if o =? i_rgb_ptr1 c + 1 then px (i_y_ptr1 c) 1
    else if o =? i_rgb_ptr1 c then px (i_y_ptr1 c) 0
    else RGB o.
Proof.
  unfold yuv420_rgb24_block, inv_store_pixel, inv_channel, store8.
  cbn [snd].
  change (0 =? 0) with true. change (1 =? 0) with false.
  change (1 =? 1) with true. change (2 =? 0) with false.
  change (2 =? 1) with false. cbv iota zeta.
  repeat (rewrite (to_uint8_small (to_uint8 _)) by apply to_uint8_range).
  reflexivity.
Qed.

Lemma inv_row_cursor (n : nat) (c : inv_cursor) (RGB : plane) :
  fst (inv_row param Y U V n c RGB) = inv_advance c (Z.of_nat n).
Proof.
  unfold inv_row. induction n as [|n IH].
  - cbn [iter_from fst]. unfold inv_advance. destruct c.
    cbn [i_y_ptr1 i_y_ptr2 i_u_ptr i_v_ptr i_rgb_ptr1 i_rgb_ptr2]. f_equal; lia.
  - rewrite iter_from_succ_r.
    destruct (iter_from _ _ n 0 (c, RGB)) as [c' m'] eqn:E. cbn [fst] in IH.
    rewrite yuv420_rgb24_block_cursor. subst c'. unfold inv_advance.
    cbn [i_y_ptr1 i_y_ptr2 i_u_ptr i_v_ptr i_rgb_ptr1 i_rgb_ptr2]. f_equal; lia.
Qed.

Lemma inv_row_RGB (n : nat) (c : inv_cursor) (RGB : plane) (o : Z) :
  i_rgb_ptr1 c + 6 * Z.of_nat n <= i_rgb_ptr2 c
  \/ i_rgb_ptr2 c + 6 * Z.of_nat n <= i_rgb_ptr1 c ->
  snd (inv_row param Y U V n c RGB) o
  = if in_range (i_rgb_ptr1 c) (i_rgb_ptr1 c + 6 * Z.of_nat n) o
    then inv_channel param Y U V
           (i_y_ptr1 c + (o - i_rgb_ptr1 c) / 3)
           (i_u_ptr c + (o - i_rgb_ptr1 c) / 6)
           (i_v_ptr c + (o - i_rgb_ptr1 c) / 6)
           ((o - i_rgb_ptr1 c) mod 3)
    else if in_range (i_rgb_ptr2 c) (i_rgb_ptr2 c + 6 * Z.of_nat n) o
    then inv_channel param Y U V
           (i_y_ptr2 c + (o - i_rgb_ptr2 c) / 3)
           (i_u_ptr c + (o - i_rgb_ptr2 c) / 6)
           (i_v_ptr c + (o - i_rgb_ptr2 c) / 6)
           ((o - i_rgb_ptr2 c) mod 3)
    else RGB o.
Proof.
  induction n as [|n IH]; intros Hd.
  - cbn. unfold in_range. zbool; try lia; reflexivity.
  - pose proof (inv_row_cursor n c RGB) as Hc. unfold inv_row in *.
    rewrite iter_from_succ_r.
    destruct (iter_from _ _ n 0 (c, RGB)) as [c' m'] eqn:E.
    cbn [fst snd] in *. subst c'.
    rewrite yuv420_rgb24_block_RGB, IH by lia. cbv zeta.
    unfold inv_advance, in_range.
    cbn [i_y_ptr1 i_y_ptr2 i_u_ptr i_v_ptr i_rgb_ptr1 i_rgb_ptr2].
    zbool; try lia; try reflexivity; f_equal; Z.div_mod_to_equations; lia.
Qed.

End InverseRow.

(** ** Inverse conversion: the whole image *)

(** On a width of at least one pixel the inner loop completes. *)
Lemma yuv420_rgb24_rows_complete (param : YUV2RGBParam.t) (fuel : nat)
    (width : Z) (Y U V : plane) (Y_stride UV_stride RGB_stride y : Z)
    (m : plane) :
  1 <= width < 2 ^ 32 -> width < Z.of_nat fuel ->
  yuv420_rgb24_rows param fuel width Y U V Y_stride UV_stride RGB_stride y m
  = Done (inv_pair param width Y U V Y_stride UV_stride RGB_stride y m).
Proof.
  intros Hw Hf. unfold yuv420_rgb24_rows, inv_pair, inv_row.
  rewrite (for_u32_done (to_uint32 (width - 1)) 2 _
             (fun _ s => yuv420_rgb24_block param Y U V s)
             (fun _ _ => eq_refl) (Z.to_nat (width / 2)));
    rewrite ?to_uint32_small by lia; try reflexivity; try lia.
  - rewrite Z2Nat.id by (Z.div_mod_to_equations; lia). Z.div_mod_to_equations; lia.
  - rewrite Z2Nat.id by (Z.div_mod_to_equations; lia). Z.div_mod_to_equations; lia.
  - assert (width / 2 <= width) by (Z.div_mod_to_equations; lia). lia.
Qed.

Section InverseImage.
Variable param : YUV2RGBParam.t.
Variables (width height : Z) (Y U V : plane) (Y_stride UV_stride : Z).
Variables (RGB : plane) (RGB_stride : Z).
Hypothesis G : geometry width height RGB_stride Y_stride UV_stride.

Lemma yuv420_rgb24_rows_done (fuel : nat) (y : Z) (m : plane) :
  width < Z.of_nat fuel ->
  yuv420_rgb24_rows param fuel width Y U V Y_stride UV_stride RGB_stride y m
  = Done (inv_pair param width Y U V Y_stride UV_stride RGB_stride y m).
Proof. intros Hf. apply yuv420_rgb24_rows_complete; [apply G | exact Hf]. Qed.

Lemma inv_row_start_even (k : Z) :
  0 <= k -> 2 * k + 1 < height ->
  inv_row_start Y_stride UV_stride RGB_stride (2 * k)
  = mk_inv_cursor (2 * k * Y_stride) ((2 * k + 1) * Y_stride)
                  (k * UV_stride) (k * UV_stride)
                  (2 * k * RGB_stride) ((2 * k + 1) * RGB_stride).
Proof.
  intros Hk Hh. pose proof G as [Gw Gh Grs Gys Guvs Grz Gyz Guvz].
  assert (0 <= (width + 1) / 2) by (Z.div_mod_to_equations; lia).
  unfold inv_row_start.
  replace (2 * k / 2) with k by (Z.div_mod_to_equations; lia).
  assert ((2 * k + 1) * RGB_stride <= height * RGB_stride)
    by (apply Z.mul_le_mono_nonneg_r; lia).
  assert ((2 * k + 1) * Y_stride <= height * Y_stride)
    by (apply Z.mul_le_mono_nonneg_r; lia).
  assert (k * UV_stride <= (height + 1) / 2 * UV_stride)
    by (apply Z.mul_le_mono_nonneg_r; Z.div_mod_to_equations; lia).
  rewrite (to_uint32_small (2 * k + 1)) by lia.
  rewrite !to_uint32_small by nia.
  reflexivity.
Qed.

Lemma inv_pairs_post (n : nat) :
  Z.of_nat n <= height / 2 ->
  inv_post param width (2 * Z.of_nat n) Y U V Y_stride UV_stride RGB RGB_stride
           (inv_pairs param width Y U V Y_stride UV_stride RGB RGB_stride n).
Proof.
  pose proof G as [Gw Gh Grs Gys Guvs Grz Gyz Guvz].
  assert (Hw2 : 0 <= width / 2 /\ 2 * (width / 2) <= width)
    by (Z.div_mod_to_equations; lia).
  assert (Hh2 : 2 * (height / 2) <= height) by (Z.div_mod_to_equations; lia).
  induction n as [|n IH]; intros Hn.
  - unfold inv_pairs. cbn [iter_from]. change (Z.of_nat 0) with 0.
    split; intros; try reflexivity; exfalso; Z.div_mod_to_equations; lia.
  - specialize (IH ltac:(lia)). destruct IH as [IR FR].
    replace (2 * Z.of_nat n / 2) with (Z.of_nat n) in *
      by (Z.div_mod_to_equations; lia).
    unfold inv_pairs in *. rewrite iter_from_succ_r.
    set (m := iter_from 2 _ n 0 _) in *.
    replace (0 + 2 * Z.of_nat n) with (2 * Z.of_nat n) by lia.
    unfold inv_pair. rewrite inv_row_start_even by lia.
    set (k := Z.of_nat n) in *.
    assert (Hdiv : 2 * Z.of_nat (S n) / 2 = k + 1)
      by (subst k; Z.div_mod_to_equations; lia).
    split; rewrite Hdiv.
    + intros r c ch Hr Hc Hch.
      rewrite inv_row_RGB
        by (cbn [i_rgb_ptr1 i_rgb_ptr2]; rewrite Z2Nat.id by lia; lia).
      cbn [i_y_ptr1 i_y_ptr2 i_u_ptr i_v_ptr i_rgb_ptr1 i_rgb_ptr2].
      rewrite Z2Nat.id by lia. unfold in_range.
      assert (r < 2 * k \/ r = 2 * k \/ r = 2 * k + 1) as [Hlt | [-> | ->]] by lia.
      * pose proof (row_cell_lt RGB_stride (3 * (2 * (width / 2))) r (2 * k)
                      (3 * c + ch) ltac:(lia) ltac:(lia) Hlt).
        zbool; try lia. apply IR; lia.
      * replace (2 * k / 2) with k by (Z.div_mod_to_equations; lia).
        zbool; try lia. f_equal; Z.div_mod_to_equations; lia.
      * replace ((2 * k + 1) / 2) with k by (Z.div_mod_to_equations; lia).
        zbool; try lia. f_equal; Z.div_mod_to_equations; lia.
    + intros o Ho.
      rewrite inv_row_RGB
        by (cbn [i_rgb_ptr1 i_rgb_ptr2]; rewrite Z2Nat.id by lia; lia).
      cbn [i_y_ptr1 i_y_ptr2 i_u_ptr i_v_ptr i_rgb_ptr1 i_rgb_ptr2].
      rewrite Z2Nat.id by lia. unfold in_range.
      zbool;
        try (exfalso; apply Ho;
             first [ exists (2 * k), (o - 2 * k * RGB_stride); lia
                   | exists (2 * k + 1), (o - (2 * k + 1) * RGB_stride); lia ]).
      all: apply FR; intros (r & c & Hr & Hc & ->); apply Ho; exists r, c; lia.
Qed.

(** With enough fuel the conversion completes, and leaves [inv_post]. *)
Lemma yuv420_rgb24_std_post (fuel : nat) :
  width < Z.of_nat fuel -> height < Z.of_nat fuel ->
  exists out,
    for_u32 fuel (to_uint32 (height - 1)) 2
      (yuv420_rgb24_rows param fuel width Y U V Y_stride UV_stride RGB_stride)
      0 RGB = Done out /\
    inv_post param width height Y U V Y_stride UV_stride RGB RGB_stride out.
Proof.
  intros Hfw Hfh. pose proof G as [Gw Gh Grs Gys Guvs Grz Gyz Guvz].
  assert (Hh2 : 0 <= height / 2 /\ 2 * (height / 2) <= height)
    by (Z.div_mod_to_equations; lia).
  exists (inv_pairs param width Y U V Y_stride UV_stride RGB RGB_stride
            (Z.to_nat (height / 2))). split.
  - unfold inv_pairs.
    apply for_u32_done;
      rewrite ?to_uint32_small, ?Z2Nat.id by lia;
      try (intros; apply yuv420_rgb24_rows_done); try lia;
      try (Z.div_mod_to_equations; lia).
  - pose proof (inv_pairs_post (Z.to_nat (height / 2))) as P.
    rewrite Z2Nat.id in P by lia. specialize (P ltac:(lia)).
    destruct P as [IR FR].
    replace (2 * (height / 2) / 2) with (height / 2) in *
      by (Z.div_mod_to_equations; lia).
    split; assumption.
Qed.

End InverseImage.

(** ** Inverse conversion: the values stored *)

Ltac inverse_table yuv_type :=
  destruct yuv_type;
  [ rewrite (proj1 YUV2RGB_values)
  | rewrite (proj1 (proj2 YUV2RGB_values))
  | rewrite (proj2 (proj2 YUV2RGB_values)) ];
  cbn [YUV2RGBParam.cb_factor YUV2RGBParam.cr_factor YUV2RGBParam.g_cb_factor
       YUV2RGBParam.g_cr_factor YUV2RGBParam.y_factor YUV2RGBParam.y_offset].

(** On the three tables the conversions to int8_t and int16_t of the
    inverse block change no value, and what reaches the clamp is within
    [-1024, 1023]. *)
Lemma inv_values_exact (yuv_type : YCbCrType) (Yv Uv Vv : Z) :
  is_byte Yv -> is_byte Uv -> is_byte Vv ->
  let q := YUV2RGB yuv_type in
  inv_uv_tmp Uv = Uv - 128 /\ inv_uv_tmp Vv = Vv - 128 /\
  inv_y_tmp q Yv = full_range_luma q Yv /\
  inv_b_cb_offset q (Uv - 128) = b_offset q Uv /\
  inv_r_cr_offset q (Vv - 128) = r_offset q Vv /\
  inv_g_cbcr_offset q (Uv - 128) (Vv - 128) = g_offset q Uv Vv /\
  forall ch, -1024 <= unclamped q Yv Uv Vv ch <= 1023.
Proof.
  intros HY HU HV q. subst q. unfold is_byte in *.
  unfold inv_uv_tmp, inv_y_tmp, inv_b_cb_offset, inv_r_cr_offset,
    inv_g_cbcr_offset, unclamped, full_range_luma, b_offset, r_offset, g_offset.
  inverse_table yuv_type; rewrite !shiftr_div by lia;
    change (2 ^ 6) with 64; change (2 ^ 7) with 128;
    (split; [apply to_int8_small; lia|]);
    (split; [apply to_int8_small; lia|]);
    (split; [apply to_int16_small; Z.div_mod_to_equations; lia|]);
    (split; [apply to_int16_small; Z.div_mod_to_equations; lia|]);
    (split; [apply to_int16_small; Z.div_mod_to_equations; lia|]);
    (split; [apply to_int16_small; Z.div_mod_to_equations; lia|]);
    intros ch; (destruct (ch =? 0); [|destruct (ch =? 1)]);
    Z.div_mod_to_equations; lia.
Qed.

Lemma saturate_range (x : Z) : is_byte (saturate x).
Proof. unfold is_byte, saturate. lia. Qed.

Lemma inv_channel_exact (yuv_type : YCbCrType) (Y U V : plane)
    (yo uo vo ch : Z) :
  let q := YUV2RGB yuv_type in
  inv_channel q Y U V yo uo vo ch
  = saturate (unclamped q (load8 Y yo) (load8 U uo) (load8 V vo) ch).
Proof.
  intros q.
  destruct (inv_values_exact yuv_type (load8 Y yo) (load8 U uo) (load8 V vo)
              (load8_range _ _) (load8_range _ _) (load8_range _ _))
    as (Hu & Hv & Hy & Hb & Hr & Hg & Hc).
  fold q in Hy, Hb, Hr, Hg, Hc. specialize (Hc ch).
  unfold inv_channel. cbv zeta. rewrite Hu, Hv, Hy, Hb, Hr, Hg.
  fold (unclamped q (load8 Y yo) (load8 U uo) (load8 V vo) ch).
  rewrite clamp_saturate by lia.
  apply to_uint8_small, saturate_range.
Qed.

(** C4: in a completed inverse conversion, for each pixel (r, c) of the
    even-aligned region, with Y its own luma sample and U, V the one pair
    of chroma samples of its 2x2 block (row r/2, column c/2 of the chroma
    planes), the three interleaved bytes written at offset 3*c of row r
    are R = saturate(Y' + R-offset), G = saturate(Y' - G-offset) and
    B = saturate(Y' + B-offset), where Y' = (y_factor*(Y - y_offset)) >> 7,
    B-offset = (cb_factor*(U-128)) >> 6, R-offset = (cr_factor*(V-128)) >> 6
    and G-offset = (g_cb_factor*(U-128) + g_cr_factor*(V-128)) >> 7. *)
Theorem C4_inverse_block_formulas :
  forall (yuv_type : YCbCrType) (width height : Z) (Y U V : plane)
         (Y_stride UV_stride : Z) (RGB : plane) (RGB_stride : Z) (fuel : nat),
    geometry width height RGB_stride Y_stride UV_stride ->
    width < Z.of_nat fuel -> height < Z.of_nat fuel ->
    let q := YUV2RGB yuv_type in
    exists out,
      yuv420_rgb24_std fuel width height Y U V Y_stride UV_stride RGB RGB_stride
                       yuv_type = Done out /\
      forall r c, 0 <= r < 2 * (height / 2) -> 0 <= c < 2 * (width / 2) ->
        let Yv := load8 Y (r * Y_stride + c) in
        let Uv := load8 U (r / 2 * UV_stride + c / 2) in
        let Vv := load8 V (r / 2 * UV_stride + c / 2) in
        let Y' := full_range_luma q Yv in
        out (r * RGB_stride + 3 * c) = saturate (Y' + r_offset q Vv) /\
        out (r * RGB_stride + 3 * c + 1) = saturate (Y' - g_offset q Uv Vv) /\
        out (r * RGB_stride + 3 * c + 2) = saturate (Y' + b_offset q Uv).
Proof.
  intros yuv_type width height Y U V Y_stride UV_stride RGB RGB_stride fuel
    G Hw Hh q.
  destruct (yuv420_rgb24_std_post q width height Y U V Y_stride UV_stride
              RGB RGB_stride G fuel Hw Hh) as (out & Hout & [IR FR]).
  exists out. split; [exact Hout|]. intros r c Hr Hc Yv Uv Vv Y'.
  pose proof (IR r c 0 Hr Hc ltac:(lia)) as H0.
  pose proof (IR r c 1 Hr Hc ltac:(lia)) as H1.
  pose proof (IR r c 2 Hr Hc ltac:(lia)) as H2.
  rewrite Z.add_0_r in H0.
  subst q. rewrite inv_channel_exact in H0, H1, H2.
  rewrite H0, H1, H2. unfold unclamped. cbn [Z.eqb Pos.eqb].
  auto.
Qed.

Lemma C4_inverse_block_formulas_witness :
  let q := YUV2RGB YCBCR_709 in
  let Y := plane_of_list [16; 235; 100; 200] in
  let U := const_plane 90 in
  let V := const_plane 240 in
  exists out,
    yuv420_rgb24_std 3 2 2 Y U V 2 1 (const_plane 0) 6 YCBCR_709 = Done out /\
    forall r c, 0 <= r < 2 * (2 / 2) -> 0 <= c < 2 * (2 / 2) ->
      let Yv := load8 Y (r * 2 + c) in
      let Uv := load8 U (r / 2 * 1 + c / 2) in
      let Vv := load8 V (r / 2 * 1 + c / 2) in
      let Y' := full_range_luma q Yv in
      out (r * 6 + 3 * c) = saturate (Y' + r_offset q Vv) /\
      out (r * 6 + 3 * c + 1) = saturate (Y' - g_offset q Uv Vv) /\
      out (r * 6 + 3 * c + 2) = saturate (Y' + b_offset q Uv).
Proof.
  intros q Y U V.
  apply (C4_inverse_block_formulas YCBCR_709 2 2 Y U V 2 1 (const_plane 0) 6
           3%nat).
  - constructor; vm_compute; intuition discriminate.
  - vm_compute. reflexivity.
  - vm_compute. reflexivity.
Defined.

(** C6: the clamp of the inverse path clips to [0,255]: on its int16_t
    domain it returns 0 below 0, 255 above 255 and its argument otherwise;
    it is total and its result is always a byte; what the inverse block
    hands to it, for any bytes Y, U, V and any of the three tables, is
    within the int16_t range, so the stored byte is the saturation of the
    exact sum; and every byte a completed inverse conversion writes is in
    [0,255], whatever the contents of the three planes (the boundary
    values 0, 128, 255 included). *)
Theorem C6_saturation_clips_and_never_fails :
  (forall v, -32768 <= v <= 32767 ->
     (v < 0 -> clamp v = 0) /\
     (255 < v -> clamp v = 255) /\
     (0 <= v <= 255 -> clamp v = v)) /\
  (forall v, is_byte (clamp v)) /\
  (forall (yuv_type : YCbCrType) (Y U V : plane) (yo uo vo ch : Z),
     let x := unclamped (YUV2RGB yuv_type) (load8 Y yo) (load8 U uo)
                        (load8 V vo) ch in
     -32768 <= x <= 32767 /\
     inv_channel (YUV2RGB yuv_type) Y U V yo uo vo ch = saturate x) /\
  (forall (yuv_type : YCbCrType) (width height : Z) (Y U V : plane)
          (Y_stride UV_stride : Z) (RGB : plane) (RGB_stride : Z) (fuel : nat),
     geometry width height RGB_stride Y_stride UV_stride ->
     width < Z.of_nat fuel -> height < Z.of_nat fuel ->
     exists out,
       yuv420_rgb24_std fuel width height Y U V Y_stride UV_stride RGB
                        RGB_stride yuv_type = Done out /\
       forall r c ch,
         0 <= r < 2 * (height / 2) -> 0 <= c < 2 * (width / 2) -> 0 <= ch < 3 ->
         is_byte (out (r * RGB_stride + 3 * c + ch))).
Proof.
  split; [|split; [|split]].
  - intros v Hv. rewrite clamp_saturate by lia. unfold saturate. lia.
  - intros v. apply clamp_range.
  - intros yuv_type Y U V yo uo vo ch x. subst x. split.
    + destruct (inv_values_exact yuv_type (load8 Y yo) (load8 U uo) (load8 V vo)
                  (load8_range _ _) (load8_range _ _) (load8_range _ _))
        as (_ & _ & _ & _ & _ & _ & Hc).
      specialize (Hc ch). cbv zeta in Hc. lia.
    + apply inv_channel_exact.
  - intros yuv_type width height Y U V Y_stride UV_stride RGB RGB_stride fuel
      G Hw Hh.
    destruct (yuv420_rgb24_std_post (YUV2RGB yuv_type) width height Y U V
                Y_stride UV_stride RGB RGB_stride G fuel Hw Hh)
      as (out & Hout & [IR FR]).
    exists out. split; [exact Hout|]. intros r c ch Hr Hc Hch.
    rewrite (IR r c ch Hr Hc Hch), inv_channel_exact. apply saturate_range.
Qed.

Lemma C6_saturation_clips_and_never_fails_witness :
  clamp (-7) = 0 /\ clamp 300 = 255 /\ clamp 42 = 42 /\
  exists out,
    yuv420_rgb24_std 3 2 2 (const_plane 255) (const_plane 255) (const_plane 0)
                     2 1 (const_plane 0) 6 YCBCR_601 = Done out /\
    forall r c ch,
      0 <= r < 2 * (2 / 2) -> 0 <= c < 2 * (2 / 2) -> 0 <= ch < 3 ->
      is_byte (out (r * 6 + 3 * c + ch)).
Proof.
  destruct C6_saturation_clips_and_never_fails as (Hclip & _ & _ & Himg).
  split; [|split; [|split]].
  - apply (Hclip (-7)); lia.
  - apply (Hclip 300); lia.
  - apply (Hclip 42); lia.
  - apply (Himg YCBCR_601 2 2 (const_plane 255) (const_plane 255)
             (const_plane 0) 2 1 (const_plane 0) 6 3%nat).
    + constructor; vm_compute; intuition discriminate.
    + vm_compute. reflexivity.
    + vm_compute. reflexivity.
Defined.

(** ** The region touched *)

(** A cell of a trailing row or column lies outside the region. *)
Lemma trailing_cell_outside (stride rows cols r c : Z) :
  0 <= cols <= stride -> 0 <= c < stride -> rows <= r \/ cols <= c ->
  ~ in_region stride rows cols (r * stride + c).
Proof.
  intros Hs Hc Hout (r' & c' & Hr' & Hc' & E).
  assert (r = r') by nia. subst r'. lia.
Qed.

Lemma empty_region (stride rows cols o : Z) :
  rows <= 0 \/ cols <= 0 -> ~ in_region stride rows cols o.
Proof. intros H (r & c & Hr & Hc & _). lia. Qed.

(** C7 (as amended): for an image of at least one pixel whose planes lie
    within the 32-bit offsets the code computes (the height times each row
    pitch is below 2^32), a completed conversion in
    either direction writes the cells of the even-aligned region (rows
    0..2*(H/2), columns 0..2*(W/2); rows 0..H/2, columns 0..W/2 of the
    chroma planes; 3 bytes per column in the RGB buffer) and leaves every
    other cell of every output plane as it was, in particular every cell of
    a trailing odd row or column; when the width or the height is 1 no cell
    at all is changed. *)
Theorem C7_only_the_even_region_is_touched :
  forall (yuv_type : YCbCrType) (width height : Z) (RGB : plane)
         (RGB_stride : Z) (Y U V : plane) (Y_stride UV_stride : Z) (fuel : nat),
    geometry width height RGB_stride Y_stride UV_stride ->
    width < Z.of_nat fuel -> height < Z.of_nat fuel ->
    let rows := 2 * (height / 2) in
    let cols := 2 * (width / 2) in
    (exists m,
       rgb24_yuv420_std fuel width height RGB RGB_stride Y U V Y_stride
                        UV_stride yuv_type = Done m /\
       (forall r c, 0 <= r < rows -> 0 <= c < cols ->
          Y_plane m (r * Y_stride + c)
          = fwd_luma_at (RGB2YUV yuv_type) RGB (r * RGB_stride + 3 * c)) /\
       (forall o, ~ in_region Y_stride rows cols o -> Y_plane m o = Y o) /\
       (forall o, ~ in_region UV_stride (height / 2) (width / 2) o ->
          U_plane m o = U o /\ V_plane m o = V o) /\
       (forall r c, 0 <= c < Y_stride -> rows <= r \/ cols <= c ->
          Y_plane m (r * Y_stride + c) = Y (r * Y_stride + c)) /\
       (forall r c, 0 <= c < UV_stride -> height / 2 <= r \/ width / 2 <= c ->
          U_plane m (r * UV_stride + c) = U (r * UV_stride + c) /\
          V_plane m (r * UV_stride + c) = V (r * UV_stride + c)) /\
       (width = 1 \/ height = 1 ->
          forall o, Y_plane m o = Y o /\ U_plane m o = U o /\ V_plane m o = V o))
    /\
    (exists out,
       yuv420_rgb24_std fuel width height Y U V Y_stride UV_stride RGB
                        RGB_stride yuv_type = Done out /\
       (forall r c ch, 0 <= r < rows -> 0 <= c < cols -> 0 <= ch < 3 ->
          out (r * RGB_stride + 3 * c + ch)
          = inv_channel (YUV2RGB yuv_type) Y U V (r * Y_stride + c)
                        (r / 2 * UV_stride + c / 2) (r / 2 * UV_stride + c / 2)
                        ch) /\
       (forall o, ~ in_region RGB_stride rows (3 * cols) o -> out o = RGB o) /\
       (forall r c, 0 <= c < RGB_stride -> rows <= r \/ 3 * cols <= c ->
          out (r * RGB_stride + c) = RGB (r * RGB_stride + c)) /\
       (width = 1 \/ height = 1 -> forall o, out o = RGB o)).
Proof.
  intros yuv_type width height RGB RGB_stride Y U V Y_stride UV_stride fuel
    G Hw Hh rows cols.
  pose proof G as [Gw Gh Grs Gys Guvs Grz Gyz Guvz].
  assert (Hd : 0 <= height / 2 /\ 0 <= width / 2 /\ cols <= width
               /\ width / 2 <= UV_stride
               /\ (width = 1 \/ height = 1 -> rows <= 0 \/ cols <= 0))
    by (subst rows cols; Z.div_mod_to_equations; lia).
  destruct Hd as (Hh2 & Hw2 & Hcw & Huv & Hone).
  split.
  - destruct (rgb24_yuv420_std_post (RGB2YUV yuv_type) width height RGB
                RGB_stride Y U V Y_stride UV_stride G fuel Hw Hh)
      as (m & Hm & [IY IU IV FY FU FV]).
    exists m. split; [exact Hm|]. repeat split.
    + exact IY.
    + exact FY.
    + apply FU; assumption.
    + apply FV; assumption.
    + intros r c Hc Ho. apply FY, trailing_cell_outside; subst rows cols; lia.
    + apply FU, trailing_cell_outside; lia.
    + apply FV, trailing_cell_outside; lia.
    + apply FY, empty_region. auto.
    + apply FU, empty_region. subst rows cols. specialize (Hone H). lia.
    + apply FV, empty_region. subst rows cols. specialize (Hone H). lia.
  - destruct (yuv420_rgb24_std_post (YUV2RGB yuv_type) width height Y U V
                Y_stride UV_stride RGB RGB_stride G fuel Hw Hh)
      as (out & Hout & [IR FR]).
    exists out. split; [exact Hout|]. repeat split.
    + exact IR.
    + exact FR.
    + intros r c Hc Ho. apply FR, trailing_cell_outside; subst rows cols; lia.
    + intros H o. apply FR, empty_region. subst rows cols.
      specialize (Hone H). lia.
Qed.

Lemma C7_only_the_even_region_is_touched_witness :
  let RGB := plane_of_list [255; 255; 255; 255; 255; 255; 9; 9; 9;
                            255; 255; 255; 255; 255; 255; 9; 9; 9] in
  (exists m,
     rgb24_yuv420_std 4 3 2 RGB 9 (const_plane 7) (const_plane 7) (const_plane 7)
                      3 2 YCBCR_601 = Done m /\
     map (Y_plane m) [0; 1; 2; 3; 4; 5] = [235; 235; 7; 235; 235; 7] /\
     map (U_plane m) [0; 1] = [128; 7] /\ map (V_plane m) [0; 1] = [128; 7]) /\
  (exists m,
     rgb24_yuv420_std 9 1 8 RGB 3 (const_plane 7) (const_plane 7) (const_plane 7)
                      1 1 YCBCR_601 = Done m /\
     forall o, Y_plane m o = 7 /\ U_plane m o = 7 /\ V_plane m o = 7).
Proof.
  intros RGB. split.
  - destruct (C7_only_the_even_region_is_touched YCBCR_601 3 2 RGB 9
                (const_plane 7) (const_plane 7) (const_plane 7) 3 2 4%nat)
      as [(m & Hm & _) _].
    + constructor; vm_compute; intuition discriminate.
    + vm_compute. reflexivity.
    + vm_compute. reflexivity.
    + exists m. split; [exact Hm|].
      apply (f_equal state_of) in Hm. cbn [state_of] in Hm. subst m.
      vm_compute. repeat split.
  - destruct (C7_only_the_even_region_is_touched YCBCR_601 1 8 RGB 3
                (const_plane 7) (const_plane 7) (const_plane 7) 1 1 9%nat)
      as [(m & Hm & _ & _ & _ & _ & _ & Hone) _].
    + constructor; vm_compute; intuition discriminate.
    + vm_compute. reflexivity.
    + vm_compute. reflexivity.
    + exists m. split; [exact Hm|]. intros o. apply (Hone (or_introl eq_refl)).
Defined.

(** The claim C7 as worded fails where a row offset no longer fits 32
    bits.  The offsets [y*Y_stride] and [y*RGB_stride] are [uint32_t]
    products: at width 3, height 4 and a luma pitch of 2^31+1 the second row
    pair starts at offset 2 instead of 2*(2^31+1), and the completed forward
    conversion has stored luma in cell 2 of row 0, a cell of the trailing
    odd column, while the first cell of row 2 is as it was; with an RGB pitch
    of 2^31+3 the completed inverse conversion has stored the three bytes of
    pixel 2 of row 0. *)
Lemma C7_counterexample_wrapped_row_offset :
  (exists m,
     rgb24_yuv420_std 5 3 4 (const_plane 255) 9 (const_plane 7) (const_plane 7)
                      (const_plane 7) (2 ^ 31 + 1) 2 YCBCR_601 = Done m /\
     2 * (3 / 2) <= 2 /\
     Y_plane m (0 * (2 ^ 31 + 1) + 2) = 235 /\
     const_plane 7 (0 * (2 ^ 31 + 1) + 2) = 7 /\
     Y_plane m (2 * (2 ^ 31 + 1) + 0) = 7) /\
  (exists out,
     yuv420_rgb24_std 5 3 4 (const_plane 128) (const_plane 128)
                      (const_plane 128) 3 2 (const_plane 7) (2 ^ 31 + 3)
                      YCBCR_JPEG = Done out /\
     2 * (3 / 2) <= 2 /\
     map (fun ch => out (0 * (2 ^ 31 + 3) + 3 * 2 + ch)) [0; 1; 2]
     = [128; 128; 128] /\
     map (fun ch => const_plane 7 (0 * (2 ^ 31 + 3) + 3 * 2 + ch)) [0; 1; 2]
     = [7; 7; 7]).
Proof.
  split.
  - eexists. split; [vm_compute; reflexivity|].
    vm_compute. repeat split; discriminate.
  - eexists. split; [vm_compute; reflexivity|].
    vm_compute. repeat split; discriminate.
Qed.

(** ** Zero dimensions *)

(** A counter that starts at 0 and advances by 2 modulo 2^32 stays even, so
    it never reaches 2^32 - 1. *)
Lemma counter_u32_even (k : nat) : counter_u32 2 k 0 < 2 ^ 32 - 1.
Proof.
  assert (H : exists j, counter_u32 2 k 0 = 2 * j /\ 0 <= 2 * j < 2 ^ 32).
  { induction k as [|k (j & Hj & Hr)].
    - exists 0. cbn. lia.
    - change (counter_u32 2 (S k) 0) with (to_uint32 (counter_u32 2 k 0 + 2)).
      rewrite Hj. unfold to_uint32.
      destruct (Z.eq_dec (2 * j + 2) (2 ^ 32)) as [E | E].
      + exists 0. rewrite E, Z.mod_same by lia. lia.
      + exists (j + 1). rewrite Z.mod_small by lia. lia. }
  destruct H as (j & -> & Hr). lia.
Qed.

(** With a wrapped bound the loop never completes: whatever the fuel, the
    body has run once per unit of fuel. *)
Lemma for_u32_wrapped_bound {A : Type} (f : Z -> A -> A) (fuel : nat) (a : A) :
  for_u32 fuel (2 ^ 32 - 1) 2 (fun x s => Done (f x s)) 0 a
  = OutOfFuel (iter_u32 2 f fuel 0 a).
Proof.
  apply for_u32_out_of_fuel; [reflexivity|]. intros k _. apply counter_u32_even.
Qed.

Lemma iter_u32_ignores_counter {A : Type} (g : A -> A) (step : Z) (n : nat) :
  forall (x x' : Z) (a : A),
    iter_u32 step (fun _ => g) n x a = iter_from step (fun _ => g) n x' a.
Proof.
  induction n as [|n IH]; intros x x' a; cbn [iter_u32 iter_from];
    [reflexivity | apply IH].
Qed.

(** C10 (as amended): the bound of a zero dimension wraps to 2^32 - 1.
    With width = 0 and height other than 1, the inner loop of the first row
    pair never reaches its bound: whatever the fuel, neither conversion
    completes and the block body has run once per unit of fuel, from the
    initial state on, and the chroma bytes of the first block are in the
    planes.  With height = 0 and width at least 1, the outer loop
    never reaches its bound: neither conversion completes and whole row
    pairs have been converted, once per unit of fuel; for width 1 a row
    pair holds no block and the planes stay as they were.  With width = 0
    and height = 1 the conversions return at once, planes untouched. *)
Theorem C10_zero_dimension_wraps_the_bound :
  forall (yuv_type : YCbCrType) (RGB : plane) (RGB_stride : Z) (Y U V : plane)
         (Y_stride UV_stride : Z) (fuel : nat),
    to_uint32 (0 - 1) = 2 ^ 32 - 1 /\
    (forall height, 0 <= height < 2 ^ 32 -> height <> 1 ->
       rgb24_yuv420_std fuel 0 height RGB RGB_stride Y U V Y_stride UV_stride
                        yuv_type
       = OutOfFuel
           (snd (iter_u32 2
                   (fun _ s => rgb24_yuv420_block (RGB2YUV yuv_type) RGB s)
                   fuel 0
                   (fwd_row_start RGB_stride Y_stride UV_stride 0,
                    mk_yuv Y U V))) /\
       yuv420_rgb24_std fuel 0 height Y U V Y_stride UV_stride RGB RGB_stride
                        yuv_type
       = OutOfFuel
           (snd (iter_u32 2
                   (fun _ s => yuv420_rgb24_block (YUV2RGB yuv_type) Y U V s)
                   fuel 0
                   (inv_row_start Y_stride UV_stride RGB_stride 0, RGB))) /\
       ((0 < fuel)%nat ->
        let m := state_of (rgb24_yuv420_std fuel 0 height RGB RGB_stride Y U V
                                            Y_stride UV_stride yuv_type) in
        U_plane m 0
        = fwd_block_u (RGB2YUV yuv_type) RGB 0 (to_uint32 RGB_stride) /\
        V_plane m 0
        = fwd_block_v (RGB2YUV yuv_type) RGB 0 (to_uint32 RGB_stride))) /\
    (forall width, 1 <= width < 2 ^ 32 -> width < Z.of_nat fuel ->
       rgb24_yuv420_std fuel width 0 RGB RGB_stride Y U V Y_stride UV_stride
                        yuv_type
       = OutOfFuel
           (iter_u32 2 (fwd_pair (RGB2YUV yuv_type) width RGB RGB_stride
                                 Y_stride UV_stride)
                     fuel 0 (mk_yuv Y U V)) /\
       yuv420_rgb24_std fuel width 0 Y U V Y_stride UV_stride RGB RGB_stride
                        yuv_type
       = OutOfFuel
           (iter_u32 2 (inv_pair (YUV2RGB yuv_type) width Y U V Y_stride
                                 UV_stride RGB_stride)
                     fuel 0 RGB)) /\
    (rgb24_yuv420_std fuel 1 0 RGB RGB_stride Y U V Y_stride UV_stride yuv_type
     = OutOfFuel (mk_yuv Y U V) /\
     yuv420_rgb24_std fuel 1 0 Y U V Y_stride UV_stride RGB RGB_stride yuv_type
     = OutOfFuel RGB) /\
    ((0 < fuel)%nat ->
     rgb24_yuv420_std fuel 0 1 RGB RGB_stride Y U V Y_stride UV_stride yuv_type
     = Done (mk_yuv Y U V) /\
     yuv420_rgb24_std fuel 0 1 Y U V Y_stride UV_stride RGB RGB_stride yuv_type
     = Done RGB).
Proof.
  intros yuv_type RGB RGB_stride Y U V Y_stride UV_stride fuel.
  split; [reflexivity|]. split; [|split; [|split]].
  - (* width = 0 *)
    intros height Hh Hh1.
    assert (Hb : 0 < to_uint32 (height - 1)).
    { destruct (Z.eq_dec height 0) as [-> | Hne]; [reflexivity|].
      rewrite to_uint32_small; lia. }
    assert (Hfwd :
      rgb24_yuv420_std fuel 0 height RGB RGB_stride Y U V Y_stride UV_stride
                       yuv_type
      = OutOfFuel
          (snd (iter_u32 2
                  (fun _ s => rgb24_yuv420_block (RGB2YUV yuv_type) RGB s)
                  fuel 0
                  (fwd_row_start RGB_stride Y_stride UV_stride 0,
                   mk_yuv Y U V)))).
    { unfold rgb24_yuv420_std.
      destruct fuel as [|fuel]; [reflexivity|].
      cbn [for_u32]. destruct (Z.ltb_spec 0 (to_uint32 (height - 1))); [|lia].
      unfold rgb24_yuv420_rows.
      change (to_uint32 (0 - 1)) with (2 ^ 32 - 1).
      rewrite for_u32_wrapped_bound. reflexivity. }
    split; [exact Hfwd|]. split.
    + unfold yuv420_rgb24_std.
      destruct fuel as [|fuel]; [reflexivity|].
      cbn [for_u32]. destruct (Z.ltb_spec 0 (to_uint32 (height - 1))); [|lia].
      unfold yuv420_rgb24_rows.
      change (to_uint32 (0 - 1)) with (2 ^ 32 - 1).
      rewrite for_u32_wrapped_bound. reflexivity.
    + intros Hf m. subst m. rewrite Hfwd. cbn [state_of].
      rewrite (iter_u32_ignores_counter _ 2 fuel 0 0).
      fold (fwd_row (RGB2YUV yuv_type) RGB fuel
                    (fwd_row_start RGB_stride Y_stride UV_stride 0)
                    (mk_yuv Y U V)).
      rewrite fwd_row_U, fwd_row_V. unfold fwd_row_start, in_range.
      cbn [f_u_ptr f_v_ptr f_rgb_ptr1 f_rgb_ptr2].
      change (to_uint32 (0 / 2 * UV_stride)) with 0.
      change (to_uint32 (0 * RGB_stride)) with 0.
      change (to_uint32 (0 + 1)) with 1. rewrite Z.mul_1_l.
      destruct (Z.ltb_spec 0 (0 + Z.of_nat fuel)); [|lia].
      change (0 <=? 0) with true. cbn [andb].
      change (6 * (0 - 0)) with 0. rewrite !Z.add_0_r.
      split; reflexivity.
  - (* height = 0 *)
    intros width Hw Hf. unfold rgb24_yuv420_std, yuv420_rgb24_std.
    change (to_uint32 (0 - 1)) with (2 ^ 32 - 1). split.
    + apply for_u32_out_of_fuel.
      * intros y m. apply rgb24_yuv420_rows_complete; assumption.
      * intros k _. apply counter_u32_even.
    + apply for_u32_out_of_fuel.
      * intros y m. apply yuv420_rgb24_rows_complete; assumption.
      * intros k _. apply counter_u32_even.
  - (* width = 1, height = 0 *)
    unfold rgb24_yuv420_std, yuv420_rgb24_std.
    change (to_uint32 (0 - 1)) with (2 ^ 32 - 1).
    destruct fuel as [|fuel]; [split; reflexivity|]. split.
    + rewrite (for_u32_out_of_fuel (2 ^ 32 - 1) 2 _ (fun _ m => m)).
      * f_equal. generalize 0 at 1. generalize (mk_yuv Y U V).
        induction (S fuel) as [|n IH]; intros; cbn [iter_u32]; auto.
      * intros y m. reflexivity.
      * intros k _. apply counter_u32_even.
    + rewrite (for_u32_out_of_fuel (2 ^ 32 - 1) 2 _ (fun _ m => m)).
      * f_equal. generalize 0 at 1. generalize RGB.
        induction (S fuel) as [|n IH]; intros; cbn [iter_u32]; auto.
      * intros y m. reflexivity.
      * intros k _. apply counter_u32_even.
  - (* width = 0, height = 1 *)
    intros Hf. destruct fuel as [|fuel]; [lia|]. split; reflexivity.
Qed.

Lemma C10_zero_dimension_wraps_the_bound_witness :
  let black := const_plane 0 in
  let fwd := rgb24_yuv420_std 2 0 0 black 0 (const_plane 7) (const_plane 7)
                              (const_plane 7) 0 0 YCBCR_601 in
  let inv := yuv420_rgb24_std 2 0 0 (const_plane 128) (const_plane 128)
                              (const_plane 128) 0 0 (const_plane 7) 0
                              YCBCR_601 in
  (exists m, fwd = OutOfFuel m /\
             map (Y_plane m) [0; 1; 2; 3; 4] = [16; 16; 16; 16; 7] /\
             map (U_plane m) [0; 1; 2] = [128; 128; 7]) /\
  (exists out, inv = OutOfFuel out /\
               map out [0; 5; 6; 11; 12] = [130; 130; 130; 130; 7]).
Proof.
  intros black fwd inv.
  destruct (C10_zero_dimension_wraps_the_bound YCBCR_601 black 0
              (const_plane 7) (const_plane 7) (const_plane 7) 0 0 2%nat)
    as (_ & H0 & _).
  destruct (H0 0 ltac:(lia) ltac:(lia)) as (Hf & _ & _).
  destruct (C10_zero_dimension_wraps_the_bound YCBCR_601 (const_plane 7) 0
              (const_plane 128) (const_plane 128) (const_plane 128) 0 0 2%nat)
    as (_ & H1 & _).
  destruct (H1 0 ltac:(lia) ltac:(lia)) as (_ & Hi & _).
  split.
  - eexists. split; [exact Hf|]. vm_compute. repeat split.
  - eexists. split; [exact Hi|]. vm_compute. repeat split.
Defined.

(** The claim C10 as worded fails for a 0x1 image: the width is 0, yet
    both conversions return at once without running the block body, and
    every plane is left as it was (on this input a single run of the body
    would have stored 16 and 128, resp. 130, over the 7s). *)
Lemma C10_counterexample_zero_by_one :
  rgb24_yuv420_std 5 0 1 (const_plane 0) 0 (const_plane 7) (const_plane 7)
                   (const_plane 7) 0 0 YCBCR_601
  = Done (mk_yuv (const_plane 7) (const_plane 7) (const_plane 7)) /\
  yuv420_rgb24_std 5 0 1 (const_plane 128) (const_plane 128) (const_plane 128)
                   0 0 (const_plane 7) 0 YCBCR_601
  = Done (const_plane 7).
Proof. split; reflexivity. Qed.

(** ** The vectorised forward path *)

Lemma avg_byte (x y : Z) : is_byte x -> is_byte y -> is_byte (avg x y).
Proof.
  unfold is_byte, avg. intros Hx Hy. rewrite shiftr_div by lia.
  change (2 ^ 1) with 2. div_lia.
Qed.

(** The odd byte of a word of two bytes, by the logical shift. *)
Lemma odd_byte (a b : Z) :
  is_byte a -> is_byte b -> saturate (to_int16 (Z.shiftr (a + 256 * b) 8)) = b.
Proof.
  unfold is_byte, saturate. intros Ha Hb. rewrite shiftr_div by lia.
  change (2 ^ 8) with 256.
  replace ((a + 256 * b) / 256) with b by div_lia.
  rewrite to_int16_small; lia.
Qed.

(** The even byte, by the mask. *)
Lemma even_byte (a b : Z) :
  is_byte a -> is_byte b ->
  saturate (to_int16 (Z.land a 255 + 256 * Z.land b 0)) = a.
Proof.
  unfold is_byte. intros Ha Hb.
  rewrite Z.land_0_r. change (Z.land a 255) with (Z.land a (Z.ones 8)).
  rewrite Z.land_ones by lia. change (2 ^ 8) with 256.
  rewrite Z.mod_small by lia. unfold saturate. rewrite to_int16_small; lia.
Qed.

Lemma horizontal_subsample_pairs (l1 l2 : list Z) :
  length l1 = 16%nat -> length l2 = 16%nat ->
  Forall is_byte l1 -> Forall is_byte l2 ->
  horizontal_subsample (epi8 l1) (epi8 l2) = epi8 (pair_averages (l1 ++ l2)).
Proof.
  intros H1 H2 F1 F2.
  do 17 (destruct l1 as [|? l1]; try discriminate H1).
  do 17 (destruct l2 as [|? l2]; try discriminate H2).
  repeat match goal with
         | H : Forall _ (_ :: _) |- _ => inversion H; clear H; subst
         end.
  unfold horizontal_subsample, _mm_srl_epi16, _mm_and_si128, _mm_packus_epi16,
    _mm_avg_epu8.
  change (fold_right (fun b acc => b + 256 * acc) 0
            (firstn 8 (as_bytes (_mm_cvtsi32_si128 8)))) with 8.
  change (as_bytes (_mm_set1_epi16 255))
    with [255; 0; 255; 0; 255; 0; 255; 0; 255; 0; 255; 0; 255; 0; 255; 0].
  cbn -[Z.shiftr Z.land saturate to_int16 Z.add Z.mul].
  rewrite !odd_byte, !even_byte by assumption.
  reflexivity.
Qed.

Section VectorKernel.
Variable prm : vector_param.
Variable RGB : plane.

(** The unpacking network separates the channels of sixteen pixels of each
    row, pixel [k] in lane [k]; each lane then goes through the matrix. *)
Lemma RGB2YUV_32_half_lanes (p1 p2 : Z) :
  RGB2YUV_32_half prm RGB p1 p2 =
  (epi8 (map (fun k => vector_y prm RGB (p1 + 3 * k)) lanes16),
   epi8 (map (fun k => vector_y prm RGB (p2 + 3 * k)) lanes16),
   epi8 (map (fun k => avg (vector_u prm RGB (p1 + 3 * k))
                           (vector_u prm RGB (p2 + 3 * k))) lanes16),
   epi8 (map (fun k => avg (vector_v prm RGB (p1 + 3 * k))
                           (vector_v prm RGB (p2 + 3 * k))) lanes16)).
Proof.
  unfold RGB2YUV_32_half, UNPACK_RGB24_32, UNPACK_RGB24_32_STEP1,
    UNPACK_RGB24_32_STEP2, LOAD_SI128.
  unfold RGB2YUV_16, RGB2YUV_16_row, vector_y, vector_u, vector_v, vector_byte,
    vector_lane, avg.
  unfold _mm_packus_epi16, _mm_srai_epi16, _mm_add_epi16, _mm_mullo_epi16,
    _mm_unpacklo_epi8, _mm_unpackhi_epi8, _mm_avg_epu8, _mm_set1_epi16,
    _mm_setzero_si128, lanes16.
  cbn -[Z.shiftr Z.shiftl Z.land Z.modulo Z.div to_uint16 to_int16 to_uint8
        saturate load8 Z.ltb Z.leb andb].
  rewrite !Z.add_0_r, <- !Z.add_assoc.
  cbn -[Z.shiftr Z.shiftl Z.land Z.modulo Z.div to_uint16 to_int16 to_uint8
        saturate load8 Z.ltb Z.leb andb].
  reflexivity.
Qed.

Lemma vertical_averages_are_bytes (g h : Z -> Z) :
  (forall k, is_byte (g k)) -> (forall k, is_byte (h k)) ->
  Forall is_byte (map (fun k => avg (g k) (h k)) lanes16).
Proof.
  intros Hg Hh. apply Forall_forall. intros x Hx.
  apply in_map_iff in Hx. destruct Hx as (k & <- & _). apply avg_byte; auto.
Qed.

(** One batch: the sixteen U and V bytes are the averages of averages. *)
Lemma RGB2YUV_32_chroma (c : fwd_cursor) (m : yuv_planes) (j : Z) :
  0 <= j < 16 ->
  U_plane (snd (RGB2YUV_32 prm RGB (c, m))) (f_u_ptr c + j)
  = block_average (vector_u prm RGB) (f_rgb_ptr1 c) (f_rgb_ptr2 c) j /\
  V_plane (snd (RGB2YUV_32 prm RGB (c, m))) (f_v_ptr c + j)
  = block_average (vector_v prm RGB) (f_rgb_ptr1 c) (f_rgb_ptr2 c) j.
Proof.
  intros Hj. unfold RGB2YUV_32. rewrite !RGB2YUV_32_half_lanes.
  cbn [snd U_plane V_plane].
  rewrite !horizontal_subsample_pairs
    by first [ reflexivity
             | apply vertical_averages_are_bytes; intros; apply saturate_range ].
  unfold SAVE_SI128, in_range, as_bytes.
  destruct (Z.leb_spec (f_u_ptr c) (f_u_ptr c + j)); [|lia].
  destruct (Z.ltb_spec (f_u_ptr c + j) (f_u_ptr c + 16)); [|lia].
  destruct (Z.leb_spec (f_v_ptr c) (f_v_ptr c + j)); [|lia].
  destruct (Z.ltb_spec (f_v_ptr c + j) (f_v_ptr c + 16)); [|lia].
  cbn [andb].
  replace (f_u_ptr c + j - f_u_ptr c) with j by lia.
  replace (f_v_ptr c + j - f_v_ptr c) with j by lia.
  unfold block_average, lanes16.
  assert (Hc : In j lanes16) by (unfold lanes16; cbn [In]; lia).
  unfold lanes16 in Hc. cbn [In] in Hc.
  repeat (destruct Hc as [<- | Hc];
          [ cbn -[avg vector_u vector_v]; rewrite <- ?Z.add_assoc;
            cbn -[avg vector_u vector_v]; split; reflexivity | ]).
  destruct Hc.
Qed.

Lemma RGB2YUV_32_cursor (c : fwd_cursor) (m : yuv_planes) :
  fst (RGB2YUV_32 prm RGB (c, m)) = fwd_advance c 16.
Proof.
  unfold RGB2YUV_32. rewrite !RGB2YUV_32_half_lanes. reflexivity.
Qed.

(** One batch, cell by cell. *)
Lemma RGB2YUV_32_U (c : fwd_cursor) (m : yuv_planes) (o : Z) :
  U_plane (snd (RGB2YUV_32 prm RGB (c, m))) o
  = if in_range (f_u_ptr c) (f_u_ptr c + 16) o
    then block_average (vector_u prm RGB) (f_rgb_ptr1 c) (f_rgb_ptr2 c)
                       (o - f_u_ptr c)
    else U_plane m o.
Proof.
  destruct (in_range (f_u_ptr c) (f_u_ptr c + 16) o) eqn:E.
  - unfold in_range in E. apply andb_prop in E. destruct E as (E1 & E2).
    apply Z.leb_le in E1. apply Z.ltb_lt in E2.
    replace o with (f_u_ptr c + (o - f_u_ptr c)) at 1 by lia.
    apply RGB2YUV_32_chroma. lia.
  - unfold RGB2YUV_32. rewrite !RGB2YUV_32_half_lanes.
    cbn [snd U_plane]. unfold SAVE_SI128 at 1. rewrite E. reflexivity.
Qed.

Lemma RGB2YUV_32_V (c : fwd_cursor) (m : yuv_planes) (o : Z) :
  V_plane (snd (RGB2YUV_32 prm RGB (c, m))) o
  = if in_range (f_v_ptr c) (f_v_ptr c + 16) o
    then block_average (vector_v prm RGB) (f_rgb_ptr1 c) (f_rgb_ptr2 c)
                       (o - f_v_ptr c)
    else V_plane m o.
Proof.
  destruct (in_range (f_v_ptr c) (f_v_ptr c + 16) o) eqn:E.
  - unfold in_range in E. apply andb_prop in E. destruct E as (E1 & E2).
    apply Z.leb_le in E1. apply Z.ltb_lt in E2.
    replace o with (f_v_ptr c + (o - f_v_ptr c)) at 1 by lia.
    apply RGB2YUV_32_chroma. lia.
  - unfold RGB2YUV_32. rewrite !RGB2YUV_32_half_lanes.
    cbn [snd V_plane]. unfold SAVE_SI128 at 1. rewrite E. reflexivity.
Qed.

Lemma block_average_shift (f : Z -> Z) (p1 p2 j d : Z) :
  block_average f (p1 + 6 * d) (p2 + 6 * d) (j - d) = block_average f p1 p2 j.
Proof. unfold block_average. do 3 f_equal; lia. Qed.

Lemma vec_row_cursor (n : nat) (c : fwd_cursor) (m : yuv_planes) :
  fst (vec_row prm RGB n c m) = fwd_advance c (16 * Z.of_nat n).
Proof.
  unfold vec_row. induction n as [|n IH].
  - cbn [iter_from fst]. unfold fwd_advance. destruct c.
    cbn [f_rgb_ptr1 f_rgb_ptr2 f_y_ptr1 f_y_ptr2 f_u_ptr f_v_ptr]. f_equal; lia.
  - rewrite iter_from_succ_r.
    destruct (iter_from _ _ n 0 (c, m)) as [c' m'] eqn:E. cbn [fst] in IH.
    rewrite RGB2YUV_32_cursor. subst c'. unfold fwd_advance.
    cbn [f_rgb_ptr1 f_rgb_ptr2 f_y_ptr1 f_y_ptr2 f_u_ptr f_v_ptr]. f_equal; lia.
Qed.

Lemma vec_row_U (n : nat) (c : fwd_cursor) (m : yuv_planes) (o : Z) :
  U_plane (snd (vec_row prm RGB n c m)) o
  = if in_range (f_u_ptr c) (f_u_ptr c + 16 * Z.of_nat n) o
    then block_average (vector_u prm RGB) (f_rgb_ptr1 c) (f_rgb_ptr2 c)
                       (o - f_u_ptr c)
    else U_plane m o.
Proof.
  induction n as [|n IH].
  - cbn. unfold in_range. zbool; try lia; reflexivity.
  - pose proof (vec_row_cursor n c m) as Hc. unfold vec_row in *.
    rewrite iter_from_succ_r.
    destruct (iter_from _ _ n 0 (c, m)) as [c' m'] eqn:E.
    cbn [fst snd] in *. subst c'.
    rewrite RGB2YUV_32_U, IH.
    unfold fwd_advance, in_range. cbn [f_u_ptr f_rgb_ptr1 f_rgb_ptr2].
    zbool; try lia; try reflexivity.
    replace (o - (f_u_ptr c + 16 * Z.of_nat n))
      with (o - f_u_ptr c - 16 * Z.of_nat n) by lia.
    apply block_average_shift.
Qed.

Lemma vec_row_V (n : nat) (c : fwd_cursor) (m : yuv_planes) (o : Z) :
  V_plane (snd (vec_row prm RGB n c m)) o
  = if in_range (f_v_ptr c) (f_v_ptr c + 16 * Z.of_nat n) o
    then block_average (vector_v prm RGB) (f_rgb_ptr1 c) (f_rgb_ptr2 c)
                       (o - f_v_ptr c)
    else V_plane m o.
Proof.
  induction n as [|n IH].
  - cbn. unfold in_range. zbool; try lia; reflexivity.
  - pose proof (vec_row_cursor n c m) as Hc. unfold vec_row in *.
    rewrite iter_from_succ_r.
    destruct (iter_from _ _ n 0 (c, m)) as [c' m'] eqn:E.
    cbn [fst snd] in *. subst c'.
    rewrite RGB2YUV_32_V, IH.
    unfold fwd_advance, in_range. cbn [f_v_ptr f_rgb_ptr1 f_rgb_ptr2].
    zbool; try lia; try reflexivity.
    replace (o - (f_v_ptr c + 16 * Z.of_nat n))
      with (o - f_v_ptr c - 16 * Z.of_nat n) by lia.
    apply block_average_shift.
Qed.

End VectorKernel.

(** On a width of at least one batch the inner loop completes. *)
Lemma rgb24_yuv420_sse_rows_complete (prm : vector_param) (fuel : nat)
    (width : Z) (RGB : plane) (RGB_stride Y_stride UV_stride y : Z)
    (m : yuv_planes) :
  31 <= width < 2 ^ 32 -> width < Z.of_nat fuel ->
  rgb24_yuv420_sse_rows prm fuel width RGB RGB_stride Y_stride UV_stride y m
  = Done (vec_pair prm width RGB RGB_stride Y_stride UV_stride y m).
Proof.
  intros Hw Hf. unfold rgb24_yuv420_sse_rows, vec_pair, vec_row.
  rewrite (for_u32_done (to_uint32 (width - 31)) 32 _
             (fun _ s => RGB2YUV_32 prm RGB s)
             (fun _ _ => eq_refl) (Z.to_nat (width / 32)));
    rewrite ?to_uint32_small by lia; try reflexivity; try lia.
  - rewrite Z2Nat.id by (Z.div_mod_to_equations; lia). Z.div_mod_to_equations; lia.
  - rewrite Z2Nat.id by (Z.div_mod_to_equations; lia). Z.div_mod_to_equations; lia.
  - assert (width / 32 <= width) by (Z.div_mod_to_equations; lia). lia.
Qed.

Section VectorImage.
Variable prm : vector_param.
Variables (width height : Z) (RGB : plane) (RGB_stride : Z) (Y U V : plane).
Variables (Y_stride UV_stride : Z).
Hypothesis G : geometry width height RGB_stride Y_stride UV_stride.
Hypothesis batches : width mod 32 = 0.

Lemma vec_pairs_post (n : nat) :
  Z.of_nat n <= height / 2 ->
  vec_post prm width (2 * Z.of_nat n) RGB RGB_stride U V UV_stride
           (vec_pairs prm width RGB RGB_stride Y U V Y_stride UV_stride n).
Proof.
  pose proof G as [Gw Gh Grs Gys Guvs Grz Gyz Guvz].
  assert (Hw2 : 0 <= width / 2 /\ 16 * (width / 32) = width / 2
                /\ width / 2 <= UV_stride)
    by (Z.div_mod_to_equations; lia).
  destruct Hw2 as (Hw0 & Hw32 & HwUV).
  assert (Hh2 : 2 * (height / 2) <= height) by (Z.div_mod_to_equations; lia).
  induction n as [|n IH]; intros Hn.
  - unfold vec_pairs. cbn [iter_from]. change (Z.of_nat 0) with 0.
    split; cbn [U_plane V_plane]; intros;
      try reflexivity; exfalso; Z.div_mod_to_equations; lia.
  - specialize (IH ltac:(lia)). destruct IH as [IU IV FU FV].
    replace (2 * Z.of_nat n / 2) with (Z.of_nat n) in *
      by (Z.div_mod_to_equations; lia).
    unfold vec_pairs in *. rewrite iter_from_succ_r.
    set (m := iter_from 2 _ n 0 _) in *.
    replace (0 + 2 * Z.of_nat n) with (2 * Z.of_nat n) by lia.
    unfold vec_pair.
    rewrite (fwd_row_start_even width height RGB_stride Y_stride UV_stride G)
      by lia.
    set (k := Z.of_nat n) in *.
    assert (Hdiv : 2 * Z.of_nat (S n) / 2 = k + 1)
      by (subst k; Z.div_mod_to_equations; lia).
    assert (Hn32 : 0 <= width / 32) by (Z.div_mod_to_equations; lia).
    split; rewrite Hdiv.
    + intros i j Hi Hj. rewrite vec_row_U.
      cbn [f_u_ptr f_rgb_ptr1 f_rgb_ptr2]. rewrite Z2Nat.id, Hw32 by lia.
      unfold in_range.
      assert (i < k \/ i = k) as [Hlt | ->] by lia.
      * pose proof (row_cell_lt UV_stride (width / 2) i k j
                      ltac:(lia) ltac:(lia) Hlt).
        zbool; try lia. apply IU; lia.
      * zbool; try lia. f_equal; lia.
    + intros i j Hi Hj. rewrite vec_row_V.
      cbn [f_v_ptr f_rgb_ptr1 f_rgb_ptr2]. rewrite Z2Nat.id, Hw32 by lia.
      unfold in_range.
      assert (i < k \/ i = k) as [Hlt | ->] by lia.
      * pose proof (row_cell_lt UV_stride (width / 2) i k j
                      ltac:(lia) ltac:(lia) Hlt).
        zbool; try lia. apply IV; lia.
      * zbool; try lia. f_equal; lia.
    + intros o Ho. rewrite vec_row_U.
      cbn [f_u_ptr f_rgb_ptr1 f_rgb_ptr2]. rewrite Z2Nat.id, Hw32 by lia.
      unfold in_range.
      zbool; try (exfalso; apply Ho; exists k, (o - k * UV_stride); lia).
      all: apply FU; intros (i & j & Hi & Hj & ->); apply Ho; exists i, j; lia.
    + intros o Ho. rewrite vec_row_V.
      cbn [f_v_ptr f_rgb_ptr1 f_rgb_ptr2]. rewrite Z2Nat.id, Hw32 by lia.
      unfold in_range.
      zbool; try (exfalso; apply Ho; exists k, (o - k * UV_stride); lia).
      all: apply FV; intros (i & j & Hi & Hj & ->); apply Ho; exists i, j; lia.
Qed.

(** With enough fuel the vectorised conversion completes, and leaves
    [vec_post]. *)
Lemma rgb24_yuv420_sseu_post (fuel : nat) :
  width < Z.of_nat fuel -> height < Z.of_nat fuel ->
  exists m,
    for_u32 fuel (to_uint32 (height - 1)) 2
      (rgb24_yuv420_sse_rows prm fuel width RGB RGB_stride Y_stride UV_stride)
      0 (mk_yuv Y U V) = Done m /\
    vec_post prm width height RGB RGB_stride U V UV_stride m.
Proof.
  intros Hfw Hfh. pose proof G as [Gw Gh Grs Gys Guvs Grz Gyz Guvz].
  assert (Hh2 : 0 <= height / 2 /\ 2 * (height / 2) <= height)
    by (Z.div_mod_to_equations; lia).
  assert (Hw31 : 31 <= width) by (Z.div_mod_to_equations; lia).
  exists (vec_pairs prm width RGB RGB_stride Y U V Y_stride UV_stride
            (Z.to_nat (height / 2))). split.
  - unfold vec_pairs.
    apply for_u32_done;
      rewrite ?to_uint32_small, ?Z2Nat.id by lia;
      try (intros; apply rgb24_yuv420_sse_rows_complete); try lia;
      try (Z.div_mod_to_equations; lia).
  - pose proof (vec_pairs_post (Z.to_nat (height / 2))) as P.
    rewrite Z2Nat.id in P by lia. specialize (P ltac:(lia)).
    destruct P as [IU IV FU FV].
    replace (2 * (height / 2) / 2) with (height / 2) in *
      by (Z.div_mod_to_equations; lia).
    split; assumption.
Qed.

End VectorImage.

Lemma avg_between (a b c d : Z) :
  Z.shiftr (a + b + c + d) 2 <= avg (avg a c) (avg b d)
  <= Z.shiftr (a + b + c + d) 2 + 1.
Proof.
  unfold avg. rewrite !shiftr_div by lia.
  change (2 ^ 1) with 2. change (2 ^ 2) with 4. div_lia.
Qed.

(** X17: on an image whose width is a multiple of 32 the vectorised forward
    path completes, whatever the values of the undeclared fields, and the U
    (resp. V) byte of every 2x2 block is the rounding average
    avg(avg(top-right, bottom-right), avg(top-left, bottom-left)), with
    avg(a,b) = (a+b+1)>>1, of the four packed per-pixel chroma bytes: never
    less than the truncated quarter of their sum and at most one more. *)
Lemma X17_vector_chroma_is_a_rounding_average :
  forall (table : YCbCrType -> vector_param) (yuv_type : YCbCrType)
         (width height : Z) (RGB : plane) (RGB_stride : Z) (Y U V : plane)
         (Y_stride UV_stride : Z) (fuel : nat),
    geometry width height RGB_stride Y_stride UV_stride ->
    width mod 32 = 0 ->
    width < Z.of_nat fuel -> height < Z.of_nat fuel ->
    exists m,
      rgb24_yuv420_sseu table fuel width height RGB RGB_stride Y U V Y_stride
                        UV_stride yuv_type = Done m /\
      forall i j, 0 <= i < height / 2 -> 0 <= j < width / 2 ->
        let u r c := vector_u (table yuv_type) RGB (r * RGB_stride + 3 * c) in
        let v r c := vector_v (table yuv_type) RGB (r * RGB_stride + 3 * c) in
        let top := 2 * i in
        let bottom := 2 * i + 1 in
        let left := 2 * j in
        let right := 2 * j + 1 in
        let Ub := U_plane m (i * UV_stride + j) in
        let Vb := V_plane m (i * UV_stride + j) in
        Ub = avg (avg (u top right) (u bottom right))
                 (avg (u top left) (u bottom left)) /\
        Vb = avg (avg (v top right) (v bottom right))
                 (avg (v top left) (v bottom left)) /\
        Z.shiftr (u top right + u top left + u bottom right + u bottom left) 2
          <= Ub
          <= Z.shiftr (u top right + u top left + u bottom right
                       + u bottom left) 2 + 1 /\
        Z.shiftr (v top right + v top left + v bottom right + v bottom left) 2
          <= Vb
          <= Z.shiftr (v top right + v top left + v bottom right
                       + v bottom left) 2 + 1.
Proof.
  intros table yuv_type width height RGB RGB_stride Y U V Y_stride UV_stride
    fuel G Hb Hw Hh.
  destruct (rgb24_yuv420_sseu_post (table yuv_type) width height RGB RGB_stride
              Y U V Y_stride UV_stride G Hb fuel Hw Hh) as (m & Hm & [PU PV _ _]).
  exists m. split; [exact Hm|].
  intros i j Hi Hj u v top bottom left right Ub Vb.
  assert (EU : Ub = avg (avg (u top right) (u bottom right))
                        (avg (u top left) (u bottom left)))
    by (subst Ub; rewrite (PU i j Hi Hj); reflexivity).
  assert (EV : Vb = avg (avg (v top right) (v bottom right))
                        (avg (v top left) (v bottom left)))
    by (subst Vb; rewrite (PV i j Hi Hj); reflexivity).
  split; [exact EU|]. split; [exact EV|].
  rewrite EU, EV. split; apply avg_between.
Qed.

Lemma X17_vector_chroma_is_a_rounding_average_witness :
  let table := fun _ : YCbCrType =>
                 mk_vector_param (fun i j => if i =? j then 1 else 0) 0 0 in
  exists m,
    rgb24_yuv420_sseu table 3 32 2 image_one_blue3 96 (const_plane 0)
                      (const_plane 0) (const_plane 0) 32 16 YCBCR_601 = Done m /\
    map (U_plane m) [0; 1; 15; 16] = [128; 128; 128; 0] /\
    map (V_plane m) [0; 1; 15; 16] = [129; 128; 128; 0].
Proof.
  intros table.
  destruct (X17_vector_chroma_is_a_rounding_average table YCBCR_601 32 2
              image_one_blue3 96 (const_plane 0) (const_plane 0)
              (const_plane 0) 32 16 33%nat) as (m & Hm & _).
  - constructor; vm_compute; intuition discriminate.
  - reflexivity.
  - vm_compute. reflexivity.
  - vm_compute. reflexivity.
  - exists m. split; [exact Hm|].
    apply (f_equal state_of) in Hm. cbn [state_of] in Hm. subst m.
    vm_compute. split; reflexivity.
Defined.

(** * Further properties

    Unless a statement says otherwise, a call is within [geometry]: an image
    of at least one pixel, row pitches at least the tight packing, planes
    within the 32-bit offsets the code computes; and the fuel exceeds the
    width and the height, so that the conversion completes. *)

Lemma grey_values (yuv_type : YCbCrType) (v : Z) :
  is_byte v ->
  let p := RGB2YUV yuv_type in
  pseudo_luma p v v v = v /\
  chroma_u p v v v = 128 /\
  chroma_v p v v v = 128 /\
  digital_luma p v v v
  = Z.shiftr (v * RGB2YUVParam.y_factor p) 7 + RGB2YUVParam.y_offset p.
Proof.
  intros Hv p. unfold is_byte in Hv.
  assert (E : pseudo_luma p v v v = v).
  { subst p. unfold pseudo_luma. forward_table yuv_type;
      rewrite shiftr_div by lia; change (2 ^ 8) with 256; div_lia. }
  unfold chroma_u, chroma_v, digital_luma. rewrite E, Z.sub_diag.
  repeat split; reflexivity.
Qed.

Lemma grey_pixel_at (RGB : plane) (RGB_stride r c : Z) (g : Z -> Z -> Z -> Z) :
  grey_pixel RGB RGB_stride r c ->
  at_pixel g RGB RGB_stride r c
  = g (red RGB RGB_stride r c) (red RGB RGB_stride r c) (red RGB RGB_stride r c).
Proof. intros (E1 & E2). unfold at_pixel. rewrite <- E2, <- E1. reflexivity. Qed.

(** The four pixels of a block, by their offsets from its corner. *)
Lemma block_pixels (P : Z -> Z -> Prop) (i j : Z) :
  (forall dr dc, 0 <= dr <= 1 -> 0 <= dc <= 1 -> P (2 * i + dr) (2 * j + dc)) ->
  P (2 * i) (2 * j) /\ P (2 * i) (2 * j + 1) /\
  P (2 * i + 1) (2 * j) /\ P (2 * i + 1) (2 * j + 1).
Proof.
  intros H.
  pose proof (H 0 0 ltac:(lia) ltac:(lia)) as H00.
  pose proof (H 0 1 ltac:(lia) ltac:(lia)) as H01.
  pose proof (H 1 0 ltac:(lia) ltac:(lia)) as H10.
  pose proof (H 1 1 ltac:(lia) ltac:(lia)) as H11.
  rewrite !Z.add_0_r in *. auto.
Qed.

Lemma grey_block_chroma (yuv_type : YCbCrType) (RGB : plane)
    (RGB_stride i j : Z) :
  grey_block RGB RGB_stride i j ->
  let p := RGB2YUV yuv_type in
  Z.shiftr (block_sum (chroma_u p) RGB RGB_stride i j) 2 = 128 /\
  Z.shiftr (block_sum (chroma_v p) RGB RGB_stride i j) 2 = 128.
Proof.
  intros Hg p. apply block_pixels in Hg. destruct Hg as (H00 & H01 & H10 & H11).
  unfold block_sum.
  rewrite !(grey_pixel_at _ _ _ _ _ H00), !(grey_pixel_at _ _ _ _ _ H01),
    !(grey_pixel_at _ _ _ _ _ H10), !(grey_pixel_at _ _ _ _ _ H11).
  subst p.
  repeat match goal with
         | |- context [chroma_u ?p (red ?a ?b ?c ?d) _ _] =>
             rewrite (proj1 (proj2 (grey_values yuv_type (red a b c d)
                                      (load8_range _ _))))
         | |- context [chroma_v ?p (red ?a ?b ?c ?d) _ _] =>
             rewrite (proj1 (proj2 (proj2 (grey_values yuv_type (red a b c d)
                                             (load8_range _ _)))))
         end.
  split; reflexivity.
Qed.

(** X1: in a completed forward conversion, for each of the three
    standards, a 2x2 block whose four pixels are grey (R = G = B at each
    pixel, not necessarily the same level at the four) gets U = V = 128,
    and each of its pixels, of level v, gets the luma byte
    Y = (v * y_factor >> 7) + y_offset. *)
Theorem X1_grey_pixels_have_neutral_chroma :
  forall (yuv_type : YCbCrType) (width height : Z) (RGB : plane)
         (RGB_stride : Z) (Y U V : plane) (Y_stride UV_stride : Z) (fuel : nat)
         (i j : Z),
    geometry width height RGB_stride Y_stride UV_stride ->
    width < Z.of_nat fuel -> height < Z.of_nat fuel ->
    0 <= i < height / 2 -> 0 <= j < width / 2 ->
    grey_block RGB RGB_stride i j ->
    let p := RGB2YUV yuv_type in
    exists m,
      rgb24_yuv420_std fuel width height RGB RGB_stride Y U V Y_stride UV_stride
                       yuv_type = Done m /\
      U_plane m (i * UV_stride + j) = 128 /\
      V_plane m (i * UV_stride + j) = 128 /\
      forall dr dc, 0 <= dr <= 1 -> 0 <= dc <= 1 ->
        Y_plane m ((2 * i + dr) * Y_stride + (2 * j + dc))
        = Z.shiftr (red RGB RGB_stride (2 * i + dr) (2 * j + dc)
                    * RGB2YUVParam.y_factor p) 7
          + RGB2YUVParam.y_offset p.
Proof.
  intros yuv_type width height RGB RGB_stride Y U V Y_stride UV_stride fuel i j
    G Hw Hh Hi Hj Hg p.
  destruct (rgb24_yuv420_std_post p width height RGB RGB_stride Y U V
              Y_stride UV_stride G fuel Hw Hh) as (m & Hm & P).
  exists m. split; [exact Hm|].
  rewrite (fwd_post_U _ _ _ _ _ _ _ _ _ _ _ P i j Hi Hj).
  rewrite (fwd_post_V _ _ _ _ _ _ _ _ _ _ _ P i j Hi Hj).
  destruct (fwd_block_exact yuv_type RGB RGB_stride i j) as (EU & EV).
  fold p in EU, EV. rewrite EU, EV.
  destruct (grey_block_chroma yuv_type RGB RGB_stride i j Hg) as (CU & CV).
  fold p in CU, CV.
  split; [exact CU|]. split; [exact CV|].
  intros dr dc Hdr Hdc.
  assert (Hh2 : 2 * (height / 2) <= height) by (Z.div_mod_to_equations; lia).
  rewrite (fwd_post_Y _ _ _ _ _ _ _ _ _ _ _ P (2 * i + dr) (2 * j + dc)) by lia.
  destruct (fwd_values_exact yuv_type RGB
              ((2 * i + dr) * RGB_stride + 3 * (2 * j + dc))) as (EY & _).
  fold p in EY. rewrite EY.
  pose proof (grey_pixel_at RGB RGB_stride _ _ (digital_luma p) (Hg dr dc Hdr Hdc))
    as E.
  unfold at_pixel, red, green, blue in E. rewrite E.
  apply (grey_values yuv_type). apply load8_range.
Qed.

Lemma X1_grey_pixels_have_neutral_chroma_witness :
  let RGB := plane_of_list [10; 10; 10; 200; 200; 200; 31; 31; 31; 77; 77; 77] in
  exists m,
    rgb24_yuv420_std 3 2 2 RGB 6 (const_plane 0) (const_plane 0) (const_plane 0)
                     2 1 YCBCR_709 = Done m /\
    U_plane m 0 = 128 /\ V_plane m 0 = 128 /\
    map (Y_plane m) [0; 1; 2; 3] = [24; 187; 42; 82].
Proof.
  intros RGB.
  destruct (X1_grey_pixels_have_neutral_chroma YCBCR_709 2 2 RGB 6 (const_plane 0)
              (const_plane 0) (const_plane 0) 2 1 3%nat 0 0)
    as (m & Hm & HU & HV & HY).
  - constructor; vm_compute; intuition discriminate.
  - vm_compute. reflexivity.
  - vm_compute. reflexivity.
  - vm_compute. intuition discriminate.
  - vm_compute. intuition discriminate.
  - intros dr dc Hdr Hdc.
    assert (dr = 0 \/ dr = 1) as [-> | ->] by lia;
      (assert (dc = 0 \/ dc = 1) as [-> | ->] by lia); split; reflexivity.
  - exists m. split; [exact Hm|]. split; [exact HU|]. split; [exact HV|].
    apply (f_equal state_of) in Hm. cbn [state_of] in Hm. subst m.
    vm_compute. reflexivity.
Defined.

Lemma unclamped_neutral (q : YUV2RGBParam.t) (Yv ch : Z) :
  unclamped q Yv 128 128 ch = full_range_luma q Yv.
Proof.
  unfold unclamped, r_offset, g_offset, b_offset.
  rewrite Z.sub_diag, !Z.mul_0_r, Z.add_0_r, Z.shiftr_0_l.
  destruct (ch =? 0); [|destruct (ch =? 1)]; lia.
Qed.

(** X2: in a completed inverse conversion, for each of the three
    standards, a 2x2 block whose chroma samples are U = V = 128 gets four
    grey pixels: the three bytes of each are
    saturate((y_factor * (Y - y_offset)) >> 7), for its own luma sample Y. *)
Theorem X2_neutral_chroma_gives_grey_pixels :
  forall (yuv_type : YCbCrType) (width height : Z) (Y U V : plane)
         (Y_stride UV_stride : Z) (RGB : plane) (RGB_stride : Z) (fuel : nat)
         (i j : Z),
    geometry width height RGB_stride Y_stride UV_stride ->
    width < Z.of_nat fuel -> height < Z.of_nat fuel ->
    0 <= i < height / 2 -> 0 <= j < width / 2 ->
    load8 U (i * UV_stride + j) = 128 -> load8 V (i * UV_stride + j) = 128 ->
    exists out,
      yuv420_rgb24_std fuel width height Y U V Y_stride UV_stride RGB RGB_stride
                       yuv_type = Done out /\
      forall dr dc ch, 0 <= dr <= 1 -> 0 <= dc <= 1 -> 0 <= ch < 3 ->
        out ((2 * i + dr) * RGB_stride + 3 * (2 * j + dc) + ch)
        = saturate (full_range_luma (YUV2RGB yuv_type)
                      (load8 Y ((2 * i + dr) * Y_stride + (2 * j + dc)))).
Proof.
  intros yuv_type width height Y U V Y_stride UV_stride RGB RGB_stride fuel i j
    G Hw Hh Hi Hj HU HV.
  destruct (yuv420_rgb24_std_post (YUV2RGB yuv_type) width height Y U V
              Y_stride UV_stride RGB RGB_stride G fuel Hw Hh)
    as (out & Hout & [IR FR]).
  exists out. split; [exact Hout|]. intros dr dc ch Hdr Hdc Hch.
  rewrite IR by lia. rewrite inv_channel_exact.
  replace ((2 * i + dr) / 2) with i by (Z.div_mod_to_equations; lia).
  replace ((2 * j + dc) / 2) with j by (Z.div_mod_to_equations; lia).
  rewrite HU, HV. apply f_equal, unclamped_neutral.
Qed.

Lemma X2_neutral_chroma_gives_grey_pixels_witness :
  let Y := plane_of_list [16; 235; 100; 3] in
  exists out,
    yuv420_rgb24_std 3 2 2 Y (const_plane 128) (const_plane 128) 2 1
                     (const_plane 7) 6 YCBCR_601 = Done out /\
    map out [0; 1; 2; 3; 4; 5; 6; 7; 8; 9; 10; 11; 12]
    = [0; 0; 0; 254; 254; 254; 97; 97; 97; 0; 0; 0; 7].
Proof.
  intros Y.
  destruct (X2_neutral_chroma_gives_grey_pixels YCBCR_601 2 2 Y (const_plane 128)
              (const_plane 128) 2 1 (const_plane 7) 6 3%nat 0 0)
    as (out & Hout & _).
  - constructor; vm_compute; intuition discriminate.
  - vm_compute. reflexivity.
  - vm_compute. reflexivity.
  - vm_compute. intuition discriminate.
  - vm_compute. intuition discriminate.
  - reflexivity.
  - reflexivity.
  - exists out. split; [exact Hout|].
    apply (f_equal state_of) in Hout. cbn [state_of] in Hout. subst out.
    vm_compute. reflexivity.
Defined.

(** ** Round trips *)

Lemma to_uint8_idem (x : Z) : to_uint8 (to_uint8 x) = to_uint8 x.
Proof. apply to_uint8_small, to_uint8_range. Qed.

(** A forward conversion followed by the inverse conversion of its three
    planes: both complete, and every byte of the result is the saturated
    inverse formula applied to the forward values of its pixel and block. *)
Lemma round_trip_values (yuv_type : YCbCrType) (width height : Z) (RGB : plane)
    (RGB_stride : Z) (Y U V : plane) (Y_stride UV_stride : Z) (RGB' : plane)
    (fuel : nat) :
  geometry width height RGB_stride Y_stride UV_stride ->
  width < Z.of_nat fuel -> height < Z.of_nat fuel ->
  let p := RGB2YUV yuv_type in
  let q := YUV2RGB yuv_type in
  exists m out,
    rgb24_yuv420_std fuel width height RGB RGB_stride Y U V Y_stride UV_stride
                     yuv_type = Done m /\
    yuv420_rgb24_std fuel width height (Y_plane m) (U_plane m) (V_plane m)
                     Y_stride UV_stride RGB' RGB_stride yuv_type = Done out /\
    forall i j dr dc ch,
      0 <= i < height / 2 -> 0 <= j < width / 2 ->
      0 <= dr <= 1 -> 0 <= dc <= 1 -> 0 <= ch < 3 ->
      out ((2 * i + dr) * RGB_stride + 3 * (2 * j + dc) + ch)
      = saturate
          (unclamped q
             (at_pixel (digital_luma p) RGB RGB_stride (2 * i + dr) (2 * j + dc))
             (Z.shiftr (block_sum (chroma_u p) RGB RGB_stride i j) 2)
             (Z.shiftr (block_sum (chroma_v p) RGB RGB_stride i j) 2) ch).
Proof.
  intros G Hw Hh p q.
  destruct (rgb24_yuv420_std_post p width height RGB RGB_stride Y U V
              Y_stride UV_stride G fuel Hw Hh) as (m & Hm & P).
  destruct (yuv420_rgb24_std_post q width height (Y_plane m) (U_plane m)
              (V_plane m) Y_stride UV_stride RGB' RGB_stride G fuel Hw Hh)
    as (out & Hout & [IR FR]).
  exists m, out. split; [exact Hm|]. split; [exact Hout|].
  intros i j dr dc ch Hi Hj Hdr Hdc Hch.
  assert (Hh2 : 2 * (height / 2) <= height) by (Z.div_mod_to_equations; lia).
  rewrite IR by lia. subst q. rewrite inv_channel_exact.
  replace ((2 * i + dr) / 2) with i by (Z.div_mod_to_equations; lia).
  replace ((2 * j + dc) / 2) with j by (Z.div_mod_to_equations; lia).
  unfold load8.
  rewrite (fwd_post_Y _ _ _ _ _ _ _ _ _ _ _ P (2 * i + dr) (2 * j + dc)) by lia.
  rewrite (fwd_post_U _ _ _ _ _ _ _ _ _ _ _ P i j Hi Hj).
  rewrite (fwd_post_V _ _ _ _ _ _ _ _ _ _ _ P i j Hi Hj).
  unfold fwd_luma_at at 1, fwd_block_u at 1, fwd_block_v at 1,
    fwd_accumulate at 1 2.
  rewrite !to_uint8_idem.
  fold (fwd_luma_at p RGB ((2 * i + dr) * RGB_stride + 3 * (2 * j + dc))).
  change (to_uint8 (Z.shiftr (to_uint16 (to_uint16 (to_uint16 (to_uint16 ?a + ?b) + ?c) + ?d)) 2))
    with (fwd_accumulate a b c d).
  fold (fwd_block_u p RGB (2 * i * RGB_stride + 6 * j)
                    ((2 * i + 1) * RGB_stride + 6 * j)).
  fold (fwd_block_v p RGB (2 * i * RGB_stride + 6 * j)
                    ((2 * i + 1) * RGB_stride + 6 * j)).
  destruct (fwd_block_exact yuv_type RGB RGB_stride i j) as (EU & EV).
  fold p in EU, EV. rewrite EU, EV.
  destruct (fwd_values_exact yuv_type RGB
              ((2 * i + dr) * RGB_stride + 3 * (2 * j + dc))) as (EY & _).
  fold p in EY. rewrite EY.
  reflexivity.
Qed.

(** The inverse luma rescaling undoes the forward one up to [grey_loss]. *)
Lemma luma_round_trip (yuv_type : YCbCrType) (v : Z) :
  is_byte v ->
  let p := RGB2YUV yuv_type in
  let q := YUV2RGB yuv_type in
  v - grey_loss yuv_type
  <= saturate (full_range_luma q
                 (Z.shiftr (v * RGB2YUVParam.y_factor p) 7
                  + RGB2YUVParam.y_offset p))
  <= v.
Proof.
  intros Hv p q. subst p q. unfold is_byte, saturate, full_range_luma in *.
  destruct yuv_type;
    [ rewrite (proj1 RGB2YUV_values), (proj1 YUV2RGB_values)
    | rewrite (proj1 (proj2 RGB2YUV_values)), (proj1 (proj2 YUV2RGB_values))
    | rewrite (proj2 (proj2 RGB2YUV_values)), (proj2 (proj2 YUV2RGB_values)) ];
    cbn [RGB2YUVParam.y_factor RGB2YUVParam.y_offset YUV2RGBParam.y_factor
         YUV2RGBParam.y_offset grey_loss];
    rewrite !shiftr_div by lia; change (2 ^ 7) with 128; div_lia.
Qed.

(** X3: a forward conversion followed by the inverse conversion of the
    three planes it wrote gives back, at each pixel of a grey 2x2 block and
    in each channel, a byte that is never above the original level v and
    at most [grey_loss] below it: 2 levels under BT601 and BT709, none
    under JPEG, where the round trip of a grey pixel is exact. *)
Theorem X3_grey_survives_a_round_trip :
  forall (yuv_type : YCbCrType) (width height : Z) (RGB : plane)
         (RGB_stride : Z) (Y U V : plane) (Y_stride UV_stride : Z)
         (RGB' : plane) (fuel : nat) (i j : Z),
    geometry width height RGB_stride Y_stride UV_stride ->
    width < Z.of_nat fuel -> height < Z.of_nat fuel ->
    0 <= i < height / 2 -> 0 <= j < width / 2 ->
    grey_block RGB RGB_stride i j ->
    exists m out,
      rgb24_yuv420_std fuel width height RGB RGB_stride Y U V Y_stride UV_stride
                       yuv_type = Done m /\
      yuv420_rgb24_std fuel width height (Y_plane m) (U_plane m) (V_plane m)
                       Y_stride UV_stride RGB' RGB_stride yuv_type = Done out /\
      forall dr dc ch, 0 <= dr <= 1 -> 0 <= dc <= 1 -> 0 <= ch < 3 ->
        let v := red RGB RGB_stride (2 * i + dr) (2 * j + dc) in
        let v' := out ((2 * i + dr) * RGB_stride + 3 * (2 * j + dc) + ch) in
        v - grey_loss yuv_type <= v' <= v /\
        (yuv_type = YCBCR_JPEG -> v' = v).
Proof.
  intros yuv_type width height RGB RGB_stride Y U V Y_stride UV_stride RGB' fuel
    i j G Hw Hh Hi Hj Hg.
  destruct (round_trip_values yuv_type width height RGB RGB_stride Y U V
              Y_stride UV_stride RGB' fuel G Hw Hh) as (m & out & Hm & Hout & E).
  exists m, out. split; [exact Hm|]. split; [exact Hout|].
  intros dr dc ch Hdr Hdc Hch v v'.
  assert (Hv' : v - grey_loss yuv_type <= v' <= v).
  { subst v'. rewrite (E i j dr dc ch Hi Hj Hdr Hdc Hch).
    destruct (grey_block_chroma yuv_type RGB RGB_stride i j Hg) as (-> & ->).
    rewrite unclamped_neutral.
    rewrite (grey_pixel_at _ _ _ _ _ (Hg dr dc Hdr Hdc)). fold v.
    assert (Bv : is_byte v) by apply load8_range.
    rewrite (proj2 (proj2 (proj2 (grey_values yuv_type v Bv)))).
    apply luma_round_trip, Bv. }
  split; [exact Hv'|]. intros ->. cbn [grey_loss] in Hv'. lia.
Qed.

Lemma X3_grey_survives_a_round_trip_witness :
  let RGB := plane_of_list [10; 10; 10; 200; 200; 200; 31; 31; 31; 255; 255; 255] in
  exists m out,
    rgb24_yuv420_std 3 2 2 RGB 6 (const_plane 0) (const_plane 0) (const_plane 0)
                     2 1 YCBCR_601 = Done m /\
    yuv420_rgb24_std 3 2 2 (Y_plane m) (U_plane m) (V_plane m) 2 1
                     (const_plane 0) 6 YCBCR_601 = Done out /\
    map out [0; 1; 2; 3; 4; 5; 6; 7; 8; 9; 10; 11]
    = [9; 9; 9; 199; 199; 199; 30; 30; 30; 254; 254; 254].
Proof.
  intros RGB.
  destruct (X3_grey_survives_a_round_trip YCBCR_601 2 2 RGB 6 (const_plane 0)
              (const_plane 0) (const_plane 0) 2 1 (const_plane 0) 3%nat 0 0)
    as (m & out & Hm & Hout & _).
  - constructor; vm_compute; intuition discriminate.
  - vm_compute. reflexivity.
  - vm_compute. reflexivity.
  - vm_compute. intuition discriminate.
  - vm_compute. intuition discriminate.
  - intros dr dc Hdr Hdc.
    assert (dr = 0 \/ dr = 1) as [-> | ->] by lia;
      (assert (dc = 0 \/ dc = 1) as [-> | ->] by lia); split; reflexivity.
  - exists m, out. split; [exact Hm|]. split; [exact Hout|].
    apply (f_equal state_of) in Hm, Hout. cbn [state_of] in Hm, Hout.
    subst out m. vm_compute. reflexivity.
Defined.

Lemma uniform_block_sums (RGB : plane) (RGB_stride i j R G B : Z)
    (g : Z -> Z -> Z -> Z) :
  uniform_block RGB RGB_stride i j R G B ->
  block_sum g RGB RGB_stride i j = 4 * g R G B.
Proof.
  intros Hu. pose proof (uniform_block_pixels _ _ _ _ _ _ _ Hu g) as Hp.
  apply (block_pixels (fun r c => at_pixel g RGB RGB_stride r c = g R G B))
    in Hp.
  destruct Hp as (H00 & H01 & H10 & H11).
  unfold block_sum. rewrite H00, H01, H10, H11. lia.
Qed.

(** What a colour becomes when it goes through the forward formulas and
    back through the inverse ones. *)
Lemma flat_colour_bounds (yuv_type : YCbCrType) (R G B : Z) :
  is_byte R -> is_byte G -> is_byte B ->
  let p := RGB2YUV yuv_type in
  let q := YUV2RGB yuv_type in
  let back ch := saturate (unclamped q (digital_luma p R G B)
                             (chroma_u p R G B) (chroma_v p R G B) ch) in
  R - 5 <= back 0 <= R /\ G - 4 <= back 1 <= G + 2 /\ B - 5 <= back 2 <= B + 1.
Proof.
  intros HR HG HB p q back. subst p q back.
  unfold is_byte, saturate, unclamped, full_range_luma, r_offset, g_offset,
    b_offset, digital_luma, chroma_u, chroma_v, pseudo_luma in *.
  cbn [Z.eqb Pos.eqb].
  destruct yuv_type;
    [ rewrite (proj1 RGB2YUV_values), (proj1 YUV2RGB_values)
    | rewrite (proj1 (proj2 RGB2YUV_values)), (proj1 (proj2 YUV2RGB_values))
    | rewrite (proj2 (proj2 RGB2YUV_values)), (proj2 (proj2 YUV2RGB_values)) ];
    cbn [RGB2YUVParam.r_factor RGB2YUVParam.g_factor RGB2YUVParam.b_factor
         RGB2YUVParam.cb_factor RGB2YUVParam.cr_factor RGB2YUVParam.y_factor
         RGB2YUVParam.y_offset
         YUV2RGBParam.cb_factor YUV2RGBParam.cr_factor YUV2RGBParam.g_cb_factor
         YUV2RGBParam.g_cr_factor YUV2RGBParam.y_factor YUV2RGBParam.y_offset];
    rewrite !shiftr_div by lia;
    change (2 ^ 8) with 256; change (2 ^ 7) with 128; change (2 ^ 6) with 64;
    repeat split; div_lia.
Qed.

(** X4: a forward conversion followed by the inverse conversion of the
    three planes it wrote gives back, at each pixel of a 2x2 block filled
    with one colour (R, G, B), a colour (R', G', B') within a few levels of
    it, for each of the three standards: R - 5 <= R' <= R,
    G - 4 <= G' <= G + 2 and B - 5 <= B' <= B + 1. *)
Theorem X4_flat_colour_survives_a_round_trip :
  forall (yuv_type : YCbCrType) (width height : Z) (RGB : plane)
         (RGB_stride : Z) (Y U V : plane) (Y_stride UV_stride : Z)
         (RGB' : plane) (fuel : nat) (i j R G B : Z),
    geometry width height RGB_stride Y_stride UV_stride ->
    width < Z.of_nat fuel -> height < Z.of_nat fuel ->
    0 <= i < height / 2 -> 0 <= j < width / 2 ->
    uniform_block RGB RGB_stride i j R G B ->
    exists m out,
      rgb24_yuv420_std fuel width height RGB RGB_stride Y U V Y_stride UV_stride
                       yuv_type = Done m /\
      yuv420_rgb24_std fuel width height (Y_plane m) (U_plane m) (V_plane m)
                       Y_stride UV_stride RGB' RGB_stride yuv_type = Done out /\
      forall dr dc, 0 <= dr <= 1 -> 0 <= dc <= 1 ->
        let o := (2 * i + dr) * RGB_stride + 3 * (2 * j + dc) in
        R - 5 <= out o <= R /\
        G - 4 <= out (o + 1) <= G + 2 /\
        B - 5 <= out (o + 2) <= B + 1.
Proof.
  intros yuv_type width height RGB RGB_stride Y U V Y_stride UV_stride RGB' fuel
    i j R G B G0 Hw Hh Hi Hj Hu.
  destruct (round_trip_values yuv_type width height RGB RGB_stride Y U V
              Y_stride UV_stride RGB' fuel G0 Hw Hh) as (m & out & Hm & Hout & E).
  exists m, out. split; [exact Hm|]. split; [exact Hout|].
  intros dr dc Hdr Hdc o.
  pose proof (E i j dr dc 0 Hi Hj Hdr Hdc ltac:(lia)) as E0.
  pose proof (E i j dr dc 1 Hi Hj Hdr Hdc ltac:(lia)) as E1.
  pose proof (E i j dr dc 2 Hi Hj Hdr Hdc ltac:(lia)) as E2.
  rewrite Z.add_0_r in E0. fold o in E0, E1, E2.
  rewrite !(uniform_block_sums _ _ _ _ _ _ _ _ Hu) in E0, E1, E2.
  rewrite (uniform_block_pixels _ _ _ _ _ _ _ Hu _ dr dc Hdr Hdc) in E0, E1, E2.
  assert (Hq : forall x, Z.shiftr (4 * x) 2 = x).
  { intros x. rewrite shiftr_div by lia. change (2 ^ 2) with 4. div_lia. }
  rewrite !Hq in E0, E1, E2. rewrite E0, E1, E2.
  destruct (Hu 0 0 ltac:(lia) ltac:(lia)) as (<- & <- & <-).
  apply flat_colour_bounds; apply load8_range.
Qed.

Lemma X4_flat_colour_survives_a_round_trip_witness :
  let RGB := fun o => if o mod 3 =? 0 then 255 else if o mod 3 =? 1 then 0 else 255 in
  exists m out,
    rgb24_yuv420_std 3 2 2 RGB 6 (const_plane 0) (const_plane 0) (const_plane 0)
                     2 1 YCBCR_709 = Done m /\
    yuv420_rgb24_std 3 2 2 (Y_plane m) (U_plane m) (V_plane m) 2 1
                     (const_plane 0) 6 YCBCR_709 = Done out /\
    map out [0; 1; 2] = [254; 0; 252].
Proof.
  intros RGB.
  destruct (X4_flat_colour_survives_a_round_trip YCBCR_709 2 2 RGB 6 (const_plane 0)
              (const_plane 0) (const_plane 0) 2 1 (const_plane 0) 3%nat 0 0
              255 0 255)
    as (m & out & Hm & Hout & _).
  - constructor; vm_compute; intuition discriminate.
  - vm_compute. reflexivity.
  - vm_compute. reflexivity.
  - vm_compute. intuition discriminate.
  - vm_compute. intuition discriminate.
  - intros dr dc Hdr Hdc.
    assert (dr = 0 \/ dr = 1) as [-> | ->] by lia;
      (assert (dc = 0 \/ dc = 1) as [-> | ->] by lia); repeat split; reflexivity.
  - exists m, out. split; [exact Hm|]. split; [exact Hout|].
    apply (f_equal state_of) in Hm, Hout. cbn [state_of] in Hm, Hout.
    subst out m. vm_compute. reflexivity.
Defined.

(** ** The range of the forward values *)

Lemma studio_pixel_bounds (yuv_type : YCbCrType) (R G B : Z) :
  yuv_type <> YCBCR_JPEG ->
  is_byte R -> is_byte G -> is_byte B ->
  let p := RGB2YUV yuv_type in
  16 <= digital_luma p R G B <= 235 /\
  15 <= chroma_u p R G B <= 240 /\
  15 <= chroma_v p R G B <= 240.
Proof.
  intros Hs HR HG HB p. subst p.
  unfold is_byte, digital_luma, chroma_u, chroma_v, pseudo_luma in *.
  forward_table yuv_type; [congruence | |];
    rewrite !shiftr_div by lia; change (2 ^ 8) with 256; change (2 ^ 7) with 128;
    repeat split; div_lia.
Qed.

(** X5: under BT601 and BT709 a completed forward conversion writes luma
    bytes within [16, 235] and chroma bytes within [15, 240]: one level
    below the nominal chroma range [16, 240], which the flooring shift
    reaches.  The bounds 16, 235, 15 and 240 are attained: black gives
    Y = 16, white gives Y = 235, and the per-pixel U value is 15 for yellow
    (255,255,0) and 240 for blue (0,0,255). *)
Theorem X5_studio_range_is_kept_but_for_one_level :
  forall (yuv_type : YCbCrType) (width height : Z) (RGB : plane)
         (RGB_stride : Z) (Y U V : plane) (Y_stride UV_stride : Z) (fuel : nat),
    yuv_type <> YCBCR_JPEG ->
    geometry width height RGB_stride Y_stride UV_stride ->
    width < Z.of_nat fuel -> height < Z.of_nat fuel ->
    let p := RGB2YUV yuv_type in
    (exists m,
       rgb24_yuv420_std fuel width height RGB RGB_stride Y U V Y_stride
                        UV_stride yuv_type = Done m /\
       (forall r c, 0 <= r < 2 * (height / 2) -> 0 <= c < 2 * (width / 2) ->
          16 <= Y_plane m (r * Y_stride + c) <= 235) /\
       (forall i j, 0 <= i < height / 2 -> 0 <= j < width / 2 ->
          15 <= U_plane m (i * UV_stride + j) <= 240 /\
          15 <= V_plane m (i * UV_stride + j) <= 240)) /\
    digital_luma p 0 0 0 = 16 /\ digital_luma p 255 255 255 = 235 /\
    chroma_u p 255 255 0 = 15 /\ chroma_u p 0 0 255 = 240.
Proof.
  intros yuv_type width height RGB RGB_stride Y U V Y_stride UV_stride fuel
    Hs G Hw Hh p.
  split; [|destruct yuv_type; [congruence | |]; vm_compute; repeat split].
  destruct (rgb24_yuv420_std_post p width height RGB RGB_stride Y U V
              Y_stride UV_stride G fuel Hw Hh) as (m & Hm & P).
  exists m. split; [exact Hm|]. split.
  - intros r c Hr Hc.
    rewrite (fwd_post_Y _ _ _ _ _ _ _ _ _ _ _ P r c Hr Hc).
    destruct (fwd_values_exact yuv_type RGB (r * RGB_stride + 3 * c)) as (EY & _).
    fold p in EY. rewrite EY.
    apply (studio_pixel_bounds yuv_type); try apply load8_range; exact Hs.
  - intros i j Hi Hj.
    rewrite (fwd_post_U _ _ _ _ _ _ _ _ _ _ _ P i j Hi Hj).
    rewrite (fwd_post_V _ _ _ _ _ _ _ _ _ _ _ P i j Hi Hj).
    destruct (fwd_block_exact yuv_type RGB RGB_stride i j) as (EU & EV).
    fold p in EU, EV. rewrite EU, EV. unfold block_sum, at_pixel.
    assert (Hpx : forall r c,
              15 <= chroma_u p (red RGB RGB_stride r c) (green RGB RGB_stride r c)
                      (blue RGB RGB_stride r c) <= 240 /\
              15 <= chroma_v p (red RGB RGB_stride r c) (green RGB RGB_stride r c)
                      (blue RGB RGB_stride r c) <= 240).
    { intros r c. apply (studio_pixel_bounds yuv_type); try apply load8_range.
      exact Hs. }
    pose proof (Hpx (2 * i) (2 * j)) as (U00 & V00).
    pose proof (Hpx (2 * i) (2 * j + 1)) as (U01 & V01).
    pose proof (Hpx (2 * i + 1) (2 * j)) as (U10 & V10).
    pose proof (Hpx (2 * i + 1) (2 * j + 1)) as (U11 & V11).
    rewrite !shiftr_div by lia. change (2 ^ 2) with 4. split; div_lia.
Qed.

Lemma X5_studio_range_is_kept_but_for_one_level_witness :
  let RGB := fun o => if o mod 3 =? 2 then 0 else 255 in
  exists m,
    rgb24_yuv420_std 3 2 2 RGB 6 (const_plane 0) (const_plane 0) (const_plane 0)
                     2 1 YCBCR_601 = Done m /\
    map (Y_plane m) [0; 1; 2; 3] = [210; 210; 210; 210] /\
    U_plane m 0 = 15 /\ V_plane m 0 = 146.
Proof.
  intros RGB.
  destruct (X5_studio_range_is_kept_but_for_one_level YCBCR_601 2 2 RGB 6
              (const_plane 0) (const_plane 0) (const_plane 0) 2 1 3%nat)
    as ((m & Hm & _) & _).
  - discriminate.
  - constructor; vm_compute; intuition discriminate.
  - vm_compute. reflexivity.
  - vm_compute. reflexivity.
  - exists m. split; [exact Hm|].
    apply (f_equal state_of) in Hm. cbn [state_of] in Hm. subst m.
    vm_compute. repeat split.
Defined.

(** ** Monotonicity *)

Lemma digital_luma_monotone (yuv_type : YCbCrType) (R G B R' G' B' : Z) :
  R <= R' -> G <= G' -> B <= B' ->
  let p := RGB2YUV yuv_type in
  digital_luma p R G B <= digital_luma p R' G' B'.
Proof.
  intros HR HG HB p. subst p. unfold digital_luma, pseudo_luma.
  forward_table yuv_type;
    rewrite !shiftr_div by lia; change (2 ^ 8) with 256; change (2 ^ 7) with 128;
    div_lia.
Qed.

Lemma unclamped_monotone (yuv_type : YCbCrType) (Yv Yv' Uv Vv ch : Z) :
  Yv <= Yv' ->
  let q := YUV2RGB yuv_type in
  saturate (unclamped q Yv Uv Vv ch) <= saturate (unclamped q Yv' Uv Vv ch).
Proof.
  intros HY q. subst q.
  assert (H : full_range_luma (YUV2RGB yuv_type) Yv
              <= full_range_luma (YUV2RGB yuv_type) Yv').
  { unfold full_range_luma. inverse_table yuv_type;
      rewrite !shiftr_div by lia; change (2 ^ 7) with 128; div_lia. }
  unfold saturate, unclamped.
  destruct (ch =? 0); [|destruct (ch =? 1)]; lia.
Qed.

(** X6: the order of brightness is kept, for each of the three standards
    and each pixel (r, c) of the even-aligned region.  Forward: of two
    images, the one whose pixel (r, c) is no smaller in each of R, G and B
    gets a luma byte that is no smaller.  Inverse: with the same chroma
    planes, the luma plane whose sample at (r, c) is no smaller gives, in
    each of the three channels of that pixel, a byte that is no smaller. *)
Theorem X6_brightness_order_is_kept :
  forall (yuv_type : YCbCrType) (width height : Z) (RGB_stride : Z)
         (Y_stride UV_stride : Z) (fuel : nat) (r c : Z),
    geometry width height RGB_stride Y_stride UV_stride ->
    width < Z.of_nat fuel -> height < Z.of_nat fuel ->
    0 <= r < 2 * (height / 2) -> 0 <= c < 2 * (width / 2) ->
    (forall (RGB1 RGB2 Y U V : plane),
       red RGB1 RGB_stride r c <= red RGB2 RGB_stride r c ->
       green RGB1 RGB_stride r c <= green RGB2 RGB_stride r c ->
       blue RGB1 RGB_stride r c <= blue RGB2 RGB_stride r c ->
       exists m1 m2,
         rgb24_yuv420_std fuel width height RGB1 RGB_stride Y U V Y_stride
                          UV_stride yuv_type = Done m1 /\
         rgb24_yuv420_std fuel width height RGB2 RGB_stride Y U V Y_stride
                          UV_stride yuv_type = Done m2 /\
         Y_plane m1 (r * Y_stride + c) <= Y_plane m2 (r * Y_stride + c)) /\
    (forall (Y1 Y2 U V RGB : plane),
       load8 Y1 (r * Y_stride + c) <= load8 Y2 (r * Y_stride + c) ->
       exists out1 out2,
         yuv420_rgb24_std fuel width height Y1 U V Y_stride UV_stride RGB
                          RGB_stride yuv_type = Done out1 /\
         yuv420_rgb24_std fuel width height Y2 U V Y_stride UV_stride RGB
                          RGB_stride yuv_type = Done out2 /\
         forall ch, 0 <= ch < 3 ->
           out1 (r * RGB_stride + 3 * c + ch) <= out2 (r * RGB_stride + 3 * c + ch)).
Proof.
  intros yuv_type width height RGB_stride Y_stride UV_stride fuel r c
    G Hw Hh Hr Hc.
  split.
  - intros RGB1 RGB2 Y U V HR HG HB.
    destruct (rgb24_yuv420_std_post (RGB2YUV yuv_type) width height RGB1
                RGB_stride Y U V Y_stride UV_stride G fuel Hw Hh)
      as (m1 & Hm1 & P1).
    destruct (rgb24_yuv420_std_post (RGB2YUV yuv_type) width height RGB2
                RGB_stride Y U V Y_stride UV_stride G fuel Hw Hh)
      as (m2 & Hm2 & P2).
    exists m1, m2. split; [exact Hm1|]. split; [exact Hm2|].
    rewrite (fwd_post_Y _ _ _ _ _ _ _ _ _ _ _ P1 r c Hr Hc).
    rewrite (fwd_post_Y _ _ _ _ _ _ _ _ _ _ _ P2 r c Hr Hc).
    destruct (fwd_values_exact yuv_type RGB1 (r * RGB_stride + 3 * c)) as (-> & _).
    destruct (fwd_values_exact yuv_type RGB2 (r * RGB_stride + 3 * c)) as (-> & _).
    apply digital_luma_monotone; assumption.
  - intros Y1 Y2 U V RGB HY.
    destruct (yuv420_rgb24_std_post (YUV2RGB yuv_type) width height Y1 U V
                Y_stride UV_stride RGB RGB_stride G fuel Hw Hh)
      as (out1 & Hout1 & [IR1 _]).
    destruct (yuv420_rgb24_std_post (YUV2RGB yuv_type) width height Y2 U V
                Y_stride UV_stride RGB RGB_stride G fuel Hw Hh)
      as (out2 & Hout2 & [IR2 _]).
    exists out1, out2. split; [exact Hout1|]. split; [exact Hout2|].
    intros ch Hch. rewrite IR1, IR2 by assumption.
    rewrite !inv_channel_exact. apply unclamped_monotone, HY.
Qed.

Lemma X6_brightness_order_is_kept_witness :
  let dark := plane_of_list [10; 20; 30; 10; 20; 30; 10; 20; 30; 10; 20; 30] in
  let light := plane_of_list [10; 90; 30; 10; 20; 30; 10; 20; 30; 10; 20; 30] in
  exists m1 m2,
    rgb24_yuv420_std 3 2 2 dark 6 (const_plane 0) (const_plane 0) (const_plane 0)
                     2 1 YCBCR_601 = Done m1 /\
    rgb24_yuv420_std 3 2 2 light 6 (const_plane 0) (const_plane 0) (const_plane 0)
                     2 1 YCBCR_601 = Done m2 /\
    Y_plane m1 (0 * 2 + 0) <= Y_plane m2 (0 * 2 + 0).
Proof.
  intros dark light.
  destruct (X6_brightness_order_is_kept YCBCR_601 2 2 6 2 1 3%nat 0 0) as (H & _).
  - constructor; vm_compute; intuition discriminate.
  - vm_compute. reflexivity.
  - vm_compute. reflexivity.
  - vm_compute. intuition discriminate.
  - vm_compute. intuition discriminate.
  - apply (H dark light (const_plane 0) (const_plane 0) (const_plane 0));
      vm_compute; discriminate.
Defined.

(** ** Odd sizes *)

(** Completion, with the result spelled out. *)
Lemma rgb24_yuv420_std_done (yuv_type : YCbCrType) (width height : Z)
    (RGB : plane) (RGB_stride : Z) (Y U V : plane) (Y_stride UV_stride : Z)
    (fuel : nat) :
  1 <= width < 2 ^ 32 -> 1 <= height < 2 ^ 32 ->
  width < Z.of_nat fuel -> height < Z.of_nat fuel ->
  rgb24_yuv420_std fuel width height RGB RGB_stride Y U V Y_stride UV_stride
                   yuv_type
  = Done (fwd_pairs (RGB2YUV yuv_type) width RGB RGB_stride Y U V Y_stride
                    UV_stride (Z.to_nat (height / 2))).
Proof.
  intros Gw Gh Hfw Hfh.
  assert (Hh2 : 0 <= height / 2 /\ 2 * (height / 2) <= height)
    by (Z.div_mod_to_equations; lia).
  unfold rgb24_yuv420_std, fwd_pairs.
  apply for_u32_done;
    rewrite ?to_uint32_small, ?Z2Nat.id by lia;
    try (intros; apply rgb24_yuv420_rows_complete; assumption); try lia;
    try (Z.div_mod_to_equations; lia).
Qed.

Lemma yuv420_rgb24_std_done (yuv_type : YCbCrType) (width height : Z)
    (Y U V : plane) (Y_stride UV_stride : Z) (RGB : plane) (RGB_stride : Z)
    (fuel : nat) :
  1 <= width < 2 ^ 32 -> 1 <= height < 2 ^ 32 ->
  width < Z.of_nat fuel -> height < Z.of_nat fuel ->
  yuv420_rgb24_std fuel width height Y U V Y_stride UV_stride RGB RGB_stride
                   yuv_type
  = Done (inv_pairs (YUV2RGB yuv_type) width Y U V Y_stride UV_stride RGB
                    RGB_stride (Z.to_nat (height / 2))).
Proof.
  intros Gw Gh Hfw Hfh.
  assert (Hh2 : 0 <= height / 2 /\ 2 * (height / 2) <= height)
    by (Z.div_mod_to_equations; lia).
  unfold yuv420_rgb24_std, inv_pairs.
  apply for_u32_done;
    rewrite ?to_uint32_small, ?Z2Nat.id by lia;
    try (intros; apply yuv420_rgb24_rows_complete; assumption); try lia;
    try (Z.div_mod_to_equations; lia).
Qed.

(** X7: a trailing odd row or column takes no part: for a width and a
    height of at least 2, each of the two conversions returns exactly what
    it returns for the width and the height rounded down to even
    numbers. *)
Theorem X7_odd_sizes_convert_as_their_even_crop :
  forall (yuv_type : YCbCrType) (width height : Z) (RGB : plane)
         (RGB_stride : Z) (Y U V : plane) (Y_stride UV_stride : Z) (fuel : nat),
    2 <= width < 2 ^ 32 -> 2 <= height < 2 ^ 32 ->
    width < Z.of_nat fuel -> height < Z.of_nat fuel ->
    let width' := 2 * (width / 2) in
    let height' := 2 * (height / 2) in
    (exists m,
       rgb24_yuv420_std fuel width height RGB RGB_stride Y U V Y_stride
                        UV_stride yuv_type = Done m /\
       rgb24_yuv420_std fuel width' height' RGB RGB_stride Y U V Y_stride
                        UV_stride yuv_type = Done m) /\
    (exists out,
       yuv420_rgb24_std fuel width height Y U V Y_stride UV_stride RGB
                        RGB_stride yuv_type = Done out /\
       yuv420_rgb24_std fuel width' height' Y U V Y_stride UV_stride RGB
                        RGB_stride yuv_type = Done out).
Proof.
  intros yuv_type width height RGB RGB_stride Y U V Y_stride UV_stride fuel
    Hw Hh Hfw Hfh width' height'.
  assert (Hd : 1 <= width' <= width /\ 1 <= height' <= height
               /\ width' / 2 = width / 2 /\ height' / 2 = height / 2)
    by (subst width' height'; Z.div_mod_to_equations; lia).
  destruct Hd as (Hw' & Hh' & Ew & Eh).
  split; eexists; split.
  - apply rgb24_yuv420_std_done; lia.
  - rewrite rgb24_yuv420_std_done by lia. rewrite Eh.
    unfold fwd_pairs, fwd_pair. rewrite Ew. reflexivity.
  - apply yuv420_rgb24_std_done; lia.
  - rewrite yuv420_rgb24_std_done by lia. rewrite Eh.
    unfold inv_pairs, inv_pair. rewrite Ew. reflexivity.
Qed.

Lemma X7_odd_sizes_convert_as_their_even_crop_witness :
  exists m,
    rgb24_yuv420_std 6 5 3 (const_plane 255) 15 (const_plane 7) (const_plane 7)
                     (const_plane 7) 5 3 YCBCR_601 = Done m /\
    rgb24_yuv420_std 6 (2 * (5 / 2)) (2 * (3 / 2)) (const_plane 255) 15
                     (const_plane 7) (const_plane 7) (const_plane 7) 5 3
                     YCBCR_601 = Done m.
Proof.
  apply (X7_odd_sizes_convert_as_their_even_crop YCBCR_601 5 3 (const_plane 255) 15
           (const_plane 7) (const_plane 7) (const_plane 7) 5 3 6%nat);
    vm_compute; first [reflexivity | intuition discriminate].
Defined.

(** ** What is read *)

Lemma in_region_dec (stride rows cols o : Z) :
  0 <= cols <= stride ->
  in_region stride rows cols o \/ ~ in_region stride rows cols o.
Proof.
  intros Hs. destruct (Z.eq_dec cols 0) as [-> | Hc0].
  - right. intros (r & c & _ & Hc & _). lia.
  - destruct (Z_le_dec 0 (o / stride)) as [H1 | H1];
      [destruct (Z_lt_dec (o / stride) rows) as [H2 | H2];
         [destruct (Z_lt_dec (o mod stride) cols) as [H3 | H3]|]|].
    + left. exists (o / stride), (o mod stride).
      repeat split; try lia; Z.div_mod_to_equations; lia.
    + right. intros (r & c & Hr & Hc & ->).
      apply H3. replace ((r * stride + c) mod stride) with c; [lia|].
      rewrite Z.add_comm, Z.mod_add, Z.mod_small; lia.
    + right. intros (r & c & Hr & Hc & ->).
      apply H2. replace ((r * stride + c) / stride) with r; [lia|].
      rewrite Z.add_comm, Z.div_add, Z.div_small; lia.
    + right. intros (r & c & Hr & Hc & ->).
      apply H1. replace ((r * stride + c) / stride) with r; [lia|].
      rewrite Z.add_comm, Z.div_add, Z.div_small; lia.
Qed.

Lemma fwd_pixel_agree (p : RGB2YUVParam.t) (RGB1 RGB2 : plane) (i : Z) :
  (forall k, 0 <= k < 3 -> load8 RGB1 (i + k) = load8 RGB2 (i + k)) ->
  fwd_luma_at p RGB1 i = fwd_luma_at p RGB2 i /\
  fwd_u_at p RGB1 i = fwd_u_at p RGB2 i /\
  fwd_v_at p RGB1 i = fwd_v_at p RGB2 i.
Proof.
  intros H.
  pose proof (H 0 ltac:(lia)) as H0. rewrite Z.add_0_r in H0.
  pose proof (H 1 ltac:(lia)) as H1. pose proof (H 2 ltac:(lia)) as H2.
  unfold fwd_luma_at, fwd_u_at, fwd_v_at, fwd_y_tmp_at.
  rewrite H0, H1, H2. repeat split.
Qed.

(** X8: the conversions read the even-aligned region only.  Two source
    images that agree on the bytes of the pixels of rows 0..2*(H/2),
    columns 0..2*(W/2) are converted to the same three planes, cell for
    cell, whatever their padding bytes and their trailing odd row and
    column hold; and two sets of planes that agree on the luma samples of
    that region and on the chroma samples of rows 0..H/2, columns 0..W/2
    are converted to the same RGB buffer. *)
Theorem X8_only_the_even_region_is_read :
  forall (yuv_type : YCbCrType) (width height : Z) (RGB_stride : Z)
         (Y_stride UV_stride : Z) (fuel : nat),
    geometry width height RGB_stride Y_stride UV_stride ->
    width < Z.of_nat fuel -> height < Z.of_nat fuel ->
    let rows := 2 * (height / 2) in
    let cols := 2 * (width / 2) in
    (forall (RGB1 RGB2 Y U V : plane),
       (forall o, in_region RGB_stride rows (3 * cols) o ->
          load8 RGB1 o = load8 RGB2 o) ->
       exists m1 m2,
         rgb24_yuv420_std fuel width height RGB1 RGB_stride Y U V Y_stride
                          UV_stride yuv_type = Done m1 /\
         rgb24_yuv420_std fuel width height RGB2 RGB_stride Y U V Y_stride
                          UV_stride yuv_type = Done m2 /\
         forall o, Y_plane m1 o = Y_plane m2 o /\ U_plane m1 o = U_plane m2 o
                   /\ V_plane m1 o = V_plane m2 o) /\
    (forall (Y1 Y2 U1 U2 V1 V2 RGB : plane),
       (forall o, in_region Y_stride rows cols o -> load8 Y1 o = load8 Y2 o) ->
       (forall o, in_region UV_stride (height / 2) (width / 2) o ->
          load8 U1 o = load8 U2 o /\ load8 V1 o = load8 V2 o) ->
       exists out1 out2,
         yuv420_rgb24_std fuel width height Y1 U1 V1 Y_stride UV_stride RGB
                          RGB_stride yuv_type = Done out1 /\
         yuv420_rgb24_std fuel width height Y2 U2 V2 Y_stride UV_stride RGB
                          RGB_stride yuv_type = Done out2 /\
         forall o, out1 o = out2 o).
Proof.
  intros yuv_type width height RGB_stride Y_stride UV_stride fuel G Hw Hh
    rows cols.
  pose proof G as [Gw Gh Grs Gys Guvs Grz Gyz Guvz].
  assert (Hd : 0 <= height / 2 /\ 0 <= width / 2 /\ 0 <= cols <= width
               /\ width / 2 <= UV_stride)
    by (subst rows cols; Z.div_mod_to_equations; lia).
  destruct Hd as (Hh2 & Hw2 & Hcw & Huv).
  split.
  - intros RGB1 RGB2 Y U V Hagree.
    destruct (rgb24_yuv420_std_post (RGB2YUV yuv_type) width height RGB1
                RGB_stride Y U V Y_stride UV_stride G fuel Hw Hh)
      as (m1 & Hm1 & [IY1 IU1 IV1 FY1 FU1 FV1]).
    destruct (rgb24_yuv420_std_post (RGB2YUV yuv_type) width height RGB2
                RGB_stride Y U V Y_stride UV_stride G fuel Hw Hh)
      as (m2 & Hm2 & [IY2 IU2 IV2 FY2 FU2 FV2]).
    exists m1, m2. split; [exact Hm1|]. split; [exact Hm2|].
    assert (Hpx : forall r c, 0 <= r < rows -> 0 <= c < cols ->
              forall k, 0 <= k < 3 ->
                load8 RGB1 (r * RGB_stride + 3 * c + k)
                = load8 RGB2 (r * RGB_stride + 3 * c + k)).
    { intros r c Hr Hc k Hk. apply Hagree. exists r, (3 * c + k).
      repeat split; lia. }
    intros o. split; [|split].
    + destruct (in_region_dec Y_stride rows cols o ltac:(lia))
        as [(r & c & Hr & Hc & ->) | Hout].
      * rewrite IY1, IY2 by assumption.
        apply fwd_pixel_agree, Hpx; assumption.
      * rewrite FY1, FY2 by assumption. reflexivity.
    + destruct (in_region_dec UV_stride (height / 2) (width / 2) o ltac:(lia))
        as [(i & j & Hi & Hj & ->) | Hout].
      * rewrite IU1, IU2 by assumption. unfold fwd_block_u.
        destruct (fwd_pixel_agree (RGB2YUV yuv_type) RGB1 RGB2
                    (2 * i * RGB_stride + 6 * j)) as (_ & -> & _).
        { intros k Hk. replace (2 * i * RGB_stride + 6 * j)
            with (2 * i * RGB_stride + 3 * (2 * j)) by lia.
          apply Hpx; subst rows cols; lia. }
        destruct (fwd_pixel_agree (RGB2YUV yuv_type) RGB1 RGB2
                    (2 * i * RGB_stride + 6 * j + 3)) as (_ & -> & _).
        { intros k Hk. replace (2 * i * RGB_stride + 6 * j + 3)
            with (2 * i * RGB_stride + 3 * (2 * j + 1)) by lia.
          apply Hpx; subst rows cols; lia. }
        destruct (fwd_pixel_agree (RGB2YUV yuv_type) RGB1 RGB2
                    ((2 * i + 1) * RGB_stride + 6 * j)) as (_ & -> & _).
        { intros k Hk. replace ((2 * i + 1) * RGB_stride + 6 * j)
            with ((2 * i + 1) * RGB_stride + 3 * (2 * j)) by lia.
          apply Hpx; subst rows cols; lia. }
        destruct (fwd_pixel_agree (RGB2YUV yuv_type) RGB1 RGB2
                    ((2 * i + 1) * RGB_stride + 6 * j + 3)) as (_ & -> & _).
        { intros k Hk. replace ((2 * i + 1) * RGB_stride + 6 * j + 3)
            with ((2 * i + 1) * RGB_stride + 3 * (2 * j + 1)) by lia.
          apply Hpx; subst rows cols; lia. }
        reflexivity.
      * rewrite FU1, FU2 by assumption. reflexivity.
    + destruct (in_region_dec UV_stride (height / 2) (width / 2) o ltac:(lia))
        as [(i & j & Hi & Hj & ->) | Hout].
      * rewrite IV1, IV2 by assumption. unfold fwd_block_v.
        destruct (fwd_pixel_agree (RGB2YUV yuv_type) RGB1 RGB2
                    (2 * i * RGB_stride + 6 * j)) as (_ & _ & ->).
        { intros k Hk. replace (2 * i * RGB_stride + 6 * j)
            with (2 * i * RGB_stride + 3 * (2 * j)) by lia.
          apply Hpx; subst rows cols; lia. }
        destruct (fwd_pixel_agree (RGB2YUV yuv_type) RGB1 RGB2
                    (2 * i * RGB_stride + 6 * j + 3)) as (_ & _ & ->).
        { intros k Hk. replace (2 * i * RGB_stride + 6 * j + 3)
            with (2 * i * RGB_stride + 3 * (2 * j + 1)) by lia.
          apply Hpx; subst rows cols; lia. }
        destruct (fwd_pixel_agree (RGB2YUV yuv_type) RGB1 RGB2
                    ((2 * i + 1) * RGB_stride + 6 * j)) as (_ & _ & ->).
        { intros k Hk. replace ((2 * i + 1) * RGB_stride + 6 * j)
            with ((2 * i + 1) * RGB_stride + 3 * (2 * j)) by lia.
          apply Hpx; subst rows cols; lia. }
        destruct (fwd_pixel_agree (RGB2YUV yuv_type) RGB1 RGB2
                    ((2 * i + 1) * RGB_stride + 6 * j + 3)) as (_ & _ & ->).
        { intros k Hk. replace ((2 * i + 1) * RGB_stride + 6 * j + 3)
            with ((2 * i + 1) * RGB_stride + 3 * (2 * j + 1)) by lia.
          apply Hpx; subst rows cols; lia. }
        reflexivity.
      * rewrite FV1, FV2 by assumption. reflexivity.
  - intros Y1 Y2 U1 U2 V1 V2 RGB HY HUV.
    destruct (yuv420_rgb24_std_post (YUV2RGB yuv_type) width height Y1 U1 V1
                Y_stride UV_stride RGB RGB_stride G fuel Hw Hh)
      as (out1 & Hout1 & [IR1 FR1]).
    destruct (yuv420_rgb24_std_post (YUV2RGB yuv_type) width height Y2 U2 V2
                Y_stride UV_stride RGB RGB_stride G fuel Hw Hh)
      as (out2 & Hout2 & [IR2 FR2]).
    exists out1, out2. split; [exact Hout1|]. split; [exact Hout2|].
    intros o.
    destruct (in_region_dec RGB_stride rows (3 * cols) o ltac:(lia))
      as [(r & c & Hr & Hc & ->) | Hout].
    + replace (r * RGB_stride + c)
        with (r * RGB_stride + 3 * (c / 3) + c mod 3)
        by (Z.div_mod_to_equations; lia).
      assert (Hc3 : 0 <= c / 3 < cols /\ 0 <= c mod 3 < 3)
        by (Z.div_mod_to_equations; lia).
      destruct Hc3 as (Hc3 & Hk).
      rewrite IR1, IR2 by assumption. unfold inv_channel.
      rewrite (HY (r * Y_stride + c / 3))
        by (exists r, (c / 3); repeat split; lia).
      destruct (HUV (r / 2 * UV_stride + c / 3 / 2)) as (-> & ->);
        [|reflexivity].
      exists (r / 2), (c / 3 / 2).
      repeat split; subst rows cols; Z.div_mod_to_equations; lia.
    + rewrite FR1, FR2 by assumption. reflexivity.
Qed.

Lemma X8_only_the_even_region_is_read_witness :
  let RGB1 := plane_of_list [1; 2; 3; 4; 5; 6; 100; 100; 100;
                             7; 8; 9; 10; 11; 12; 100; 100; 100] in
  let RGB2 := plane_of_list [1; 2; 3; 4; 5; 6; 200; 0; 50;
                             7; 8; 9; 10; 11; 12; 0; 99; 255; 13; 13] in
  exists m1 m2,
    rgb24_yuv420_std 4 3 2 RGB1 9 (const_plane 7) (const_plane 7) (const_plane 7)
                     3 2 YCBCR_601 = Done m1 /\
    rgb24_yuv420_std 4 3 2 RGB2 9 (const_plane 7) (const_plane 7) (const_plane 7)
                     3 2 YCBCR_601 = Done m2 /\
    forall o, Y_plane m1 o = Y_plane m2 o /\ U_plane m1 o = U_plane m2 o
              /\ V_plane m1 o = V_plane m2 o.
Proof.
  intros RGB1 RGB2.
  destruct (X8_only_the_even_region_is_read YCBCR_601 3 2 9 3 2 4%nat) as (H & _).
  - constructor; vm_compute; intuition discriminate.
  - vm_compute. reflexivity.
  - vm_compute. reflexivity.
  - apply (H RGB1 RGB2 (const_plane 7) (const_plane 7) (const_plane 7)).
    intros o (r & c & Hr & Hc & ->).
    change (2 * (2 / 2)) with 2 in Hr. change (3 * (2 * (3 / 2))) with 6 in Hc.
    assert (r = 0 \/ r = 1) as [-> | ->] by lia;
      (assert (c = 0 \/ c = 1 \/ c = 2 \/ c = 3 \/ c = 4 \/ c = 5)
         as [-> | [-> | [-> | [-> | [-> | ->]]]]] by lia); reflexivity.
Defined.

(** ** Slices *)

Lemma load8_shift (p : plane) (d o : Z) :
  load8 (shift_plane p d) o = load8 p (d + o).
Proof. unfold load8, shift_plane. f_equal. f_equal. lia. Qed.

Lemma fwd_pixel_shift (p : RGB2YUVParam.t) (RGB : plane) (d i : Z) :
  fwd_luma_at p (shift_plane RGB d) i = fwd_luma_at p RGB (d + i) /\
  fwd_u_at p (shift_plane RGB d) i = fwd_u_at p RGB (d + i) /\
  fwd_v_at p (shift_plane RGB d) i = fwd_v_at p RGB (d + i).
Proof.
  unfold fwd_luma_at, fwd_u_at, fwd_v_at, fwd_y_tmp_at.
  rewrite !load8_shift, !Z.add_assoc. repeat split.
Qed.

Lemma geometry_slice (width height RGB_stride Y_stride UV_stride k : Z) :
  geometry width height RGB_stride Y_stride UV_stride ->
  0 <= k -> 2 * k < height ->
  geometry width (height - 2 * k) RGB_stride Y_stride UV_stride.
Proof.
  intros [Gw Gh Grs Gys Guvs Grz Gyz Guvz] Hk Hlt.
  assert (0 <= (width + 1) / 2) by (Z.div_mod_to_equations; lia).
  assert ((height - 2 * k + 1) / 2 <= (height + 1) / 2)
    by (Z.div_mod_to_equations; lia).
  constructor; try lia; nia.
Qed.

(** X9: a slice converts alone.  For an even row 2k of the image, the
    conversion of the rows from 2k on (every pointer advanced to that row:
    by 2k rows in the RGB and luma buffers, by k rows in the chroma planes;
    the height reduced by 2k) writes, at each cell of its region, the byte
    that the conversion of the whole image writes at the corresponding
    cell; in both directions. *)
Theorem X9_a_lower_slice_converts_alone :
  forall (yuv_type : YCbCrType) (width height : Z) (RGB : plane)
         (RGB_stride : Z) (Y U V : plane) (Y_stride UV_stride : Z) (fuel : nat)
         (k : Z),
    geometry width height RGB_stride Y_stride UV_stride ->
    width < Z.of_nat fuel -> height < Z.of_nat fuel ->
    0 <= k -> 2 * k < height ->
    let top := 2 * k in
    let rows := 2 * ((height - top) / 2) in
    let cols := 2 * (width / 2) in
    (exists m m',
       rgb24_yuv420_std fuel width height RGB RGB_stride Y U V Y_stride
                        UV_stride yuv_type = Done m /\
       rgb24_yuv420_std fuel width (height - top)
                        (shift_plane RGB (top * RGB_stride)) RGB_stride
                        (shift_plane Y (top * Y_stride))
                        (shift_plane U (k * UV_stride))
                        (shift_plane V (k * UV_stride))
                        Y_stride UV_stride yuv_type = Done m' /\
       (forall r c, 0 <= r < rows -> 0 <= c < cols ->
          Y_plane m' (r * Y_stride + c) = Y_plane m ((top + r) * Y_stride + c)) /\
       (forall i j, 0 <= i < (height - top) / 2 -> 0 <= j < width / 2 ->
          U_plane m' (i * UV_stride + j) = U_plane m ((k + i) * UV_stride + j) /\
          V_plane m' (i * UV_stride + j) = V_plane m ((k + i) * UV_stride + j)))
    /\
    (exists out out',
       yuv420_rgb24_std fuel width height Y U V Y_stride UV_stride RGB
                        RGB_stride yuv_type = Done out /\
       yuv420_rgb24_std fuel width (height - top)
                        (shift_plane Y (top * Y_stride))
                        (shift_plane U (k * UV_stride))
                        (shift_plane V (k * UV_stride)) Y_stride UV_stride
                        (shift_plane RGB (top * RGB_stride)) RGB_stride
                        yuv_type = Done out' /\
       forall r c ch, 0 <= r < rows -> 0 <= c < cols -> 0 <= ch < 3 ->
         out' (r * RGB_stride + 3 * c + ch)
         = out ((top + r) * RGB_stride + 3 * c + ch)).
Proof.
  intros yuv_type width height RGB RGB_stride Y U V Y_stride UV_stride fuel k
    G Hw Hh Hk Hlt top rows cols.
  pose proof (geometry_slice _ _ _ _ _ k G Hk Hlt) as G'. fold top in G'.
  assert (Hd : rows + top <= 2 * (height / 2)
               /\ (height - top) / 2 + k <= height / 2)
    by (subst rows top; Z.div_mod_to_equations; lia).
  destruct Hd as (Hrows & Hblocks).
  split.
  - destruct (rgb24_yuv420_std_post (RGB2YUV yuv_type) width height RGB
                RGB_stride Y U V Y_stride UV_stride G fuel Hw Hh)
      as (m & Hm & [IY IU IV _ _ _]).
    destruct (rgb24_yuv420_std_post (RGB2YUV yuv_type) width (height - top)
                (shift_plane RGB (top * RGB_stride)) RGB_stride
                (shift_plane Y (top * Y_stride)) (shift_plane U (k * UV_stride))
                (shift_plane V (k * UV_stride)) Y_stride UV_stride G' fuel Hw
                ltac:(lia))
      as (m' & Hm' & [IY' IU' IV' _ _ _]).
    exists m, m'. split; [exact Hm|]. split; [exact Hm'|]. split.
    + intros r c Hr Hc. fold rows cols in IY'. rewrite IY' by assumption.
      rewrite IY by (fold cols; lia).
      rewrite (proj1 (fwd_pixel_shift _ _ _ _)). f_equal. lia.
    + intros i j Hi Hj. rewrite IU', IV' by assumption.
      rewrite IU, IV by lia. unfold fwd_block_u, fwd_block_v.
      rewrite !(proj1 (proj2 (fwd_pixel_shift _ _ _ _))).
      rewrite !(proj2 (proj2 (fwd_pixel_shift _ _ _ _))).
      split; f_equal; f_equal; subst top; lia.
  - destruct (yuv420_rgb24_std_post (YUV2RGB yuv_type) width height Y U V
                Y_stride UV_stride RGB RGB_stride G fuel Hw Hh)
      as (out & Hout & [IR _]).
    destruct (yuv420_rgb24_std_post (YUV2RGB yuv_type) width (height - top)
                (shift_plane Y (top * Y_stride)) (shift_plane U (k * UV_stride))
                (shift_plane V (k * UV_stride)) Y_stride UV_stride
                (shift_plane RGB (top * RGB_stride)) RGB_stride G' fuel Hw
                ltac:(lia))
      as (out' & Hout' & [IR' _]).
    exists out, out'. split; [exact Hout|]. split; [exact Hout'|].
    intros r c ch Hr Hc Hch. fold rows cols in IR'.
    rewrite IR' by assumption. rewrite IR by (fold cols; lia).
    unfold inv_channel. rewrite !load8_shift.
    replace ((top + r) / 2) with (k + r / 2)
      by (subst top; Z.div_mod_to_equations; lia).
    replace (top * Y_stride + (r * Y_stride + c))
      with ((top + r) * Y_stride + c) by lia.
    replace (k * UV_stride + (r / 2 * UV_stride + c / 2))
      with ((k + r / 2) * UV_stride + c / 2) by lia.
    reflexivity.
Qed.

Lemma X9_a_lower_slice_converts_alone_witness :
  let RGB := fun o => (7 * o + 3) mod 256 in
  exists m m',
    rgb24_yuv420_std 5 2 4 RGB 6 (const_plane 0) (const_plane 0) (const_plane 0)
                     2 1 YCBCR_709 = Done m /\
    rgb24_yuv420_std 5 2 (4 - 2 * 1) (shift_plane RGB (2 * 1 * 6)) 6
                     (shift_plane (const_plane 0) (2 * 1 * 2))
                     (shift_plane (const_plane 0) (1 * 1))
                     (shift_plane (const_plane 0) (1 * 1)) 2 1 YCBCR_709
    = Done m' /\
    map (Y_plane m') [0; 1; 2; 3] = map (Y_plane m) [4; 5; 6; 7] /\
    U_plane m' 0 = U_plane m 1.
Proof.
  intros RGB.
  destruct (X9_a_lower_slice_converts_alone YCBCR_709 2 4 RGB 6 (const_plane 0)
              (const_plane 0) (const_plane 0) 2 1 5%nat 1)
    as ((m & m' & Hm & Hm' & _) & _).
  - constructor; vm_compute; intuition discriminate.
  - vm_compute. reflexivity.
  - vm_compute. reflexivity.
  - lia.
  - lia.
  - exists m, m'. split; [exact Hm|]. split; [exact Hm'|].
    apply (f_equal state_of) in Hm, Hm'. cbn [state_of] in Hm, Hm'.
    subst m m'. vm_compute. split; reflexivity.
Defined.

Lemma in_range_true (lo hi o : Z) : lo <= o < hi -> in_range lo hi o = true.
Proof.
  intros H. unfold in_range. apply andb_true_intro. split;
    [apply Z.leb_le | apply Z.ltb_lt]; lia.
Qed.

Lemma in_range_false (lo hi o : Z) : o < lo \/ hi <= o -> in_range lo hi o = false.
Proof.
  intros H. unfold in_range. apply andb_false_iff.
  destruct H; [left; apply Z.leb_gt | right; apply Z.ltb_ge]; lia.
Qed.

Ltac in_range_lia :=
  repeat match goal with
         | |- context [in_range ?a ?b ?o] =>
             first [ rewrite (in_range_true a b o) by lia
                   | rewrite (in_range_false a b o) by lia ]
         end.

Lemma nth_lanes16 (f : Z -> Z) (j : Z) :
  0 <= j < 16 -> nth (Z.to_nat j) (map f lanes16) 0 = f j.
Proof.
  intros Hj.
  assert (Hc : In j lanes16) by (unfold lanes16; cbn [In]; lia).
  unfold lanes16 in Hc. cbn [In] in Hc.
  repeat (destruct Hc as [<- | Hc]; [reflexivity|]). destruct Hc.
Qed.

(** A store of sixteen lanes, cell by cell. *)
Lemma SAVE_SI128_lanes (p : plane) (ptr : Z) (f : Z -> Z) (o : Z) :
  SAVE_SI128 p ptr (epi8 (map f lanes16)) o
  = if in_range ptr (ptr + 16) o then f (o - ptr) else p o.
Proof.
  unfold SAVE_SI128, as_bytes.
  destruct (in_range ptr (ptr + 16) o) eqn:E; [|reflexivity].
  unfold in_range in E. apply andb_prop in E. destruct E as (E1 & E2).
  apply Z.leb_le in E1. apply Z.ltb_lt in E2.
  apply nth_lanes16. lia.
Qed.

Section VectorLuma.
Variable prm : vector_param.
Variable RGB : plane.

(** One batch: the two rows of thirty-two luma bytes. *)
Lemma RGB2YUV_32_Y (c : fwd_cursor) (m : yuv_planes) (o : Z) :
  f_y_ptr1 c + 32 <= f_y_ptr2 c \/ f_y_ptr2 c + 32 <= f_y_ptr1 c ->
  Y_plane (snd (RGB2YUV_32 prm RGB (c, m))) o
  = if in_range (f_y_ptr1 c) (f_y_ptr1 c + 32) o
    then vector_y prm RGB (f_rgb_ptr1 c + 3 * (o - f_y_ptr1 c))
    else if in_range (f_y_ptr2 c) (f_y_ptr2 c + 32) o
    then vector_y prm RGB (f_rgb_ptr2 c + 3 * (o - f_y_ptr2 c))
    else Y_plane m o.
Proof.
  intros Hd. unfold RGB2YUV_32. rewrite !RGB2YUV_32_half_lanes.
  cbn [snd Y_plane]. rewrite !SAVE_SI128_lanes.
  assert (Hcases :
            f_y_ptr1 c <= o < f_y_ptr1 c + 16
            \/ f_y_ptr1 c + 16 <= o < f_y_ptr1 c + 32
            \/ f_y_ptr2 c <= o < f_y_ptr2 c + 16
            \/ f_y_ptr2 c + 16 <= o < f_y_ptr2 c + 32
            \/ ((o < f_y_ptr1 c \/ f_y_ptr1 c + 32 <= o)
                /\ (o < f_y_ptr2 c \/ f_y_ptr2 c + 32 <= o))) by lia.
  destruct Hcases as [H | [H | [H | [H | H]]]]; in_range_lia;
    try reflexivity; f_equal; lia.
Qed.

Lemma vec_row_Y (n : nat) (c : fwd_cursor) (m : yuv_planes) (o : Z) :
  f_y_ptr1 c + 32 * Z.of_nat n <= f_y_ptr2 c
  \/ f_y_ptr2 c + 32 * Z.of_nat n <= f_y_ptr1 c ->
  Y_plane (snd (vec_row prm RGB n c m)) o
  = if in_range (f_y_ptr1 c) (f_y_ptr1 c + 32 * Z.of_nat n) o
    then vector_y prm RGB (f_rgb_ptr1 c + 3 * (o - f_y_ptr1 c))
    else if in_range (f_y_ptr2 c) (f_y_ptr2 c + 32 * Z.of_nat n) o
    then vector_y prm RGB (f_rgb_ptr2 c + 3 * (o - f_y_ptr2 c))
    else Y_plane m o.
Proof.
  induction n as [|n IH]; intros Hd.
  - cbn [vec_row iter_from snd]. in_range_lia. reflexivity.
  - pose proof (vec_row_cursor prm RGB n c m) as Hc. unfold vec_row in *.
    rewrite iter_from_succ_r.
    destruct (iter_from _ _ n 0 (c, m)) as [c' m'] eqn:E.
    cbn [fst snd] in *. subst c'.
    rewrite RGB2YUV_32_Y
      by (unfold fwd_advance; cbn [f_y_ptr1 f_y_ptr2]; lia).
    rewrite IH by lia.
    unfold fwd_advance. cbn [f_y_ptr1 f_y_ptr2 f_rgb_ptr1 f_rgb_ptr2].
    assert (Hcases :
              f_y_ptr1 c <= o < f_y_ptr1 c + 32 * Z.of_nat n
              \/ f_y_ptr1 c + 32 * Z.of_nat n <= o
                 < f_y_ptr1 c + 32 * Z.of_nat (S n)
              \/ f_y_ptr2 c <= o < f_y_ptr2 c + 32 * Z.of_nat n
              \/ f_y_ptr2 c + 32 * Z.of_nat n <= o
                 < f_y_ptr2 c + 32 * Z.of_nat (S n)
              \/ ((o < f_y_ptr1 c \/ f_y_ptr1 c + 32 * Z.of_nat (S n) <= o)
                  /\ (o < f_y_ptr2 c \/ f_y_ptr2 c + 32 * Z.of_nat (S n) <= o)))
      by lia.
    destruct Hcases as [H | [H | [H | [H | H]]]]; in_range_lia;
      try reflexivity; f_equal; lia.
Qed.

End VectorLuma.

Section VectorWholeImage.
Variable prm : vector_param.
Variables (width height : Z) (RGB : plane) (RGB_stride : Z) (Y U V : plane).
Variables (Y_stride UV_stride : Z).
Hypothesis G : geometry width height RGB_stride Y_stride UV_stride.

Lemma vec_pairs_image (n : nat) :
  Z.of_nat n <= height / 2 ->
  vec_image prm width (2 * Z.of_nat n) RGB RGB_stride Y U V Y_stride UV_stride
            (vec_pairs prm width RGB RGB_stride Y U V Y_stride UV_stride n).
Proof.
  pose proof G as [Gw Gh Grs Gys Guvs Grz Gyz Guvz].
  assert (Hw2 : 0 <= width / 32 /\ 32 * (width / 32) <= width
                /\ 16 * (width / 32) <= UV_stride)
    by (Z.div_mod_to_equations; lia).
  destruct Hw2 as (Hw0 & Hw32 & HwUV).
  assert (Hh2 : 2 * (height / 2) <= height) by (Z.div_mod_to_equations; lia).
  induction n as [|n IH]; intros Hn.
  - unfold vec_pairs. cbn [iter_from]. change (Z.of_nat 0) with 0.
    split; cbn [Y_plane U_plane V_plane]; intros;
      try reflexivity; exfalso; Z.div_mod_to_equations; lia.
  - specialize (IH ltac:(lia)). destruct IH as [IY IU IV FY FU FV].
    replace (2 * Z.of_nat n / 2) with (Z.of_nat n) in *
      by (Z.div_mod_to_equations; lia).
    unfold vec_pairs in *. rewrite iter_from_succ_r.
    set (m := iter_from 2 _ n 0 _) in *.
    replace (0 + 2 * Z.of_nat n) with (2 * Z.of_nat n) by lia.
    unfold vec_pair.
    rewrite (fwd_row_start_even width height RGB_stride Y_stride UV_stride G)
      by lia.
    set (k := Z.of_nat n) in *.
    assert (Hdiv : 2 * Z.of_nat (S n) / 2 = k + 1)
      by (subst k; Z.div_mod_to_equations; lia).
    split; rewrite ?Hdiv.
    + intros r c Hr Hc.
      rewrite vec_row_Y
        by (cbn [f_y_ptr1 f_y_ptr2]; rewrite Z2Nat.id by lia; lia).
      cbn [f_y_ptr1 f_y_ptr2 f_rgb_ptr1 f_rgb_ptr2]. rewrite Z2Nat.id by lia.
      assert (r < 2 * k \/ r = 2 * k \/ r = 2 * k + 1) as [Hlt | [-> | ->]] by lia.
      * pose proof (row_cell_lt Y_stride (32 * (width / 32)) r (2 * k) c
                      ltac:(lia) ltac:(lia) Hlt).
        in_range_lia. apply IY; lia.
      * in_range_lia. f_equal. lia.
      * in_range_lia. f_equal. lia.
    + intros i j Hi Hj. rewrite vec_row_U.
      cbn [f_u_ptr f_rgb_ptr1 f_rgb_ptr2]. rewrite Z2Nat.id by lia.
      assert (i < k \/ i = k) as [Hlt | ->] by lia.
      * pose proof (row_cell_lt UV_stride (16 * (width / 32)) i k j
                      ltac:(lia) ltac:(lia) Hlt).
        in_range_lia. apply IU; lia.
      * in_range_lia. f_equal; lia.
    + intros i j Hi Hj. rewrite vec_row_V.
      cbn [f_v_ptr f_rgb_ptr1 f_rgb_ptr2]. rewrite Z2Nat.id by lia.
      assert (i < k \/ i = k) as [Hlt | ->] by lia.
      * pose proof (row_cell_lt UV_stride (16 * (width / 32)) i k j
                      ltac:(lia) ltac:(lia) Hlt).
        in_range_lia. apply IV; lia.
      * in_range_lia. f_equal; lia.
    + intros o Ho.
      rewrite vec_row_Y
        by (cbn [f_y_ptr1 f_y_ptr2]; rewrite Z2Nat.id by lia; lia).
      cbn [f_y_ptr1 f_y_ptr2 f_rgb_ptr1 f_rgb_ptr2]. rewrite Z2Nat.id by lia.
      unfold in_range.
      zbool;
        try (exfalso; apply Ho;
             first [ exists (2 * k), (o - 2 * k * Y_stride); lia
                   | exists (2 * k + 1), (o - (2 * k + 1) * Y_stride); lia ]).
      all: apply FY; intros (r & c & Hr & Hc & ->); apply Ho; exists r, c; lia.
    + intros o Ho. rewrite vec_row_U.
      cbn [f_u_ptr f_rgb_ptr1 f_rgb_ptr2]. rewrite Z2Nat.id by lia.
      unfold in_range.
      zbool; try (exfalso; apply Ho; exists k, (o - k * UV_stride); lia).
      all: apply FU; intros (i & j & Hi & Hj & ->); apply Ho; exists i, j; lia.
    + intros o Ho. rewrite vec_row_V.
      cbn [f_v_ptr f_rgb_ptr1 f_rgb_ptr2]. rewrite Z2Nat.id by lia.
      unfold in_range.
      zbool; try (exfalso; apply Ho; exists k, (o - k * UV_stride); lia).
      all: apply FV; intros (i & j & Hi & Hj & ->); apply Ho; exists i, j; lia.
Qed.

(** On a width of at least 31 the vectorised conversion completes on
    enough fuel, and leaves [vec_image]. *)
Lemma rgb24_yuv420_sseu_image (fuel : nat) :
  31 <= width ->
  width < Z.of_nat fuel -> height < Z.of_nat fuel ->
  exists m,
    for_u32 fuel (to_uint32 (height - 1)) 2
      (rgb24_yuv420_sse_rows prm fuel width RGB RGB_stride Y_stride UV_stride)
      0 (mk_yuv Y U V) = Done m /\
    vec_image prm width height RGB RGB_stride Y U V Y_stride UV_stride m.
Proof.
  intros Hw31 Hfw Hfh. pose proof G as [Gw Gh Grs Gys Guvs Grz Gyz Guvz].
  assert (Hh2 : 0 <= height / 2 /\ 2 * (height / 2) <= height)
    by (Z.div_mod_to_equations; lia).
  exists (vec_pairs prm width RGB RGB_stride Y U V Y_stride UV_stride
            (Z.to_nat (height / 2))). split.
  - unfold vec_pairs.
    apply for_u32_done;
      rewrite ?to_uint32_small, ?Z2Nat.id by lia;
      try (intros; apply rgb24_yuv420_sse_rows_complete); try lia;
      try (Z.div_mod_to_equations; lia).
  - pose proof (vec_pairs_image (Z.to_nat (height / 2))) as P.
    rewrite Z2Nat.id in P by lia. specialize (P ltac:(lia)).
    destruct P as [IY IU IV FY FU FV].
    replace (2 * (height / 2) / 2) with (height / 2) in *
      by (Z.div_mod_to_equations; lia).
    split; assumption.
Qed.

End VectorWholeImage.

Lemma to_uint16_add (a b : Z) :
  to_uint16 (to_uint16 a + to_uint16 b) = to_uint16 (a + b).
Proof. unfold to_uint16. symmetry. apply Zplus_mod. Qed.

Lemma to_uint16_mul_r (a b : Z) : to_uint16 (a * to_uint16 b) = to_uint16 (a * b).
Proof. unfold to_uint16. apply Zmult_mod_idemp_r. Qed.

Lemma to_int16_uint16 (a : Z) : to_int16 (to_uint16 a) = to_int16 a.
Proof. unfold to_int16, to_uint16. rewrite Zplus_mod_idemp_l. reflexivity. Qed.

Lemma to_int16_range (a : Z) : -32768 <= to_int16 a <= 32767.
Proof.
  unfold to_int16. pose proof (Z.mod_pos_bound (a + 2 ^ 15) (2 ^ 16)). lia.
Qed.

Lemma shiftr_int16 (s n : Z) :
  0 <= n -> -32768 <= s <= 32767 -> -32768 <= Z.shiftr s n <= 32767.
Proof.
  intros Hn Hs. rewrite shiftr_div by lia.
  assert (Hd : 1 <= 2 ^ n) by (apply (Z.pow_le_mono_r 2 0 n); lia).
  generalize dependent (2 ^ n). intros d Hd.
  Z.div_mod_to_equations. nia.
Qed.

Lemma vector_count_range (prm : vector_param) : 0 <= vector_count prm <= 15.
Proof.
  unfold vector_count.
  destruct (Z.leb_spec 0 (PRECISION prm));
    destruct (Z.leb_spec (PRECISION prm) 15); cbn [andb]; lia.
Qed.

Lemma to_uint16_dot (r g b m0 m1 m2 bias : Z) :
  to_uint16
    (to_uint16
       (to_uint16 (to_uint16 (r * to_uint16 m0) + to_uint16 (g * to_uint16 m1))
        + to_uint16 (b * to_uint16 m2))
     + to_uint16 bias)
  = to_uint16 (m0 * r + m1 * g + m2 * b + bias).
Proof.
  rewrite !to_uint16_mul_r.
  rewrite (to_uint16_add (r * m0) (g * m1)).
  rewrite (to_uint16_add (r * m0 + g * m1) (b * m2)).
  rewrite (to_uint16_add (r * m0 + g * m1 + b * m2) bias).
  f_equal. lia.
Qed.

(** The packed lane is the wrap-around dot product, shifted and
    saturated. *)
Lemma vector_byte_exact (prm : vector_param) (i bias : Z) (RGB : plane) (o : Z) :
  vector_byte prm i bias RGB o
  = vector_dot prm i bias (load8 RGB o) (load8 RGB (o + 1)) (load8 RGB (o + 2)).
Proof.
  unfold vector_byte, vector_lane, vector_dot. fold (vector_count prm).
  rewrite to_uint16_dot, !to_int16_uint16.
  rewrite (to_int16_small (Z.shiftr _ _))
    by (apply shiftr_int16; [apply vector_count_range | apply to_int16_range]).
  reflexivity.
Qed.

(** X10: the vectorised forward path (compiled out; the coefficient fields
    it reads are parameters), on an image at least 31 wide, completes and
    stores, at each pixel of rows 0..2*(H/2), columns 0..32*(W/32), the luma
    byte saturate(int16(m00*R + m01*G + m02*B + (y_shift << PRECISION))
    >> count): the dot product wraps in 16 bits, the shift is arithmetic
    (its count is PRECISION, or 15 when PRECISION is outside 0..15) and the
    packing saturates to [0,255].  The chroma byte of a block is the
    rounding average of averages of the same quantity for row 1 (U) or 2
    (V) of the matrix, with the bias 128 << PRECISION, at its four
    pixels. *)
Theorem X10_vector_bytes_are_saturated_dot_products :
  forall (table : YCbCrType -> vector_param) (yuv_type : YCbCrType)
         (width height : Z) (RGB : plane) (RGB_stride : Z) (Y U V : plane)
         (Y_stride UV_stride : Z) (fuel : nat),
    geometry width height RGB_stride Y_stride UV_stride ->
    31 <= width ->
    width < Z.of_nat fuel -> height < Z.of_nat fuel ->
    let prm := table yuv_type in
    let dot i bias r c :=
      vector_dot prm i bias (red RGB RGB_stride r c) (green RGB RGB_stride r c)
                 (blue RGB RGB_stride r c) in
    exists m,
      rgb24_yuv420_sseu table fuel width height RGB RGB_stride Y U V Y_stride
                        UV_stride yuv_type = Done m /\
      (forall r c, 0 <= r < 2 * (height / 2) -> 0 <= c < 32 * (width / 32) ->
         Y_plane m (r * Y_stride + c)
         = dot 0 (Z.shiftl (y_shift prm) (PRECISION prm)) r c) /\
      (forall i j, 0 <= i < height / 2 -> 0 <= j < 16 * (width / 32) ->
         let bias := Z.shiftl 128 (PRECISION prm) in
         U_plane m (i * UV_stride + j)
         = avg (avg (dot 1 bias (2 * i) (2 * j + 1))
                    (dot 1 bias (2 * i + 1) (2 * j + 1)))
               (avg (dot 1 bias (2 * i) (2 * j))
                    (dot 1 bias (2 * i + 1) (2 * j))) /\
         V_plane m (i * UV_stride + j)
         = avg (avg (dot 2 bias (2 * i) (2 * j + 1))
                    (dot 2 bias (2 * i + 1) (2 * j + 1)))
               (avg (dot 2 bias (2 * i) (2 * j))
                    (dot 2 bias (2 * i + 1) (2 * j)))).
Proof.
  intros table yuv_type width height RGB RGB_stride Y U V Y_stride UV_stride
    fuel G Hw31 Hw Hh prm dot.
  destruct (rgb24_yuv420_sseu_image prm width height RGB RGB_stride Y U V
              Y_stride UV_stride G fuel Hw31 Hw Hh)
    as (m & Hm & [IY IU IV _ _ _]).
  exists m. split; [exact Hm|].
  assert (Hdot : forall i bias r c,
            vector_byte prm i bias RGB (r * RGB_stride + 3 * c) = dot i bias r c).
  { intros i bias r c. rewrite vector_byte_exact. subst dot. cbv beta.
    unfold red, green, blue. reflexivity. }
  split.
  - intros r c Hr Hc. rewrite IY by assumption.
    exact (Hdot 0 (Z.shiftl (y_shift prm) (PRECISION prm)) r c).
  - intros i j Hi Hj bias. rewrite IU, IV by assumption.
    unfold block_average, vector_u, vector_v. fold bias.
    rewrite (Hdot 1 bias (2 * i) (2 * j + 1)), (Hdot 1 bias (2 * i + 1) (2 * j + 1)),
      (Hdot 1 bias (2 * i) (2 * j)), (Hdot 1 bias (2 * i + 1) (2 * j)),
      (Hdot 2 bias (2 * i) (2 * j + 1)), (Hdot 2 bias (2 * i + 1) (2 * j + 1)),
      (Hdot 2 bias (2 * i) (2 * j)), (Hdot 2 bias (2 * i + 1) (2 * j)).
    split; reflexivity.
Qed.

Lemma X10_vector_bytes_are_saturated_dot_products_witness :
  let table := fun _ : YCbCrType =>
                 mk_vector_param
                   (fun i j => if i =? 0 then 300 else if i =? j then 1 else 0)
                   2 1 in
  exists m,
    rgb24_yuv420_sseu table 40 33 2 image_blue3 99 (const_plane 7)
                      (const_plane 7) (const_plane 7) 33 17 YCBCR_709 = Done m /\
    map (Y_plane m) [0; 31; 32; 33; 64; 65] = [255; 255; 7; 255; 255; 7] /\
    map (U_plane m) [0; 15; 16] = [128; 128; 7] /\
    map (V_plane m) [0; 15; 16] = [129; 129; 7].
Proof.
  intros table.
  destruct (X10_vector_bytes_are_saturated_dot_products table YCBCR_709 33 2
              image_blue3 99 (const_plane 7) (const_plane 7) (const_plane 7)
              33 17 40%nat) as (m & Hm & _).
  - constructor; vm_compute; intuition discriminate.
  - lia.
  - vm_compute. reflexivity.
  - vm_compute. reflexivity.
  - exists m. split; [exact Hm|].
    apply (f_equal state_of) in Hm. cbn [state_of] in Hm. subst m.
    vm_compute. repeat split.
Defined.

(** X11: the vectorised forward path converts whole batches of 32
    columns.  With cols = 32*(W/32), so that W - 32 < cols <= W, a completed
    conversion of an image at least 31 wide leaves as it was every cell
    outside rows 0..2*(H/2), columns 0..cols of the luma plane and outside
    rows 0..H/2, columns 0..cols/2 of the chroma planes, in particular the
    W mod 32 trailing columns; at width 31, or at height 1, it writes
    nothing. *)
Theorem X11_vector_path_converts_whole_batches_only :
  forall (table : YCbCrType -> vector_param) (yuv_type : YCbCrType)
         (width height : Z) (RGB : plane) (RGB_stride : Z) (Y U V : plane)
         (Y_stride UV_stride : Z) (fuel : nat),
    geometry width height RGB_stride Y_stride UV_stride ->
    31 <= width ->
    width < Z.of_nat fuel -> height < Z.of_nat fuel ->
    let cols := 32 * (width / 32) in
    width - 32 < cols <= width /\
    exists m,
      rgb24_yuv420_sseu table fuel width height RGB RGB_stride Y U V Y_stride
                        UV_stride yuv_type = Done m /\
      (forall o, ~ in_region Y_stride (2 * (height / 2)) cols o ->
         Y_plane m o = Y o) /\
      (forall o, ~ in_region UV_stride (height / 2) (cols / 2) o ->
         U_plane m o = U o /\ V_plane m o = V o) /\
      (forall r c, 0 <= c < Y_stride -> 2 * (height / 2) <= r \/ cols <= c ->
         Y_plane m (r * Y_stride + c) = Y (r * Y_stride + c)) /\
      (forall r c, 0 <= c < UV_stride -> height / 2 <= r \/ cols / 2 <= c ->
         U_plane m (r * UV_stride + c) = U (r * UV_stride + c) /\
         V_plane m (r * UV_stride + c) = V (r * UV_stride + c)) /\
      (width = 31 \/ height = 1 ->
       forall o, Y_plane m o = Y o /\ U_plane m o = U o /\ V_plane m o = V o).
Proof.
  intros table yuv_type width height RGB RGB_stride Y U V Y_stride UV_stride
    fuel G Hw31 Hw Hh cols.
  pose proof G as [Gw Gh Grs Gys Guvs Grz Gyz Guvz].
  assert (Hd : width - 32 < cols <= width /\ cols / 2 = 16 * (width / 32)
               /\ 0 <= cols /\ cols / 2 <= UV_stride /\ 0 <= height / 2
               /\ (width = 31 \/ height = 1 -> height / 2 <= 0 \/ cols <= 0))
    by (subst cols; Z.div_mod_to_equations; lia).
  destruct Hd as (Hcols & Hhalf & Hc0 & Huv & Hh2 & Hnone).
  split; [exact Hcols|].
  destruct (rgb24_yuv420_sseu_image (table yuv_type) width height RGB RGB_stride
              Y U V Y_stride UV_stride G fuel Hw31 Hw Hh)
    as (m & Hm & [_ _ _ FY FU FV]).
  fold cols in FY. rewrite <- Hhalf in FU, FV.
  exists m. split; [exact Hm|]. repeat split.
  - exact FY.
  - apply FU; assumption.
  - apply FV; assumption.
  - intros r c Hc Ho. apply FY, trailing_cell_outside; lia.
  - apply FU, trailing_cell_outside; lia.
  - apply FV, trailing_cell_outside; lia.
  - apply FY, empty_region. specialize (Hnone H). lia.
  - apply FU, empty_region. specialize (Hnone H). lia.
  - apply FV, empty_region. specialize (Hnone H). lia.
Qed.

Lemma X11_vector_path_converts_whole_batches_only_witness :
  let table := fun _ : YCbCrType =>
                 mk_vector_param (fun i j => if i =? j then 1 else 0) 0 0 in
  (exists m,
     rgb24_yuv420_sseu table 70 63 3 image_blue3 189 (const_plane 7)
                       (const_plane 7) (const_plane 7) 63 32 YCBCR_601 = Done m /\
     map (Y_plane m) [0; 31; 32; 62; 63; 94; 95; 126] = [0; 0; 7; 7; 0; 0; 7; 7] /\
     map (U_plane m) [0; 15; 16; 31; 32] = [128; 128; 7; 7; 7]) /\
  (exists m,
     rgb24_yuv420_sseu table 40 31 2 image_blue3 93 (const_plane 7)
                       (const_plane 7) (const_plane 7) 31 16 YCBCR_601 = Done m /\
     forall o, Y_plane m o = 7 /\ U_plane m o = 7 /\ V_plane m o = 7).
Proof.
  intros table. split.
  - destruct (X11_vector_path_converts_whole_batches_only table YCBCR_601 63 3
                image_blue3 189 (const_plane 7) (const_plane 7) (const_plane 7)
                63 32 70%nat) as (_ & m & Hm & _).
    + constructor; vm_compute; intuition discriminate.
    + lia.
    + vm_compute. reflexivity.
    + vm_compute. reflexivity.
    + exists m. split; [exact Hm|].
      apply (f_equal state_of) in Hm. cbn [state_of] in Hm. subst m.
      vm_compute. repeat split.
  - destruct (X11_vector_path_converts_whole_batches_only table YCBCR_601 31 2
                image_blue3 93 (const_plane 7) (const_plane 7) (const_plane 7)
                31 16 40%nat) as (_ & m & Hm & _ & _ & _ & _ & Hnone).
    + constructor; vm_compute; intuition discriminate.
    + lia.
    + vm_compute. reflexivity.
    + vm_compute. reflexivity.
    + exists m. split; [exact Hm|]. intros o. apply (Hnone (or_introl eq_refl)).
Defined.

(** ** Narrow images *)

(** A counter that starts at 0 and advances by 32 modulo 2^32 stays a
    multiple of 32, hence at most 2^32 - 32. *)
Lemma counter_u32_batches (k : nat) : counter_u32 32 k 0 <= 2 ^ 32 - 32.
Proof.
  assert (H : exists j, counter_u32 32 k 0 = 32 * j /\ 0 <= 32 * j < 2 ^ 32).
  { induction k as [|k (j & Hj & Hr)].
    - exists 0. cbn. lia.
    - change (counter_u32 32 (S k) 0) with (to_uint32 (counter_u32 32 k 0 + 32)).
      rewrite Hj. unfold to_uint32.
      destruct (Z.eq_dec (32 * j + 32) (2 ^ 32)) as [E | E].
      + exists 0. rewrite E, Z.mod_same by lia. lia.
      + exists (j + 1). rewrite Z.mod_small by lia. lia. }
  destruct H as (j & -> & Hr). lia.
Qed.

(** X12: for a width below 31 the bound W - 31 of the inner loop of the
    vectorised forward path wraps to 2^32 - 31 + W, which its counter, a
    multiple of 32, never reaches.  Unless the height is 1, the conversion
    does not complete, whatever the fuel: the batch body has run once per
    unit of fuel from the start of the first row pair, storing sixteen
    chroma bytes per batch, beyond the width of the image. *)
Theorem X12_vector_path_runs_away_on_narrow_images :
  forall (table : YCbCrType -> vector_param) (yuv_type : YCbCrType)
         (width height : Z) (RGB : plane) (RGB_stride : Z) (Y U V : plane)
         (Y_stride UV_stride : Z) (fuel : nat),
    0 <= width < 31 -> 0 <= height < 2 ^ 32 -> height <> 1 ->
    let prm := table yuv_type in
    to_uint32 (width - 31) = 2 ^ 32 - 31 + width /\
    rgb24_yuv420_sseu table fuel width height RGB RGB_stride Y U V Y_stride
                      UV_stride yuv_type
    = OutOfFuel
        (snd (iter_u32 32 (fun _ s => RGB2YUV_32 prm RGB s) fuel 0
                (fwd_row_start RGB_stride Y_stride UV_stride 0, mk_yuv Y U V))) /\
    ((0 < fuel)%nat ->
     let m := state_of (rgb24_yuv420_sseu table fuel width height RGB RGB_stride
                          Y U V Y_stride UV_stride yuv_type) in
     forall j, 0 <= j < 16 * Z.of_nat fuel ->
       U_plane m j = block_average (vector_u prm RGB) 0 (to_uint32 RGB_stride) j /\
       V_plane m j = block_average (vector_v prm RGB) 0 (to_uint32 RGB_stride) j).
Proof.
  intros table yuv_type width height RGB RGB_stride Y U V Y_stride UV_stride
    fuel Hw Hh Hh1 prm.
  assert (Hb : to_uint32 (width - 31) = 2 ^ 32 - 31 + width).
  { unfold to_uint32. replace (width - 31) with (2 ^ 32 - 31 + width + -1 * 2 ^ 32)
      by lia. rewrite Z.mod_add, Z.mod_small by lia. reflexivity. }
  assert (Hbh : 0 < to_uint32 (height - 1)).
  { destruct (Z.eq_dec height 0) as [-> | Hne]; [reflexivity|].
    rewrite to_uint32_small; lia. }
  assert (Hrun :
    rgb24_yuv420_sseu table fuel width height RGB RGB_stride Y U V Y_stride
                      UV_stride yuv_type
    = OutOfFuel
        (snd (iter_u32 32 (fun _ s => RGB2YUV_32 prm RGB s) fuel 0
                (fwd_row_start RGB_stride Y_stride UV_stride 0, mk_yuv Y U V)))).
  { unfold rgb24_yuv420_sseu. fold prm.
    destruct fuel as [|fuel]; [reflexivity|].
    cbn [for_u32]. destruct (Z.ltb_spec 0 (to_uint32 (height - 1))); [|lia].
    unfold rgb24_yuv420_sse_rows.
    rewrite (for_u32_out_of_fuel (to_uint32 (width - 31)) 32 _
               (fun _ s => RGB2YUV_32 prm RGB s) (fun _ _ => eq_refl)).
    - reflexivity.
    - intros k _. pose proof (counter_u32_batches k). lia. }
  split; [exact Hb|]. split; [exact Hrun|].
  intros Hf m j Hj. subst m. rewrite Hrun. cbn [state_of].
  rewrite (iter_u32_ignores_counter _ 32 fuel 0 0).
  fold (vec_row prm RGB fuel (fwd_row_start RGB_stride Y_stride UV_stride 0)
                (mk_yuv Y U V)).
  rewrite vec_row_U, vec_row_V. unfold fwd_row_start.
  cbn [f_u_ptr f_v_ptr f_rgb_ptr1 f_rgb_ptr2].
  change (to_uint32 (0 / 2 * UV_stride)) with 0.
  change (to_uint32 (0 * RGB_stride)) with 0.
  change (to_uint32 (0 + 1)) with 1. rewrite Z.mul_1_l.
  rewrite !in_range_true by lia. rewrite Z.sub_0_r. split; reflexivity.
Qed.

Lemma X12_vector_path_runs_away_on_narrow_images_witness :
  let table := fun _ : YCbCrType =>
                 mk_vector_param (fun i j => if i =? j then 1 else 0) 0 0 in
  exists m,
    rgb24_yuv420_sseu table 2 30 2 image_blue3 90 (const_plane 7) (const_plane 7)
                      (const_plane 7) 30 15 YCBCR_601 = OutOfFuel m /\
    map (U_plane m) [0; 14; 15; 31; 32] = [128; 128; 128; 128; 7].
Proof.
  intros table.
  destruct (X12_vector_path_runs_away_on_narrow_images table YCBCR_601 30 2
              image_blue3 90 (const_plane 7) (const_plane 7) (const_plane 7)
              30 15 2%nat) as (_ & Hrun & _); try lia.
  eexists. split; [exact Hrun|]. vm_compute. reflexivity.
Defined.

Ltac sixteen l H :=
  do 17 (destruct l as [|? l]; try discriminate H).

Ltac split_bytes :=
  repeat match goal with
         | H : Forall _ (_ :: _) |- _ => inversion H; clear H; subst
         end.

Lemma pack_even (a b : list Z) :
  byte_register a -> byte_register b ->
  _mm_packus_epi16 (_mm_and_si128 (epi8 a) (_mm_set1_epi16 255))
                   (_mm_and_si128 (epi8 b) (_mm_set1_epi16 255))
  = epi8 (evens a ++ evens b).
Proof.
  intros (La & Fa) (Lb & Fb). sixteen a La. sixteen b Lb. split_bytes.
  unfold _mm_and_si128, _mm_packus_epi16.
  change (as_bytes (_mm_set1_epi16 255))
    with [255; 0; 255; 0; 255; 0; 255; 0; 255; 0; 255; 0; 255; 0; 255; 0].
  cbn -[Z.shiftr Z.land saturate to_int16 Z.add Z.mul].
  rewrite !even_byte by assumption. reflexivity.
Qed.

Lemma pack_odd (a b : list Z) :
  byte_register a -> byte_register b ->
  _mm_packus_epi16 (_mm_srli_epi16 (epi8 a) 8) (_mm_srli_epi16 (epi8 b) 8)
  = epi8 (odds a ++ odds b).
Proof.
  intros (La & Fa) (Lb & Fb). sixteen a La. sixteen b Lb. split_bytes.
  unfold _mm_srli_epi16, _mm_packus_epi16.
  change ((0 <=? 8) && (8 <=? 15)) with true.
  cbn -[Z.shiftr Z.land saturate to_int16 Z.add Z.mul].
  rewrite !odd_byte by assumption. reflexivity.
Qed.

Lemma byte_register_halves (a b : list Z) :
  byte_register a -> byte_register b ->
  byte_register (evens a ++ evens b) /\ byte_register (odds a ++ odds b).
Proof.
  intros (La & Fa) (Lb & Fb). sixteen a La. sixteen b Lb. split_bytes.
  split; (split; [reflexivity|]); cbn [evens odds app];
    repeat (apply Forall_cons; [assumption|]); apply Forall_nil.
Qed.

Lemma PACK_RGB24_32_STEP1_bytes (r1 r2 g1 g2 b1 b2 : list Z) :
  byte_register r1 -> byte_register r2 -> byte_register g1 ->
  byte_register g2 -> byte_register b1 -> byte_register b2 ->
  PACK_RGB24_32_STEP1 (epi8 r1, epi8 r2, epi8 g1, epi8 g2, epi8 b1, epi8 b2)
  = (epi8 (evens r1 ++ evens r2), epi8 (evens g1 ++ evens g2),
     epi8 (evens b1 ++ evens b2), epi8 (odds r1 ++ odds r2),
     epi8 (odds g1 ++ odds g2), epi8 (odds b1 ++ odds b2)).
Proof.
  intros R1 R2 G1 G2 B1 B2. unfold PACK_RGB24_32_STEP1.
  rewrite !pack_even, !pack_odd by assumption. reflexivity.
Qed.

Lemma PACK_RGB24_32_STEP2_bytes (a1 a2 a3 a4 a5 a6 : list Z) :
  byte_register a1 -> byte_register a2 -> byte_register a3 ->
  byte_register a4 -> byte_register a5 -> byte_register a6 ->
  PACK_RGB24_32_STEP2 (epi8 a1, epi8 a2, epi8 a3, epi8 a4, epi8 a5, epi8 a6)
  = (epi8 (evens a1 ++ evens a2), epi8 (evens a3 ++ evens a4),
     epi8 (evens a5 ++ evens a6), epi8 (odds a1 ++ odds a2),
     epi8 (odds a3 ++ odds a4), epi8 (odds a5 ++ odds a6)).
Proof.
  intros A1 A2 A3 A4 A5 A6. unfold PACK_RGB24_32_STEP2.
  rewrite !pack_even, !pack_odd by assumption. reflexivity.
Qed.

(** The packing network, as a permutation of the ninety-six bytes. *)
Lemma PACK_RGB24_32_bytes (r1 r2 g1 g2 b1 b2 : list Z) :
  byte_register r1 -> byte_register r2 -> byte_register g1 ->
  byte_register g2 -> byte_register b1 -> byte_register b2 ->
  PACK_RGB24_32 (epi8 r1, epi8 r2, epi8 g1, epi8 g2, epi8 b1, epi8 b2)
  = six_of_bytes (interleave3 (r1 ++ r2) (g1 ++ g2) (b1 ++ b2)).
Proof.
  intros R1 R2 G1 G2 B1 B2. unfold PACK_RGB24_32.
  rewrite PACK_RGB24_32_STEP1_bytes by assumption.
  destruct (byte_register_halves _ _ R1 R2) as (Ra & Rb).
  destruct (byte_register_halves _ _ G1 G2) as (Ga & Gb).
  destruct (byte_register_halves _ _ B1 B2) as (Ba & Bb).
  rewrite PACK_RGB24_32_STEP2_bytes by assumption.
  destruct (byte_register_halves _ _ Ra Ga) as (S1 & S4).
  destruct (byte_register_halves _ _ Ba Rb) as (S2 & S5).
  destruct (byte_register_halves _ _ Gb Bb) as (S3 & S6).
  rewrite PACK_RGB24_32_STEP1_bytes by assumption.
  destruct (byte_register_halves _ _ S1 S2) as (T1 & T4).
  destruct (byte_register_halves _ _ S3 S4) as (T2 & T5).
  destruct (byte_register_halves _ _ S5 S6) as (T3 & T6).
  rewrite PACK_RGB24_32_STEP2_bytes by assumption.
  destruct (byte_register_halves _ _ T1 T2) as (U1 & U4).
  destruct (byte_register_halves _ _ T3 T4) as (U2 & U5).
  destruct (byte_register_halves _ _ T5 T6) as (U3 & U6).
  rewrite PACK_RGB24_32_STEP1_bytes by assumption.
  clear - R1 R2 G1 G2 B1 B2.
  destruct R1 as (L1 & _), R2 as (L2 & _), G1 as (L3 & _), G2 as (L4 & _),
    B1 as (L5 & _), B2 as (L6 & _).
  sixteen r1 L1. sixteen r2 L2. sixteen g1 L3. sixteen g2 L4.
  sixteen b1 L5. sixteen b2 L6.
  reflexivity.
Qed.

Section InverseVectorKernel.
Variable prm : YUV2RGBVector.t.
Variables Y U V : plane.

Ltac halve_literals :=
  change (0 / 2) with 0; change (1 / 2) with 0; change (2 / 2) with 1;
  change (3 / 2) with 1; change (4 / 2) with 2; change (5 / 2) with 2;
  change (6 / 2) with 3; change (7 / 2) with 3; change (8 / 2) with 4;
  change (9 / 2) with 4; change (10 / 2) with 5; change (11 / 2) with 5;
  change (12 / 2) with 6; change (13 / 2) with 6; change (14 / 2) with 7;
  change (15 / 2) with 7.

(** Sixteen pixels of a line whose chroma samples are the first eight of
    the two registers. *)
Lemma YUV2RGB_32_line_lo (y_ptr u_ptr v_ptr : Z) :
  YUV2RGB_32_line prm Y y_ptr
    (YUV2RGB_32_chroma prm
       (_mm_unpacklo_epi8 (LOAD_SI128 U u_ptr) _mm_setzero_si128)
       (_mm_unpacklo_epi8 (LOAD_SI128 V v_ptr) _mm_setzero_si128))
  = (epi8 (map (fun k => inverse_vector_byte prm Y U V (y_ptr + k)
                           (u_ptr + k / 2) (v_ptr + k / 2) 0) lanes16),
     epi8 (map (fun k => inverse_vector_byte prm Y U V (y_ptr + k)
                           (u_ptr + k / 2) (v_ptr + k / 2) 1) lanes16),
     epi8 (map (fun k => inverse_vector_byte prm Y U V (y_ptr + k)
                           (u_ptr + k / 2) (v_ptr + k / 2) 2) lanes16)).
Proof.
  unfold YUV2RGB_32_line, YUV2RGB_32_chroma, UV2RGB_16, ADD_Y2RGB_16, LOAD_SI128.
  unfold inverse_vector_byte, inverse_vector_lane.
  unfold _mm_packus_epi16, _mm_srai_epi16, _mm_add_epi16, _mm_sub_epi16,
    _mm_mullo_epi16, _mm_unpacklo_epi8, _mm_unpackhi_epi8, _mm_unpacklo_epi16,
    _mm_unpackhi_epi16, _mm_set1_epi16, _mm_setzero_si128, lanes16.
  cbn -[Z.shiftr Z.shiftl Z.land Z.modulo Z.div to_uint16 to_int16 to_uint8
        saturate load8 Z.ltb Z.leb andb].
  halve_literals.
  rewrite !Z.add_0_r.
  reflexivity.
Qed.

(** The same for the last eight samples of the two registers, which cover
    pixels 16 to 31. *)
Lemma YUV2RGB_32_line_hi (y_ptr u_ptr v_ptr : Z) :
  YUV2RGB_32_line prm Y (y_ptr + 16)
    (YUV2RGB_32_chroma prm
       (_mm_unpackhi_epi8 (LOAD_SI128 U u_ptr) _mm_setzero_si128)
       (_mm_unpackhi_epi8 (LOAD_SI128 V v_ptr) _mm_setzero_si128))
  = (epi8 (map (fun k => inverse_vector_byte prm Y U V (y_ptr + k)
                           (u_ptr + k / 2) (v_ptr + k / 2) 0)
               (map (Z.add 16) lanes16)),
     epi8 (map (fun k => inverse_vector_byte prm Y U V (y_ptr + k)
                           (u_ptr + k / 2) (v_ptr + k / 2) 1)
               (map (Z.add 16) lanes16)),
     epi8 (map (fun k => inverse_vector_byte prm Y U V (y_ptr + k)
                           (u_ptr + k / 2) (v_ptr + k / 2) 2)
               (map (Z.add 16) lanes16))).
Proof.
  unfold YUV2RGB_32_line, YUV2RGB_32_chroma, UV2RGB_16, ADD_Y2RGB_16, LOAD_SI128.
  unfold inverse_vector_byte, inverse_vector_lane.
  unfold _mm_packus_epi16, _mm_srai_epi16, _mm_add_epi16, _mm_sub_epi16,
    _mm_mullo_epi16, _mm_unpacklo_epi8, _mm_unpackhi_epi8, _mm_unpacklo_epi16,
    _mm_unpackhi_epi16, _mm_set1_epi16, _mm_setzero_si128, lanes16.
  cbn -[Z.shiftr Z.shiftl Z.land Z.modulo Z.div to_uint16 to_int16 to_uint8
        saturate load8 Z.ltb Z.leb andb].
  change (16 / 2) with 8; change (17 / 2) with 8; change (18 / 2) with 9;
  change (19 / 2) with 9; change (20 / 2) with 10; change (21 / 2) with 10;
  change (22 / 2) with 11; change (23 / 2) with 11; change (24 / 2) with 12;
  change (25 / 2) with 12; change (26 / 2) with 13; change (27 / 2) with 13;
  change (28 / 2) with 14; change (29 / 2) with 14; change (30 / 2) with 15;
  change (31 / 2) with 15.
  rewrite !Z.add_0_r, <- !Z.add_assoc.
  cbn -[Z.shiftr Z.shiftl Z.land Z.modulo Z.div to_uint16 to_int16 to_uint8
        saturate load8 Z.ltb Z.leb andb].
  reflexivity.
Qed.

End InverseVectorKernel.

Lemma nth_interleave3 (k : nat) :
  forall (r g b : list Z) (d : Z),
    length r = length g -> length g = length b -> (k < length r)%nat ->
    nth (3 * k) (interleave3 r g b) d = nth k r d /\
    nth (3 * k + 1) (interleave3 r g b) d = nth k g d /\
    nth (3 * k + 2) (interleave3 r g b) d = nth k b d.
Proof.
  induction k as [|k IH]; intros [|x r] [|y g] [|z b] d Hrg Hgb Hk;
    cbn [length] in *; try lia.
  - cbn. auto.
  - replace (3 * S k)%nat with (S (S (S (3 * k)))) by lia.
    cbn [Nat.add nth interleave3]. apply IH; lia.
Qed.

Lemma nth_lanes32 (f : Z -> Z) (j : Z) :
  0 <= j < 32 -> nth (Z.to_nat j) (map f lanes32) 0 = f j.
Proof.
  intros Hj.
  assert (Hc : In j lanes32) by (unfold lanes32, lanes16; cbn; lia).
  unfold lanes32, lanes16 in Hc. cbn in Hc.
  repeat (destruct Hc as [<- | Hc]; [reflexivity|]). destruct Hc.
Qed.

(** The byte at rank [d] of thirty-two interleaved pixels. *)
Lemma nth_interleaved_lanes (f : Z -> Z -> Z) (d : Z) :
  0 <= d < 96 ->
  nth (Z.to_nat d)
      (interleave3 (map (f 0) lanes32) (map (f 1) lanes32) (map (f 2) lanes32)) 0
  = f (d mod 3) (d / 3).
Proof.
  intros Hd.
  assert (Hq : 0 <= d / 3 < 32 /\ 0 <= d mod 3 < 3
               /\ d = 3 * (d / 3) + d mod 3)
    by (Z.div_mod_to_equations; lia).
  destruct Hq as (Hq & Hr & E).
  destruct (nth_interleave3 (Z.to_nat (d / 3)) (map (f 0) lanes32)
              (map (f 1) lanes32) (map (f 2) lanes32) 0
              eq_refl eq_refl) as (N0 & N1 & N2).
  { change (length (map (f 0) lanes32)) with 32%nat. lia. }
  rewrite !nth_lanes32 in N0, N1, N2 by lia.
  assert (d mod 3 = 0 \/ d mod 3 = 1 \/ d mod 3 = 2) as [R | [R | R]] by lia;
    rewrite R in *.
  - rewrite <- N0. f_equal. lia.
  - rewrite <- N1. f_equal. lia.
  - rewrite <- N2. f_equal. lia.
Qed.

Lemma SAVE_SI128_chunk (p : plane) (ptr : Z) (l : list Z) (n : nat) (o : Z) :
  SAVE_SI128 p ptr (epi8 (firstn 16 (skipn n l))) o
  = if in_range ptr (ptr + 16) o
    then nth (n + Z.to_nat (o - ptr)) l 0
    else p o.
Proof.
  unfold SAVE_SI128, as_bytes.
  destruct (in_range ptr (ptr + 16) o) eqn:E; [|reflexivity].
  unfold in_range in E. apply andb_prop in E. destruct E as (E1 & E2).
  apply Z.leb_le in E1. apply Z.ltb_lt in E2.
  rewrite nth_firstn, nth_skipn.
  destruct (Nat.ltb_spec (Z.to_nat (o - ptr)) 16); [reflexivity | lia].
Qed.

(** Six registers of consecutive bytes stored at consecutive addresses. *)
Lemma SAVE_six_bytes (RGB : plane) (ptr : Z) (l : list Z) (o : Z) :
  SAVE_six RGB ptr (six_of_bytes l) o
  = if in_range ptr (ptr + 96) o then nth (Z.to_nat (o - ptr)) l 0 else RGB o.
Proof.
  unfold SAVE_six, six_of_bytes.
  change (firstn 16 l) with (firstn 16 (skipn 0 l)).
  rewrite !SAVE_SI128_chunk.
  assert (Hcases :
            ptr <= o < ptr + 16 \/ ptr + 16 <= o < ptr + 32
            \/ ptr + 32 <= o < ptr + 48 \/ ptr + 48 <= o < ptr + 64
            \/ ptr + 64 <= o < ptr + 80 \/ ptr + 80 <= o < ptr + 96
            \/ (o < ptr \/ ptr + 96 <= o)) by lia.
  destruct Hcases as [H | [H | [H | [H | [H | [H | H]]]]]]; in_range_lia;
    try reflexivity; f_equal; lia.
Qed.

Lemma byte_register_lanes (f : Z -> Z) (l : list Z) :
  length l = 16%nat -> (forall k, is_byte (f k)) -> byte_register (map f l).
Proof.
  intros Hl Hf. split.
  - rewrite length_map. exact Hl.
  - apply Forall_forall. intros x Hx. apply in_map_iff in Hx.
    destruct Hx as (k & <- & _). apply Hf.
Qed.

Section InverseVectorRow.
Variable prm : YUV2RGBVector.t.
Variables Y U V : plane.

Lemma YUV2RGB_32_cursor (c : inv_cursor) (RGB : plane) :
  fst (YUV2RGB_32 prm Y U V (c, RGB)) = inv_advance c 16.
Proof.
  unfold YUV2RGB_32.
  rewrite !YUV2RGB_32_line_lo, !YUV2RGB_32_line_hi. reflexivity.
Qed.

(** One batch, cell by cell. *)
Lemma YUV2RGB_32_RGB (c : inv_cursor) (RGB : plane) (o : Z) :
  i_rgb_ptr1 c + 96 <= i_rgb_ptr2 c \/ i_rgb_ptr2 c + 96 <= i_rgb_ptr1 c ->
  snd (YUV2RGB_32 prm Y U V (c, RGB)) o
  = if in_range (i_rgb_ptr1 c) (i_rgb_ptr1 c + 96) o
    then inverse_vector_byte prm Y U V
           (i_y_ptr1 c + (o - i_rgb_ptr1 c) / 3)
           (i_u_ptr c + (o - i_rgb_ptr1 c) / 6)
           (i_v_ptr c + (o - i_rgb_ptr1 c) / 6)
           ((o - i_rgb_ptr1 c) mod 3)
    else if in_range (i_rgb_ptr2 c) (i_rgb_ptr2 c + 96) o
    then inverse_vector_byte prm Y U V
           (i_y_ptr2 c + (o - i_rgb_ptr2 c) / 3)
           (i_u_ptr c + (o - i_rgb_ptr2 c) / 6)
           (i_v_ptr c + (o - i_rgb_ptr2 c) / 6)
           ((o - i_rgb_ptr2 c) mod 3)
    else RGB o.
Proof.
  intros Hd. unfold YUV2RGB_32.
  rewrite !YUV2RGB_32_line_lo, !YUV2RGB_32_line_hi. cbn [snd].
  rewrite !PACK_RGB24_32_bytes
    by (apply byte_register_lanes;
        [reflexivity | intros; apply saturate_range]).
  rewrite <- !map_app. fold lanes32.
  rewrite !SAVE_six_bytes.
  assert (Hcases :
            i_rgb_ptr1 c <= o < i_rgb_ptr1 c + 96
            \/ i_rgb_ptr2 c <= o < i_rgb_ptr2 c + 96
            \/ ((o < i_rgb_ptr1 c \/ i_rgb_ptr1 c + 96 <= o)
                /\ (o < i_rgb_ptr2 c \/ i_rgb_ptr2 c + 96 <= o))) by lia.
  destruct Hcases as [H | [H | H]]; in_range_lia; try reflexivity.
  - rewrite (nth_interleaved_lanes
               (fun ch k => inverse_vector_byte prm Y U V (i_y_ptr1 c + k)
                              (i_u_ptr c + k / 2) (i_v_ptr c + k / 2) ch))
      by lia.
    f_equal; f_equal; Z.div_mod_to_equations; lia.
  - rewrite (nth_interleaved_lanes
               (fun ch k => inverse_vector_byte prm Y U V (i_y_ptr2 c + k)
                              (i_u_ptr c + k / 2) (i_v_ptr c + k / 2) ch))
      by lia.
    f_equal; f_equal; Z.div_mod_to_equations; lia.
Qed.

Lemma inverse_vec_row_cursor (n : nat) (c : inv_cursor) (RGB : plane) :
  fst (inverse_vec_row prm Y U V n c RGB) = inv_advance c (16 * Z.of_nat n).
Proof.
  unfold inverse_vec_row. induction n as [|n IH].
  - cbn [iter_from fst]. unfold inv_advance. destruct c as [a1 a2 a3 a4 a5 a6].
    cbn [i_y_ptr1 i_y_ptr2 i_u_ptr i_v_ptr i_rgb_ptr1 i_rgb_ptr2]. f_equal; lia.
  - rewrite iter_from_succ_r.
    destruct (iter_from _ _ n 0 (c, RGB)) as [c' m'] eqn:E. cbn [fst] in IH.
    rewrite YUV2RGB_32_cursor. subst c'. unfold inv_advance.
    cbn [i_y_ptr1 i_y_ptr2 i_u_ptr i_v_ptr i_rgb_ptr1 i_rgb_ptr2]. f_equal; lia.
Qed.

Lemma inverse_vec_row_RGB (n : nat) (c : inv_cursor) (RGB : plane) (o : Z) :
  i_rgb_ptr1 c + 96 * Z.of_nat n <= i_rgb_ptr2 c
  \/ i_rgb_ptr2 c + 96 * Z.of_nat n <= i_rgb_ptr1 c ->
  snd (inverse_vec_row prm Y U V n c RGB) o
  = if in_range (i_rgb_ptr1 c) (i_rgb_ptr1 c + 96 * Z.of_nat n) o
    then inverse_vector_byte prm Y U V
           (i_y_ptr1 c + (o - i_rgb_ptr1 c) / 3)
           (i_u_ptr c + (o - i_rgb_ptr1 c) / 6)
           (i_v_ptr c + (o - i_rgb_ptr1 c) / 6)
           ((o - i_rgb_ptr1 c) mod 3)
    else if in_range (i_rgb_ptr2 c) (i_rgb_ptr2 c + 96 * Z.of_nat n) o
    then inverse_vector_byte prm Y U V
           (i_y_ptr2 c + (o - i_rgb_ptr2 c) / 3)
           (i_u_ptr c + (o - i_rgb_ptr2 c) / 6)
           (i_v_ptr c + (o - i_rgb_ptr2 c) / 6)
           ((o - i_rgb_ptr2 c) mod 3)
    else RGB o.
Proof.
  induction n as [|n IH]; intros Hd.
  - cbn [inverse_vec_row iter_from snd]. in_range_lia. reflexivity.
  - pose proof (inverse_vec_row_cursor n c RGB) as Hc.
    unfold inverse_vec_row in *. rewrite iter_from_succ_r.
    destruct (iter_from _ _ n 0 (c, RGB)) as [c' m'] eqn:E.
    cbn [fst snd] in *. subst c'.
    rewrite YUV2RGB_32_RGB
      by (unfold inv_advance; cbn [i_rgb_ptr1 i_rgb_ptr2]; lia).
    rewrite IH by lia.
    unfold inv_advance.
    cbn [i_y_ptr1 i_y_ptr2 i_u_ptr i_v_ptr i_rgb_ptr1 i_rgb_ptr2].
    assert (Hcases :
              i_rgb_ptr1 c <= o < i_rgb_ptr1 c + 96 * Z.of_nat n
              \/ i_rgb_ptr1 c + 96 * Z.of_nat n <= o
                 < i_rgb_ptr1 c + 96 * Z.of_nat (S n)
              \/ i_rgb_ptr2 c <= o < i_rgb_ptr2 c + 96 * Z.of_nat n
              \/ i_rgb_ptr2 c + 96 * Z.of_nat n <= o
                 < i_rgb_ptr2 c + 96 * Z.of_nat (S n)
              \/ ((o < i_rgb_ptr1 c \/ i_rgb_ptr1 c + 96 * Z.of_nat (S n) <= o)
                  /\ (o < i_rgb_ptr2 c
                      \/ i_rgb_ptr2 c + 96 * Z.of_nat (S n) <= o)))
      by lia.
    destruct Hcases as [H | [H | [H | [H | H]]]]; in_range_lia;
      try reflexivity; f_equal; Z.div_mod_to_equations; lia.
Qed.

End InverseVectorRow.

(** On a width of at least one batch the inner loop completes. *)
Lemma yuv420_rgb24_sse_rows_complete (prm : YUV2RGBVector.t) (fuel : nat)
    (width : Z) (Y U V : plane) (Y_stride UV_stride RGB_stride y : Z)
    (RGB : plane) :
  31 <= width < 2 ^ 32 -> width < Z.of_nat fuel ->
  yuv420_rgb24_sse_rows prm fuel width Y U V Y_stride UV_stride RGB_stride y RGB
  = Done (inverse_vec_pair prm width Y U V Y_stride UV_stride RGB_stride y RGB).
Proof.
  intros Hw Hf. unfold yuv420_rgb24_sse_rows, inverse_vec_pair, inverse_vec_row.
  rewrite (for_u32_done (to_uint32 (width - 31)) 32 _
             (fun _ s => YUV2RGB_32 prm Y U V s)
             (fun _ _ => eq_refl) (Z.to_nat (width / 32)));
    rewrite ?to_uint32_small by lia; try reflexivity; try lia.
  - rewrite Z2Nat.id by (Z.div_mod_to_equations; lia). Z.div_mod_to_equations; lia.
  - rewrite Z2Nat.id by (Z.div_mod_to_equations; lia). Z.div_mod_to_equations; lia.
  - assert (width / 32 <= width) by (Z.div_mod_to_equations; lia). lia.
Qed.

Section InverseVectorImage.
Variable prm : YUV2RGBVector.t.
Variables (width height : Z) (Y U V : plane) (Y_stride UV_stride : Z).
Variables (RGB : plane) (RGB_stride : Z).
Hypothesis G : geometry width height RGB_stride Y_stride UV_stride.

Lemma inverse_vec_pairs_image (n : nat) :
  Z.of_nat n <= height / 2 ->
  inverse_vec_image prm width (2 * Z.of_nat n) Y U V Y_stride UV_stride RGB
    RGB_stride
    (inverse_vec_pairs prm width Y U V Y_stride UV_stride RGB RGB_stride n).
Proof.
  pose proof G as [Gw Gh Grs Gys Guvs Grz Gyz Guvz].
  assert (Hw2 : 0 <= width / 32 /\ 32 * (width / 32) <= width)
    by (Z.div_mod_to_equations; lia).
  destruct Hw2 as (Hw0 & Hw32).
  assert (Hh2 : 2 * (height / 2) <= height) by (Z.div_mod_to_equations; lia).
  induction n as [|n IH]; intros Hn.
  - unfold inverse_vec_pairs. cbn [iter_from]. change (Z.of_nat 0) with 0.
    split; intros; try reflexivity; exfalso; Z.div_mod_to_equations; lia.
  - specialize (IH ltac:(lia)). destruct IH as [IR FR].
    replace (2 * Z.of_nat n / 2) with (Z.of_nat n) in *
      by (Z.div_mod_to_equations; lia).
    unfold inverse_vec_pairs in *. rewrite iter_from_succ_r.
    set (m := iter_from 2 _ n 0 _) in *.
    replace (0 + 2 * Z.of_nat n) with (2 * Z.of_nat n) by lia.
    unfold inverse_vec_pair.
    rewrite (inv_row_start_even width height Y_stride UV_stride RGB_stride G)
      by lia.
    set (k := Z.of_nat n) in *.
    assert (Hdiv : 2 * Z.of_nat (S n) / 2 = k + 1)
      by (subst k; Z.div_mod_to_equations; lia).
    split; rewrite Hdiv.
    + intros r c ch Hr Hc Hch.
      rewrite inverse_vec_row_RGB
        by (cbn [i_rgb_ptr1 i_rgb_ptr2]; rewrite Z2Nat.id by lia; lia).
      cbn [i_y_ptr1 i_y_ptr2 i_u_ptr i_v_ptr i_rgb_ptr1 i_rgb_ptr2].
      rewrite Z2Nat.id by lia.
      assert (r < 2 * k \/ r = 2 * k \/ r = 2 * k + 1) as [Hlt | [-> | ->]] by lia.
      * pose proof (row_cell_lt RGB_stride (3 * (32 * (width / 32))) r (2 * k)
                      (3 * c + ch) ltac:(lia) ltac:(lia) Hlt).
        in_range_lia. apply IR; lia.
      * replace (2 * k / 2) with k by (Z.div_mod_to_equations; lia).
        in_range_lia. f_equal; Z.div_mod_to_equations; lia.
      * replace ((2 * k + 1) / 2) with k by (Z.div_mod_to_equations; lia).
        in_range_lia. f_equal; Z.div_mod_to_equations; lia.
    + intros o Ho.
      rewrite inverse_vec_row_RGB
        by (cbn [i_rgb_ptr1 i_rgb_ptr2]; rewrite Z2Nat.id by lia; lia).
      cbn [i_y_ptr1 i_y_ptr2 i_u_ptr i_v_ptr i_rgb_ptr1 i_rgb_ptr2].
      rewrite Z2Nat.id by lia. unfold in_range.
      zbool;
        try (exfalso; apply Ho;
             first [ exists (2 * k), (o - 2 * k * RGB_stride); lia
                   | exists (2 * k + 1), (o - (2 * k + 1) * RGB_stride); lia ]).
      all: apply FR; intros (r & c & Hr & Hc & ->); apply Ho; exists r, c; lia.
Qed.

(** On a width of at least 31 the vectorised inverse conversion completes
    on enough fuel, and leaves [inverse_vec_image]. *)
Lemma yuv420_rgb24_sseu_image (fuel : nat) :
  31 <= width ->
  width < Z.of_nat fuel -> height < Z.of_nat fuel ->
  exists out,
    for_u32 fuel (to_uint32 (height - 1)) 2
      (yuv420_rgb24_sse_rows prm fuel width Y U V Y_stride UV_stride RGB_stride)
      0 RGB = Done out /\
    inverse_vec_image prm width height Y U V Y_stride UV_stride RGB RGB_stride
                      out.
Proof.
  intros Hw31 Hfw Hfh. pose proof G as [Gw Gh Grs Gys Guvs Grz Gyz Guvz].
  assert (Hh2 : 0 <= height / 2 /\ 2 * (height / 2) <= height)
    by (Z.div_mod_to_equations; lia).
  exists (inverse_vec_pairs prm width Y U V Y_stride UV_stride RGB RGB_stride
            (Z.to_nat (height / 2))). split.
  - unfold inverse_vec_pairs.
    apply for_u32_done;
      rewrite ?to_uint32_small, ?Z2Nat.id by lia;
      try (intros; apply yuv420_rgb24_sse_rows_complete); try lia;
      try (Z.div_mod_to_equations; lia).
  - pose proof (inverse_vec_pairs_image (Z.to_nat (height / 2))) as P.
    rewrite Z2Nat.id in P by lia. specialize (P ltac:(lia)).
    destruct P as [IR FR].
    replace (2 * (height / 2) / 2) with (height / 2) in *
      by (Z.div_mod_to_equations; lia).
    split; assumption.
Qed.

End InverseVectorImage.

Lemma to_uint16_mul (a b : Z) :
  to_uint16 (to_uint16 a * to_uint16 b) = to_uint16 (a * b).
Proof. unfold to_uint16. symmetry. apply Zmult_mod. Qed.

Lemma to_uint16_congr (a b k : Z) :
  a = b + k * 2 ^ 16 -> to_uint16 a = to_uint16 b.
Proof. intros ->. unfold to_uint16. apply Z_mod_plus_full. Qed.

Lemma inverse_vector_count_range (prm : YUV2RGBVector.t) :
  0 <= inverse_vector_count prm <= 15.
Proof.
  unfold inverse_vector_count.
  destruct (Z.leb_spec 0 (YUV2RGBVector.PRECISION prm));
    destruct (Z.leb_spec (YUV2RGBVector.PRECISION prm) 15); cbn [andb]; lia.
Qed.

(** The packed lane is the wrap-around sum, shifted and saturated. *)
Lemma inverse_vector_byte_exact (prm : YUV2RGBVector.t) (Y U V : plane)
    (yo uo vo ch : Z) :
  inverse_vector_byte prm Y U V yo uo vo ch
  = inverse_vector_sum prm ch (load8 Y yo) (load8 U uo) (load8 V vo).
Proof.
  unfold inverse_vector_byte, inverse_vector_lane, inverse_vector_sum.
  fold (inverse_vector_count prm).
  set (y := load8 Y yo). set (u := load8 U uo). set (v := load8 V vo).
  rewrite !to_int16_uint16.
  rewrite (to_int16_small (Z.shiftr _ _))
    by (apply shiftr_int16;
        [apply inverse_vector_count_range | apply to_int16_range]).
  do 2 f_equal.
  rewrite <- to_int16_uint16. symmetry. rewrite <- to_int16_uint16. symmetry.
  f_equal.
  rewrite !to_uint16_mul.
  destruct (ch =? 0); [|destruct (ch =? 1)].
  - rewrite to_uint16_add.
    apply (to_uint16_congr _ _
             (YUV2RGBVector.v_r_factor prm
              - YUV2RGBVector.y_shift prm / 2 ^ 16 * - YUV2RGBVector.y_factor prm)).
    unfold to_uint16. rewrite (Z.mod_eq (YUV2RGBVector.y_shift prm)) by lia.
    change (-128 mod 2 ^ 16) with (-128 + 2 ^ 16). ring.
  - rewrite (to_uint16_add ((u + to_uint16 (-128)) * _)).
    rewrite to_uint16_add.
    apply (to_uint16_congr _ _
             (YUV2RGBVector.u_g_factor prm + YUV2RGBVector.v_g_factor prm
              - YUV2RGBVector.y_shift prm / 2 ^ 16 * - YUV2RGBVector.y_factor prm)).
    unfold to_uint16. rewrite (Z.mod_eq (YUV2RGBVector.y_shift prm)) by lia.
    change (-128 mod 2 ^ 16) with (-128 + 2 ^ 16). ring.
  - rewrite to_uint16_add.
    apply (to_uint16_congr _ _
             (YUV2RGBVector.u_b_factor prm
              - YUV2RGBVector.y_shift prm / 2 ^ 16 * - YUV2RGBVector.y_factor prm)).
    unfold to_uint16. rewrite (Z.mod_eq (YUV2RGBVector.y_shift prm)) by lia.
    change (-128 mod 2 ^ 16) with (-128 + 2 ^ 16). ring.
Qed.

(** ** The packing and unpacking networks *)

Lemma byte_register_intro (l : list Z) :
  length l = 16%nat -> Forall is_byte l -> byte_register l.
Proof. split; assumption. Qed.

(** X13: on registers of sixteen bytes, the packing network of the
    inverse kernel, PACK_RGB24_32, turns the planar channels (R in the
    first two registers, G in the next two, B in the last two) into the 96
    interleaved bytes R0 G0 B0 R1 G1 B1 ..., and it undoes the unpacking
    network of the forward kernel, UNPACK_RGB24_32, which undoes it. *)
Theorem X13_packing_inverts_unpacking :
  forall (a1 a2 a3 a4 a5 a6 : list Z),
    byte_register a1 -> byte_register a2 -> byte_register a3 ->
    byte_register a4 -> byte_register a5 -> byte_register a6 ->
    let v := (epi8 a1, epi8 a2, epi8 a3, epi8 a4, epi8 a5, epi8 a6) in
    bytes_of_six (PACK_RGB24_32 v)
    = interleave3 (a1 ++ a2) (a3 ++ a4) (a5 ++ a6) /\
    UNPACK_RGB24_32 (PACK_RGB24_32 v) = v /\
    PACK_RGB24_32 (UNPACK_RGB24_32 v) = v.
Proof.
  intros a1 a2 a3 a4 a5 a6 A1 A2 A3 A4 A5 A6 v. subst v.
  rewrite PACK_RGB24_32_bytes by assumption.
  pose proof A1 as (L1 & F1). pose proof A2 as (L2 & F2).
  pose proof A3 as (L3 & F3). pose proof A4 as (L4 & F4).
  pose proof A5 as (L5 & F5). pose proof A6 as (L6 & F6).
  clear A1 A2 A3 A4 A5 A6.
  sixteen a1 L1. sixteen a2 L2. sixteen a3 L3. sixteen a4 L4.
  sixteen a5 L5. sixteen a6 L6.
  split; [reflexivity|]. split; [reflexivity|].
  unfold UNPACK_RGB24_32, UNPACK_RGB24_32_STEP1, UNPACK_RGB24_32_STEP2,
    _mm_unpacklo_epi8, _mm_unpackhi_epi8.
  cbn [as_bytes firstn skipn interleave].
  split_bytes.
  rewrite PACK_RGB24_32_bytes
    by (apply byte_register_intro;
        [reflexivity | repeat (apply Forall_cons; [assumption|]); apply Forall_nil]).
  reflexivity.
Qed.

Lemma X13_packing_inverts_unpacking_witness :
  let r := map (fun k => k) lanes16 in
  let g := map (fun k => 100 + k) lanes16 in
  let b := map (fun k => 200 + k) lanes16 in
  firstn 9 (bytes_of_six (PACK_RGB24_32 (epi8 r, epi8 r, epi8 g, epi8 g,
                                         epi8 b, epi8 b)))
  = [0; 100; 200; 1; 101; 201; 2; 102; 202].
Proof.
  intros r g b.
  destruct (X13_packing_inverts_unpacking r r g g b b) as (H & _).
  1-6: split; [reflexivity|];
    repeat (apply Forall_cons; [vm_compute; intuition discriminate|]);
    apply Forall_nil.
  rewrite H. reflexivity.
Defined.

(** ** The vectorised inverse path, whole images *)

(** X14: the vectorised inverse path (compiled out; the coefficient fields
    it reads are parameters), on an image at least 31 wide, completes and
    stores, for each pixel of rows 0..2*(H/2), columns 0..32*(W/32) and each
    channel, the byte saturate(int16(chroma + (Y - y_shift) * y_factor)
    >> count), where chroma is v_r_factor*(V-128) for R,
    u_g_factor*(U-128) + v_g_factor*(V-128) for G and u_b_factor*(U-128) for
    B, Y is the luma sample of the pixel and U, V are the chroma samples of
    its 2x2 block: the sum wraps in 16 bits, the shift is arithmetic and
    the packing saturates. *)
Theorem X14_vector_inverse_bytes_are_saturated_sums :
  forall (table : YCbCrType -> YUV2RGBVector.t) (yuv_type : YCbCrType)
         (width height : Z) (Y U V : plane) (Y_stride UV_stride : Z)
         (RGB : plane) (RGB_stride : Z) (fuel : nat),
    geometry width height RGB_stride Y_stride UV_stride ->
    31 <= width ->
    width < Z.of_nat fuel -> height < Z.of_nat fuel ->
    exists out,
      yuv420_rgb24_sseu table fuel width height Y U V Y_stride UV_stride RGB
                        RGB_stride yuv_type = Done out /\
      forall r c ch,
        0 <= r < 2 * (height / 2) -> 0 <= c < 32 * (width / 32) -> 0 <= ch < 3 ->
        out (r * RGB_stride + 3 * c + ch)
        = inverse_vector_sum (table yuv_type) ch
            (load8 Y (r * Y_stride + c))
            (load8 U (r / 2 * UV_stride + c / 2))
            (load8 V (r / 2 * UV_stride + c / 2)).
Proof.
  intros table yuv_type width height Y U V Y_stride UV_stride RGB RGB_stride
    fuel G Hw31 Hw Hh.
  destruct (yuv420_rgb24_sseu_image (table yuv_type) width height Y U V
              Y_stride UV_stride RGB RGB_stride G fuel Hw31 Hw Hh)
    as (out & Hout & [IR _]).
  exists out. split; [exact Hout|]. intros r c ch Hr Hc Hch.
  rewrite IR by assumption. apply inverse_vector_byte_exact.
Qed.

Lemma X14_vector_inverse_bytes_are_saturated_sums_witness :
  let table := fun _ : YCbCrType => YUV2RGBVector.mk 1 0 0 1 0 1 0 in
  exists out,
    yuv420_rgb24_sseu table 40 32 2 (fun o => o mod 64)
                      (fun o => 128 + o mod 16) (fun o => 128 + 2 * (o mod 16))
                      32 16 (const_plane 7) 96 YCBCR_601 = Done out /\
    map out [0; 1; 2; 3; 4; 5; 6; 7; 8; 93; 94; 95; 96; 97; 98; 189; 190; 191; 192]
    = [0; 0; 0; 1; 1; 1; 4; 2; 3; 61; 31; 46; 32; 32; 32; 93; 63; 78; 7].
Proof.
  intros table.
  destruct (X14_vector_inverse_bytes_are_saturated_sums table YCBCR_601 32 2
              (fun o => o mod 64) (fun o => 128 + o mod 16)
              (fun o => 128 + 2 * (o mod 16)) 32 16 (const_plane 7) 96 40%nat)
    as (out & Hout & _).
  - constructor; vm_compute; intuition discriminate.
  - lia.
  - vm_compute. reflexivity.
  - vm_compute. reflexivity.
  - exists out. split; [exact Hout|].
    apply (f_equal state_of) in Hout. cbn [state_of] in Hout. subst out.
    vm_compute. reflexivity.
Defined.

(** X15: the vectorised inverse path converts whole batches of 32
    columns.  With cols = 32*(W/32), a completed conversion of an image at
    least 31 wide leaves as it was every cell of the RGB buffer outside
    rows 0..2*(H/2), byte columns 0..3*cols, in particular the W mod 32
    trailing pixels of each row; at width 31, or at height 1, it writes
    nothing. *)
Theorem X15_vector_inverse_converts_whole_batches_only :
  forall (table : YCbCrType -> YUV2RGBVector.t) (yuv_type : YCbCrType)
         (width height : Z) (Y U V : plane) (Y_stride UV_stride : Z)
         (RGB : plane) (RGB_stride : Z) (fuel : nat),
    geometry width height RGB_stride Y_stride UV_stride ->
    31 <= width ->
    width < Z.of_nat fuel -> height < Z.of_nat fuel ->
    let cols := 32 * (width / 32) in
    width - 32 < cols <= width /\
    exists out,
      yuv420_rgb24_sseu table fuel width height Y U V Y_stride UV_stride RGB
                        RGB_stride yuv_type = Done out /\
      (forall o, ~ in_region RGB_stride (2 * (height / 2)) (3 * cols) o ->
         out o = RGB o) /\
      (forall r c, 0 <= c < RGB_stride ->
         2 * (height / 2) <= r \/ 3 * cols <= c ->
         out (r * RGB_stride + c) = RGB (r * RGB_stride + c)) /\
      (width = 31 \/ height = 1 -> forall o, out o = RGB o).
Proof.
  intros table yuv_type width height Y U V Y_stride UV_stride RGB RGB_stride
    fuel G Hw31 Hw Hh cols.
  pose proof G as [Gw Gh Grs Gys Guvs Grz Gyz Guvz].
  assert (Hd : width - 32 < cols <= width /\ 0 <= cols /\ 0 <= height / 2
               /\ (width = 31 \/ height = 1 -> height / 2 <= 0 \/ cols <= 0))
    by (subst cols; Z.div_mod_to_equations; lia).
  destruct Hd as (Hcols & Hc0 & Hh2 & Hnone).
  split; [exact Hcols|].
  destruct (yuv420_rgb24_sseu_image (table yuv_type) width height Y U V
              Y_stride UV_stride RGB RGB_stride G fuel Hw31 Hw Hh)
    as (out & Hout & [_ FR]).
  fold cols in FR.
  exists out. split; [exact Hout|]. split; [exact FR|]. split.
  - intros r c Hc Ho. apply FR, trailing_cell_outside; lia.
  - intros H o. apply FR, empty_region. specialize (Hnone H). lia.
Qed.

Lemma X15_vector_inverse_converts_whole_batches_only_witness :
  let table := fun _ : YCbCrType => YUV2RGBVector.mk 1 0 0 1 0 1 0 in
  exists out,
    yuv420_rgb24_sseu table 70 63 3 (const_plane 50) (const_plane 128)
                      (const_plane 128) 63 32 (const_plane 7) 189 YCBCR_601
    = Done out /\
    map out [0; 95; 96; 188; 189; 284; 285; 378; 379]
    = [50; 50; 7; 7; 50; 50; 7; 7; 7].
Proof.
  intros table.
  destruct (X15_vector_inverse_converts_whole_batches_only table YCBCR_601 63 3
              (const_plane 50) (const_plane 128) (const_plane 128) 63 32
              (const_plane 7) 189 70%nat) as (_ & out & Hout & _).
  - constructor; vm_compute; intuition discriminate.
  - lia.
  - vm_compute. reflexivity.
  - vm_compute. reflexivity.
  - exists out. split; [exact Hout|].
    apply (f_equal state_of) in Hout. cbn [state_of] in Hout. subst out.
    vm_compute. reflexivity.
Defined.

(** X16: for a width below 31 the bound W - 31 of the inner loop of the
    vectorised inverse path wraps to 2^32 - 31 + W.  Unless the height is
    1, the conversion does not complete, whatever the fuel: the batch body
    has run once per unit of fuel from the start of the first row pair;
    the first batch alone writes the 32 pixels of columns 0..31 of the
    first row (when the row pitch is at least 96), beyond the width of the
    image. *)
Theorem X16_vector_inverse_runs_away_on_narrow_images :
  forall (table : YCbCrType -> YUV2RGBVector.t) (yuv_type : YCbCrType)
         (width height : Z) (Y U V : plane) (Y_stride UV_stride : Z)
         (RGB : plane) (RGB_stride : Z) (fuel : nat),
    0 <= width < 31 -> 0 <= height < 2 ^ 32 -> height <> 1 ->
    to_uint32 (width - 31) = 2 ^ 32 - 31 + width /\
    yuv420_rgb24_sseu table fuel width height Y U V Y_stride UV_stride RGB
                      RGB_stride yuv_type
    = OutOfFuel
        (snd (iter_u32 32 (fun _ s => YUV2RGB_32 (table yuv_type) Y U V s) fuel 0
                (inv_row_start Y_stride UV_stride RGB_stride 0, RGB))) /\
    (96 <= to_uint32 RGB_stride ->
     forall c ch, 0 <= c < 32 -> 0 <= ch < 3 ->
       state_of (yuv420_rgb24_sseu table 1 width height Y U V Y_stride
                                   UV_stride RGB RGB_stride yuv_type)
                (3 * c + ch)
       = inverse_vector_sum (table yuv_type) ch (load8 Y c) (load8 U (c / 2))
                            (load8 V (c / 2))).
Proof.
  intros table yuv_type width height Y U V Y_stride UV_stride RGB RGB_stride
    fuel Hw Hh Hh1.
  assert (Hb : to_uint32 (width - 31) = 2 ^ 32 - 31 + width).
  { unfold to_uint32. replace (width - 31) with (2 ^ 32 - 31 + width + -1 * 2 ^ 32)
      by lia. rewrite Z.mod_add, Z.mod_small by lia. reflexivity. }
  assert (Hbh : 0 < to_uint32 (height - 1)).
  { destruct (Z.eq_dec height 0) as [-> | Hne]; [reflexivity|].
    rewrite to_uint32_small; lia. }
  assert (Hrun : forall n,
    yuv420_rgb24_sseu table n width height Y U V Y_stride UV_stride RGB
                      RGB_stride yuv_type
    = OutOfFuel
        (snd (iter_u32 32 (fun _ s => YUV2RGB_32 (table yuv_type) Y U V s) n 0
                (inv_row_start Y_stride UV_stride RGB_stride 0, RGB)))).
  { intros n. unfold yuv420_rgb24_sseu.
    destruct n as [|n]; [reflexivity|].
    cbn [for_u32]. destruct (Z.ltb_spec 0 (to_uint32 (height - 1))); [|lia].
    unfold yuv420_rgb24_sse_rows.
    rewrite (for_u32_out_of_fuel (to_uint32 (width - 31)) 32 _
               (fun _ s => YUV2RGB_32 (table yuv_type) Y U V s)
               (fun _ _ => eq_refl)).
    - reflexivity.
    - intros k _. pose proof (counter_u32_batches k). lia. }
  split; [exact Hb|]. split; [apply Hrun|].
  intros Hs c ch Hc Hch. rewrite Hrun. cbn [state_of iter_u32].
  rewrite YUV2RGB_32_RGB
    by (unfold inv_row_start; cbn [i_rgb_ptr1 i_rgb_ptr2];
        change (to_uint32 (0 * RGB_stride)) with 0;
        change (to_uint32 (0 + 1)) with 1; rewrite Z.mul_1_l; lia).
  unfold inv_row_start. cbn [i_y_ptr1 i_u_ptr i_v_ptr i_rgb_ptr1 i_rgb_ptr2].
  change (to_uint32 (0 * RGB_stride)) with 0.
  change (to_uint32 (0 * Y_stride)) with 0.
  change (to_uint32 (0 / 2 * UV_stride)) with 0.
  rewrite in_range_true by lia. rewrite inverse_vector_byte_exact.
  rewrite Z.sub_0_r, !Z.add_0_l.
  replace ((3 * c + ch) / 3) with c by (Z.div_mod_to_equations; lia).
  replace ((3 * c + ch) / 6) with (c / 2) by (Z.div_mod_to_equations; lia).
  replace ((3 * c + ch) mod 3) with ch by (Z.div_mod_to_equations; lia).
  reflexivity.
Qed.

Lemma X16_vector_inverse_runs_away_on_narrow_images_witness :
  let table := fun _ : YCbCrType => YUV2RGBVector.mk 1 0 0 1 0 1 0 in
  exists out,
    yuv420_rgb24_sseu table 2 30 2 (const_plane 50) (const_plane 128)
                      (const_plane 128) 30 15 (const_plane 7) 90 YCBCR_601
    = OutOfFuel out /\
    map out [0; 89; 90; 191; 192; 281; 282] = [50; 50; 50; 50; 50; 50; 7].
Proof.
  intros table.
  destruct (X16_vector_inverse_runs_away_on_narrow_images table YCBCR_601 30 2
              (const_plane 50) (const_plane 128) (const_plane 128) 30 15
              (const_plane 7) 90 2%nat) as (_ & Hrun & _); try lia.
  eexists. split; [exact Hrun|]. vm_compute. reflexivity.
Defined.

(** ** The aligned variants *)

Lemma aligned_divide (x : Z) : aligned x = true <-> (16 | x).
Proof.
  unfold aligned. rewrite Z.eqb_eq. apply Z.mod_divide. lia.
Qed.

Lemma aligned_add (x d : Z) : (16 | d) -> aligned (x + d) = aligned x.
Proof.
  intros (k & ->). unfold aligned. rewrite Z_mod_plus_full. reflexivity.
Qed.

Lemma aligned_to_uint32 (x s : Z) : aligned (x + to_uint32 s) = aligned (x + s).
Proof.
  unfold to_uint32. rewrite (Z.mod_eq s (2 ^ 32)) by lia.
  replace (x + (s - 2 ^ 32 * (s / 2 ^ 32)))
    with (x + s + - (2 ^ 28 * (s / 2 ^ 32)) * 16) by lia.
  unfold aligned. rewrite Z_mod_plus_full. reflexivity.
Qed.

Lemma divide_to_uint32 (s : Z) : (16 | s) -> (16 | to_uint32 s).
Proof.
  intros H. apply aligned_divide.
  rewrite <- (Z.add_0_l (to_uint32 s)), aligned_to_uint32, Z.add_0_l.
  apply aligned_divide, H.
Qed.

Section Faulting.
Context {A : Type}.
Variables (bound step : Z).
Variable body_aligned : Z -> A -> option (outcome A).
Variable body : Z -> A -> outcome A.

(** A body that faults or does what the other body does gives a loop that
    faults or does what the other loop does. *)
Lemma for_u32_faulting_or :
  (forall x a, body_aligned x a = None \/ body_aligned x a = Some (body x a)) ->
  forall fuel x a,
    for_u32_faulting fuel bound step body_aligned x a = None \/
    for_u32_faulting fuel bound step body_aligned x a
    = Some (for_u32 fuel bound step body x a).
Proof.
  intros Hb. induction fuel as [|fuel IH]; intros x a; cbn [for_u32_faulting for_u32].
  - right. reflexivity.
  - destruct (x <? bound); [|right; reflexivity].
    destruct (Hb x a) as [-> | ->]; [left; reflexivity|].
    destruct (body x a) as [a' | a']; [apply IH | right; reflexivity].
Qed.

(** Under an invariant that excludes the fault, the two loops agree. *)
Lemma for_u32_faulting_safe (I : A -> Prop) :
  (forall x a, I a -> body_aligned x a = Some (body x a)) ->
  (forall x a a', I a -> body x a = Done a' -> I a') ->
  forall fuel x a, I a ->
    for_u32_faulting fuel bound step body_aligned x a
    = Some (for_u32 fuel bound step body x a).
Proof.
  intros Hb Hi. induction fuel as [|fuel IH]; intros x a Ha;
    cbn [for_u32_faulting for_u32].
  - reflexivity.
  - destruct (x <? bound); [|reflexivity].
    rewrite (Hb x a Ha).
    destruct (body x a) as [a' | a'] eqn:E; [|reflexivity].
    apply IH. apply (Hi x a a' Ha E).
Qed.

(** A fault in the first iteration. *)
Lemma for_u32_faulting_first (fuel : nat) (x : Z) (a : A) :
  fuel <> 0%nat -> x < bound -> body_aligned x a = None ->
  for_u32_faulting fuel bound step body_aligned x a = None.
Proof.
  intros Hf Hx Hb. destruct fuel as [|fuel]; [congruence|].
  cbn [for_u32_faulting]. apply Z.ltb_lt in Hx. rewrite Hx, Hb. reflexivity.
Qed.

End Faulting.

(** The accesses of a batch are aligned exactly when its six pointers
    are. *)
Lemma RGB2YUV_32_accesses_aligned (a : addresses) (c : fwd_cursor) :
  forallb aligned (RGB2YUV_32_accesses a c) = fwd_cursor_aligned a c.
Proof.
  unfold RGB2YUV_32_accesses, fwd_cursor_aligned. cbn [forallb].
  rewrite !Z.add_assoc.
  rewrite !(aligned_add _ 16), !(aligned_add _ 32), !(aligned_add _ 48),
    !(aligned_add _ 64), !(aligned_add _ 80)
    by (apply Z.mod_divide; [lia | reflexivity]).
  destruct (aligned (RGB_address a + f_rgb_ptr1 c)),
    (aligned (RGB_address a + f_rgb_ptr2 c)),
    (aligned (Y_address a + f_y_ptr1 c)), (aligned (Y_address a + f_y_ptr2 c)),
    (aligned (U_address a + f_u_ptr c)), (aligned (V_address a + f_v_ptr c));
    reflexivity.
Qed.

Lemma YUV2RGB_32_accesses_aligned (a : addresses) (c : inv_cursor) :
  forallb aligned (YUV2RGB_32_accesses a c) = inv_cursor_aligned a c.
Proof.
  unfold YUV2RGB_32_accesses, inv_cursor_aligned. cbn [forallb].
  rewrite !Z.add_assoc.
  rewrite !(aligned_add _ 16), !(aligned_add _ 32), !(aligned_add _ 48),
    !(aligned_add _ 64), !(aligned_add _ 80)
    by (apply Z.mod_divide; [lia | reflexivity]).
  destruct (aligned (RGB_address a + i_rgb_ptr1 c)),
    (aligned (RGB_address a + i_rgb_ptr2 c)),
    (aligned (Y_address a + i_y_ptr1 c)), (aligned (Y_address a + i_y_ptr2 c)),
    (aligned (U_address a + i_u_ptr c)), (aligned (V_address a + i_v_ptr c));
    reflexivity.
Qed.

Lemma aligned_buffers_divide (a : addresses) (RGB_stride Y_stride UV_stride : Z) :
  aligned_buffers a RGB_stride Y_stride UV_stride ->
  (16 | RGB_address a) /\ (16 | Y_address a) /\ (16 | U_address a) /\
  (16 | V_address a) /\ (16 | RGB_stride) /\ (16 | Y_stride) /\ (16 | UV_stride).
Proof.
  unfold aligned_buffers. cbn [forallb]. rewrite !andb_true_iff, !aligned_divide.
  tauto.
Qed.

Lemma forallb_aligned_intro (l : list Z) :
  Forall (Z.divide 16) l -> forallb aligned l = true.
Proof.
  intros H. apply forallb_forall. intros x Hx. apply aligned_divide.
  rewrite Forall_forall in H. auto.
Qed.

Ltac divides :=
  repeat first [ assumption
               | apply Z.divide_add_r
               | apply divide_to_uint32
               | apply Z.divide_mul_r; assumption
               | apply Z.divide_mul_l; assumption
               | apply Z.divide_mul_l; apply Z.mod_divide; [lia | reflexivity] ].

Lemma fwd_row_start_aligned (a : addresses) (RGB_stride Y_stride UV_stride y : Z) :
  aligned_buffers a RGB_stride Y_stride UV_stride ->
  fwd_cursor_aligned a (fwd_row_start RGB_stride Y_stride UV_stride y) = true.
Proof.
  intros H. apply aligned_buffers_divide in H.
  destruct H as (HR & HY & HU & HV & Hrs & Hys & Huvs).
  unfold fwd_cursor_aligned, fwd_row_start.
  cbn [f_rgb_ptr1 f_rgb_ptr2 f_y_ptr1 f_y_ptr2 f_u_ptr f_v_ptr].
  apply forallb_aligned_intro.
  repeat (apply Forall_cons; [divides|]). apply Forall_nil.
Qed.

Lemma fwd_advance_aligned (a : addresses) (c : fwd_cursor) :
  fwd_cursor_aligned a (fwd_advance c 16) = fwd_cursor_aligned a c.
Proof.
  unfold fwd_cursor_aligned, fwd_advance.
  cbn [f_rgb_ptr1 f_rgb_ptr2 f_y_ptr1 f_y_ptr2 f_u_ptr f_v_ptr forallb].
  rewrite !Z.add_assoc.
  rewrite !(aligned_add _ (6 * 16)), !(aligned_add _ (2 * 16)),
    !(aligned_add _ 16) by (apply Z.mod_divide; [lia | reflexivity]).
  reflexivity.
Qed.

Lemma inv_row_start_aligned (a : addresses) (Y_stride UV_stride RGB_stride y : Z) :
  aligned_buffers a RGB_stride Y_stride UV_stride ->
  inv_cursor_aligned a (inv_row_start Y_stride UV_stride RGB_stride y) = true.
Proof.
  intros H. apply aligned_buffers_divide in H.
  destruct H as (HR & HY & HU & HV & Hrs & Hys & Huvs).
  unfold inv_cursor_aligned, inv_row_start.
  cbn [i_rgb_ptr1 i_rgb_ptr2 i_y_ptr1 i_y_ptr2 i_u_ptr i_v_ptr].
  apply forallb_aligned_intro.
  repeat (apply Forall_cons; [divides|]). apply Forall_nil.
Qed.

Lemma inv_advance_aligned (a : addresses) (c : inv_cursor) :
  inv_cursor_aligned a (inv_advance c 16) = inv_cursor_aligned a c.
Proof.
  unfold inv_cursor_aligned, inv_advance.
  cbn [i_rgb_ptr1 i_rgb_ptr2 i_y_ptr1 i_y_ptr2 i_u_ptr i_v_ptr forallb].
  rewrite !Z.add_assoc.
  rewrite !(aligned_add _ (6 * 16)), !(aligned_add _ (2 * 16)),
    !(aligned_add _ 16) by (apply Z.mod_divide; [lia | reflexivity]).
  reflexivity.
Qed.

Section AlignedForward.
Variable prm : vector_param.
Variable a : addresses.
Variables (fuel : nat) (width : Z) (RGB : plane).
Variables (RGB_stride Y_stride UV_stride : Z).

Lemma RGB2YUV_32_aligned_or (s : fwd_cursor * yuv_planes) :
  RGB2YUV_32_aligned prm a RGB s = None \/
  RGB2YUV_32_aligned prm a RGB s = Some (Done (RGB2YUV_32 prm RGB s)).
Proof.
  unfold RGB2YUV_32_aligned.
  destruct (forallb aligned _); [right | left]; reflexivity.
Qed.

Lemma rgb24_yuv420_sse_rows_aligned_or (y : Z) (m : yuv_planes) :
  rgb24_yuv420_sse_rows_aligned prm a fuel width RGB RGB_stride Y_stride
                                UV_stride y m = None \/
  rgb24_yuv420_sse_rows_aligned prm a fuel width RGB RGB_stride Y_stride
                                UV_stride y m
  = Some (rgb24_yuv420_sse_rows prm fuel width RGB RGB_stride Y_stride
                                UV_stride y m).
Proof.
  unfold rgb24_yuv420_sse_rows_aligned, rgb24_yuv420_sse_rows.
  destruct (for_u32_faulting_or (to_uint32 (width - 31)) 32
              (fun _ s => RGB2YUV_32_aligned prm a RGB s)
              (fun _ s => Done (RGB2YUV_32 prm RGB s))
              (fun _ s => RGB2YUV_32_aligned_or s) fuel 0
              (fwd_row_start RGB_stride Y_stride UV_stride y, m))
    as [-> | ->]; [left; reflexivity | right].
  destruct (for_u32 _ _ _ _ _ _); reflexivity.
Qed.

Lemma rgb24_yuv420_sse_rows_aligned_safe (y : Z) (m : yuv_planes) :
  aligned_buffers a RGB_stride Y_stride UV_stride ->
  rgb24_yuv420_sse_rows_aligned prm a fuel width RGB RGB_stride Y_stride
                                UV_stride y m
  = Some (rgb24_yuv420_sse_rows prm fuel width RGB RGB_stride Y_stride
                                UV_stride y m).
Proof.
  intros H. unfold rgb24_yuv420_sse_rows_aligned, rgb24_yuv420_sse_rows.
  rewrite (for_u32_faulting_safe (to_uint32 (width - 31)) 32
             (fun _ s => RGB2YUV_32_aligned prm a RGB s)
             (fun _ s => Done (RGB2YUV_32 prm RGB s))
             (fun s => fwd_cursor_aligned a (fst s) = true)).
  - destruct (for_u32 _ _ _ _ _ _); reflexivity.
  - intros _ s Hs. cbn beta in Hs. unfold RGB2YUV_32_aligned.
    rewrite RGB2YUV_32_accesses_aligned, Hs. reflexivity.
  - intros _ [c m0] s' Hs E. apply (f_equal state_of) in E.
    cbn [state_of] in E. subst s'. cbn beta in Hs |- *.
    rewrite RGB2YUV_32_cursor, fwd_advance_aligned. exact Hs.
  - cbn [fst]. apply fwd_row_start_aligned, H.
Qed.

End AlignedForward.

Section AlignedInverse.
Variable prm : YUV2RGBVector.t.
Variable a : addresses.
Variables (fuel : nat) (width : Z) (Y U V : plane).
Variables (Y_stride UV_stride RGB_stride : Z).

Lemma YUV2RGB_32_aligned_or (s : inv_cursor * plane) :
  YUV2RGB_32_aligned prm a Y U V s = None \/
  YUV2RGB_32_aligned prm a Y U V s = Some (Done (YUV2RGB_32 prm Y U V s)).
Proof.
  unfold YUV2RGB_32_aligned.
  destruct (forallb aligned _); [right | left]; reflexivity.
Qed.

Lemma yuv420_rgb24_sse_rows_aligned_or (y : Z) (RGB : plane) :
  yuv420_rgb24_sse_rows_aligned prm a fuel width Y U V Y_stride UV_stride
                                RGB_stride y RGB = None \/
  yuv420_rgb24_sse_rows_aligned prm a fuel width Y U V Y_stride UV_stride
                                RGB_stride y RGB
  = Some (yuv420_rgb24_sse_rows prm fuel width Y U V Y_stride UV_stride
                                RGB_stride y RGB).
Proof.
  unfold yuv420_rgb24_sse_rows_aligned, yuv420_rgb24_sse_rows.
  destruct (for_u32_faulting_or (to_uint32 (width - 31)) 32
              (fun _ s => YUV2RGB_32_aligned prm a Y U V s)
              (fun _ s => Done (YUV2RGB_32 prm Y U V s))
              (fun _ s => YUV2RGB_32_aligned_or s) fuel 0
              (inv_row_start Y_stride UV_stride RGB_stride y, RGB))
    as [-> | ->]; [left; reflexivity | right].
  destruct (for_u32 _ _ _ _ _ _); reflexivity.
Qed.

Lemma yuv420_rgb24_sse_rows_aligned_safe (y : Z) (RGB : plane) :
  aligned_buffers a RGB_stride Y_stride UV_stride ->
  yuv420_rgb24_sse_rows_aligned prm a fuel width Y U V Y_stride UV_stride
                                RGB_stride y RGB
  = Some (yuv420_rgb24_sse_rows prm fuel width Y U V Y_stride UV_stride
                                RGB_stride y RGB).
Proof.
  intros H. unfold yuv420_rgb24_sse_rows_aligned, yuv420_rgb24_sse_rows.
  rewrite (for_u32_faulting_safe (to_uint32 (width - 31)) 32
             (fun _ s => YUV2RGB_32_aligned prm a Y U V s)
             (fun _ s => Done (YUV2RGB_32 prm Y U V s))
             (fun s => inv_cursor_aligned a (fst s) = true)).
  - destruct (for_u32 _ _ _ _ _ _); reflexivity.
  - intros _ s Hs. cbn beta in Hs. unfold YUV2RGB_32_aligned.
    rewrite YUV2RGB_32_accesses_aligned, Hs. reflexivity.
  - intros _ [c m0] s' Hs E. apply (f_equal state_of) in E.
    cbn [state_of] in E. subst s'. cbn beta in Hs |- *.
    rewrite YUV2RGB_32_cursor, inv_advance_aligned. exact Hs.
  - cbn [fst]. apply inv_row_start_aligned, H.
Qed.

End AlignedInverse.

(** The aligned variants fault or do what the unaligned ones do. *)
Lemma rgb24_yuv420_sse_faults_or_agrees
    (table : YCbCrType -> vector_param) (a : addresses) (fuel : nat)
    (width height : Z) (RGB : plane) (RGB_stride : Z) (Y U V : plane)
    (Y_stride UV_stride : Z) (yuv_type : YCbCrType) :
  rgb24_yuv420_sse table a fuel width height RGB RGB_stride Y U V Y_stride
                   UV_stride yuv_type = None \/
  rgb24_yuv420_sse table a fuel width height RGB RGB_stride Y U V Y_stride
                   UV_stride yuv_type
  = Some (rgb24_yuv420_sseu table fuel width height RGB RGB_stride Y U V
                            Y_stride UV_stride yuv_type).
Proof.
  unfold rgb24_yuv420_sse, rgb24_yuv420_sseu.
  apply for_u32_faulting_or. intros y m. apply rgb24_yuv420_sse_rows_aligned_or.
Qed.

Lemma yuv420_rgb24_sse_faults_or_agrees
    (table : YCbCrType -> YUV2RGBVector.t) (a : addresses) (fuel : nat)
    (width height : Z) (Y U V : plane) (Y_stride UV_stride : Z)
    (RGB : plane) (RGB_stride : Z) (yuv_type : YCbCrType) :
  yuv420_rgb24_sse table a fuel width height Y U V Y_stride UV_stride RGB
                   RGB_stride yuv_type = None \/
  yuv420_rgb24_sse table a fuel width height Y U V Y_stride UV_stride RGB
                   RGB_stride yuv_type
  = Some (yuv420_rgb24_sseu table fuel width height Y U V Y_stride UV_stride
                            RGB RGB_stride yuv_type).
Proof.
  unfold yuv420_rgb24_sse, yuv420_rgb24_sseu.
  apply for_u32_faulting_or. intros y m. apply yuv420_rgb24_sse_rows_aligned_or.
Qed.

(** X18: the aligned forward variant, run with its four buffers at given
    addresses, either faults or returns exactly what the unaligned variant
    returns.  It does not fault when the four addresses and the three row
    pitches are multiples of 16.  On an image of at least 32 columns and 2
    rows it faults, at its first batch, when the address of the RGB, Y, U
    or V buffer, or of the second row of the RGB or of the Y buffer, is not
    a multiple of 16. *)
Theorem X18_aligned_forward_variant_faults_or_agrees :
  forall (table : YCbCrType -> vector_param) (a : addresses) (fuel : nat)
         (width height : Z) (RGB : plane) (RGB_stride : Z) (Y U V : plane)
         (Y_stride UV_stride : Z) (yuv_type : YCbCrType),
    let aligned_run :=
      rgb24_yuv420_sse table a fuel width height RGB RGB_stride Y U V Y_stride
                       UV_stride yuv_type in
    let unaligned_run :=
      rgb24_yuv420_sseu table fuel width height RGB RGB_stride Y U V Y_stride
                        UV_stride yuv_type in
    (aligned_run = None \/ aligned_run = Some unaligned_run) /\
    (aligned_buffers a RGB_stride Y_stride UV_stride ->
     aligned_run = Some unaligned_run) /\
    (32 <= width < 2 ^ 32 -> 2 <= height < 2 ^ 32 -> fuel <> 0%nat ->
     forallb aligned [RGB_address a; RGB_address a + RGB_stride;
                      Y_address a; Y_address a + Y_stride;
                      U_address a; V_address a] = false ->
     aligned_run = None).
Proof.
  intros table a fuel width height RGB RGB_stride Y U V Y_stride UV_stride
    yuv_type aligned_run unaligned_run.
  subst aligned_run unaligned_run.
  split; [apply rgb24_yuv420_sse_faults_or_agrees|].
  unfold rgb24_yuv420_sse, rgb24_yuv420_sseu. split.
  - intros H.
    apply (for_u32_faulting_safe _ _ _ _ (fun _ => True)); [| trivial | trivial].
    intros y m _. apply rgb24_yuv420_sse_rows_aligned_safe, H.
  - intros Hw Hh Hf Hbad.
    apply for_u32_faulting_first; [exact Hf | rewrite to_uint32_small; lia |].
    unfold rgb24_yuv420_sse_rows_aligned.
    rewrite for_u32_faulting_first; [reflexivity | exact Hf
                                     | rewrite to_uint32_small; lia |].
    unfold RGB2YUV_32_aligned. cbn [fst].
    rewrite RGB2YUV_32_accesses_aligned.
    unfold fwd_cursor_aligned, fwd_row_start.
    cbn [f_rgb_ptr1 f_rgb_ptr2 f_y_ptr1 f_y_ptr2 f_u_ptr f_v_ptr].
    change (0 / 2) with 0. rewrite !Z.mul_0_l.
    change (to_uint32 (0 + 1)) with 1. change (to_uint32 0) with 0.
    rewrite !Z.mul_1_l. cbn [forallb] in *.
    rewrite !aligned_to_uint32, !Z.add_0_r. rewrite Hbad. reflexivity.
Qed.

Lemma X18_aligned_forward_variant_faults_or_agrees_witness :
  let table := fun _ : YCbCrType =>
                 mk_vector_param (fun i j => if i =? j then 1 else 0) 0 0 in
  rgb24_yuv420_sse table (mk_addresses 4096 8192 12288 16384) 3 32 2
                   image_one_blue3 96 (const_plane 0) (const_plane 0)
                   (const_plane 0) 32 16 YCBCR_601
  = Some (rgb24_yuv420_sseu table 3 32 2 image_one_blue3 96 (const_plane 0)
                            (const_plane 0) (const_plane 0) 32 16 YCBCR_601) /\
  rgb24_yuv420_sse table (mk_addresses 4096 8192 12288 16384) 3 32 2
                   image_one_blue3 200 (const_plane 0) (const_plane 0)
                   (const_plane 0) 32 16 YCBCR_601
  = None.
Proof.
  intros table.
  pose proof (X18_aligned_forward_variant_faults_or_agrees table
                (mk_addresses 4096 8192 12288 16384) 3 32 2 image_one_blue3 96
                (const_plane 0) (const_plane 0) (const_plane 0) 32 16 YCBCR_601)
    as (_ & H1 & _).
  pose proof (X18_aligned_forward_variant_faults_or_agrees table
                (mk_addresses 4096 8192 12288 16384) 3 32 2 image_one_blue3 200
                (const_plane 0) (const_plane 0) (const_plane 0) 32 16 YCBCR_601)
    as (_ & _ & H2).
  split.
  - apply H1. reflexivity.
  - apply H2; [lia | lia | discriminate | reflexivity].
Defined.

(** X19: the aligned inverse variant, run with its four buffers at given
    addresses, either faults or returns exactly what the unaligned variant
    returns.  It does not fault when the four addresses and the three row
    pitches are multiples of 16.  On an image of at least 32 columns and 2
    rows it faults, at its first batch, when the address of the Y, U, V or
    RGB buffer, or of the second row of the Y or of the RGB buffer, is not
    a multiple of 16. *)
Theorem X19_aligned_inverse_variant_faults_or_agrees :
  forall (table : YCbCrType -> YUV2RGBVector.t) (a : addresses) (fuel : nat)
         (width height : Z) (Y U V : plane) (Y_stride UV_stride : Z)
         (RGB : plane) (RGB_stride : Z) (yuv_type : YCbCrType),
    let aligned_run :=
      yuv420_rgb24_sse table a fuel width height Y U V Y_stride UV_stride RGB
                       RGB_stride yuv_type in
    let unaligned_run :=
      yuv420_rgb24_sseu table fuel width height Y U V Y_stride UV_stride RGB
                        RGB_stride yuv_type in
    (aligned_run = None \/ aligned_run = Some unaligned_run) /\
    (aligned_buffers a RGB_stride Y_stride UV_stride ->
     aligned_run = Some unaligned_run) /\
    (32 <= width < 2 ^ 32 -> 2 <= height < 2 ^ 32 -> fuel <> 0%nat ->
     forallb aligned [Y_address a; Y_address a + Y_stride;
                      U_address a; V_address a;
                      RGB_address a; RGB_address a + RGB_stride] = false ->
     aligned_run = None).
Proof.
  intros table a fuel width height Y U V Y_stride UV_stride RGB RGB_stride
    yuv_type aligned_run unaligned_run.
  subst aligned_run unaligned_run.
  split; [apply yuv420_rgb24_sse_faults_or_agrees|].
  unfold yuv420_rgb24_sse, yuv420_rgb24_sseu. split.
  - intros H.
    apply (for_u32_faulting_safe _ _ _ _ (fun _ => True)); [| trivial | trivial].
    intros y m _. apply yuv420_rgb24_sse_rows_aligned_safe, H.
  - intros Hw Hh Hf Hbad.
    apply for_u32_faulting_first; [exact Hf | rewrite to_uint32_small; lia |].
    unfold yuv420_rgb24_sse_rows_aligned.
    rewrite for_u32_faulting_first; [reflexivity | exact Hf
                                     | rewrite to_uint32_small; lia |].
    unfold YUV2RGB_32_aligned. cbn [fst].
    rewrite YUV2RGB_32_accesses_aligned.
    unfold inv_cursor_aligned, inv_row_start.
    cbn [i_rgb_ptr1 i_rgb_ptr2 i_y_ptr1 i_y_ptr2 i_u_ptr i_v_ptr].
    change (0 / 2) with 0. rewrite !Z.mul_0_l.
    change (to_uint32 (0 + 1)) with 1. change (to_uint32 0) with 0.
    rewrite !Z.mul_1_l. cbn [forallb] in *.
    rewrite !aligned_to_uint32, !Z.add_0_r. rewrite Hbad. reflexivity.
Qed.

Lemma X19_aligned_inverse_variant_faults_or_agrees_witness :
  let table := fun _ : YCbCrType => YUV2RGBVector.mk 1 0 0 1 0 1 0 in
  yuv420_rgb24_sse table (mk_addresses 4096 8192 12288 16384) 3 32 2
                   (fun o => o mod 64) (const_plane 128) (const_plane 128)
                   32 16 (const_plane 7) 96 YCBCR_601
  = Some (yuv420_rgb24_sseu table 3 32 2 (fun o => o mod 64) (const_plane 128)
                            (const_plane 128) 32 16 (const_plane 7) 96
                            YCBCR_601) /\
  yuv420_rgb24_sse table (mk_addresses 4096 8200 12288 16384) 3 32 2
                   (fun o => o mod 64) (const_plane 128) (const_plane 128)
                   32 16 (const_plane 7) 96 YCBCR_601
  = None.
Proof.
  intros table.
  pose proof (X19_aligned_inverse_variant_faults_or_agrees table
                (mk_addresses 4096 8192 12288 16384) 3 32 2 (fun o => o mod 64)
                (const_plane 128) (const_plane 128) 32 16 (const_plane 7) 96
                YCBCR_601) as (_ & H1 & _).
  pose proof (X19_aligned_inverse_variant_faults_or_agrees table
                (mk_addresses 4096 8200 12288 16384) 3 32 2 (fun o => o mod 64)
                (const_plane 128) (const_plane 128) 32 16 (const_plane 7) 96
                YCBCR_601) as (_ & _ & H2).
  split.
  - apply H1. reflexivity.
  - apply H2; [lia | lia | discriminate | reflexivity].
Defined.

(** ** The vector path against the scalar path *)



